(** * Crystal lattices, space groups and structure matching

    A shallow embedding of [CrystalLattice.cpp], [SpaceGroup.cpp] and
    [CrystalStructure.cpp].

    Numbers.  A C++ [double] is read as an exact rational number ([Qc], the
    rationals in lowest terms, with Leibniz equality): there is no rounding,
    no infinity and no NaN, and [x / 0] is [0].  A [size_t] that counts or
    indexes the elements of a vector is a [nat]; an [int] is a [Z].

    Errors.  A C++ exception is a value [Throw e] of the type [result];
    reading a vector outside its bounds with [operator[]] (undefined
    behaviour in C++) is the exception [undefined_behaviour].

    Loops.  A [for] loop over a vector is a fold over the list; the
    [do ... while] loop of the minimum-image search takes a fuel argument
    and returns [None] when the fuel runs out.

    Output.  What the functions write to [std::cout] (warnings and
    progress messages) is left out. *)

From Stdlib Require Import ZArith QArith Qcanon Qround List Lia Bool String.
From Stdlib Require DecimalString DecimalNat.
From stdpp Require Import base list numbers.
Import ListNotations.

Local Open Scope Z_scope.
Local Open Scope Qc_scope.

(** ** Numbers *)

Definition double := Qc.

(** The literal [n/d]. *)
Definition dbl (n : Z) (d : positive) : double := Q2Qc (n # d).

(** A C++ [int] converted to [double]. *)
Definition of_int (n : Z) : double := Q2Qc (inject_Z n).

(** [a < b] on doubles. *)
Definition double_lt (a b : double) : bool :=
  match a ?= b with
  | Lt => true
  | _ => false
  end.

(** [square( x )] of MathFunctions.h. *)
Definition square (x : double) : double := x * x.

(** ** Exceptions *)

Inductive exception : Type :=
| runtime_error (what : string)
| length_error
| undefined_behaviour
| out_of_fuel.

Inductive result (A : Type) : Type :=
| Return (a : A)
| Throw (e : exception).

Arguments Return {A} a.
Arguments Throw {A} e.

Definition bind {A B : Type} (m : result A) (k : A -> result B) : result B :=
  match m with
  | Return a => k a
  | Throw e => Throw e
  end.

Notation "'do' x <- m ; k" := (bind m (fun x => k))
  (at level 10, x pattern, m at level 100, k at level 200).

(** ** Vectors and matrices *)

(** Modelled from the spec: the 3-vector of the numeric library
    (3DCalculations.h is absent), three doubles [x()], [y()], [z()];
    [Vector3D()] is the zero vector. *)
Record Vector3D : Type := mkVector3D {
  v_x : double;
  v_y : double;
  v_z : double
}.

Definition zero_vector : Vector3D := mkVector3D 0 0 0.

(** Modelled from the spec: the arithmetic of the numeric library on
    3-vectors, component by component. *)
Definition Vector3D_add (u v : Vector3D) : Vector3D :=
  mkVector3D (v_x u + v_x v) (v_y u + v_y v) (v_z u + v_z v).

Definition Vector3D_sub (u v : Vector3D) : Vector3D :=
  mkVector3D (v_x u - v_x v) (v_y u - v_y v) (v_z u - v_z v).

Definition Vector3D_scale (s : double) (v : Vector3D) : Vector3D :=
  mkVector3D (s * v_x v) (s * v_y v) (s * v_z v).

Definition Vector3D_div (v : Vector3D) (s : double) : Vector3D :=
  mkVector3D (v_x v / s) (v_y v / s) (v_z v / s).

(** [Vector3D( i, j, k )] with three [int]s. *)
Definition Vector3D_of_ints (i j k : Z) : Vector3D :=
  mkVector3D (of_int i) (of_int j) (of_int k).

(** [v.norm2()]: the squared length. *)
Definition norm2 (v : Vector3D) : double :=
  v_x v * v_x v + v_y v * v_y v + v_z v * v_z v.

(** [v.value( i )] and [v.set_value( i, x )]. *)
Definition Vector3D_value (v : Vector3D) (i : nat) : double :=
  match i with
  | O => v_x v
  | S O => v_y v
  | _ => v_z v
  end.

Definition Vector3D_set_value (v : Vector3D) (i : nat) (x : double) : Vector3D :=
  match i with
  | O => mkVector3D x (v_y v) (v_z v)
  | S O => mkVector3D (v_x v) x (v_z v)
  | _ => mkVector3D (v_x v) (v_y v) x
  end.

(** Modelled from the spec: the 3x3 matrix of the numeric library
    (3DCalculations.h is absent), given row by row as its constructor
    takes it. *)
Record Matrix3D : Type := mkMatrix3D {
  m00 : double; m01 : double; m02 : double;
  m10 : double; m11 : double; m12 : double;
  m20 : double; m21 : double; m22 : double
}.

(** [Matrix3D( d )]: the diagonal matrix [d * 1]; [Matrix3D()] is the
    identity. *)
Definition Matrix3D_diag (d : double) : Matrix3D :=
  mkMatrix3D d 0 0 0 d 0 0 0 d.

Definition identity_matrix : Matrix3D := Matrix3D_diag 1.

(** Modelled from the spec: the arithmetic of the numeric library on
    3x3 matrices (product with a vector and with a matrix, sum, product
    with a number, determinant). *)
Definition Matrix3D_mul_vec (m : Matrix3D) (v : Vector3D) : Vector3D :=
  mkVector3D (m00 m * v_x v + m01 m * v_y v + m02 m * v_z v)
             (m10 m * v_x v + m11 m * v_y v + m12 m * v_z v)
             (m20 m * v_x v + m21 m * v_y v + m22 m * v_z v).

Definition Matrix3D_mul (a b : Matrix3D) : Matrix3D :=
  mkMatrix3D
    (m00 a * m00 b + m01 a * m10 b + m02 a * m20 b)
    (m00 a * m01 b + m01 a * m11 b + m02 a * m21 b)
    (m00 a * m02 b + m01 a * m12 b + m02 a * m22 b)
    (m10 a * m00 b + m11 a * m10 b + m12 a * m20 b)
    (m10 a * m01 b + m11 a * m11 b + m12 a * m21 b)
    (m10 a * m02 b + m11 a * m12 b + m12 a * m22 b)
    (m20 a * m00 b + m21 a * m10 b + m22 a * m20 b)
    (m20 a * m01 b + m21 a * m11 b + m22 a * m21 b)
    (m20 a * m02 b + m21 a * m12 b + m22 a * m22 b).

Definition Matrix3D_add (a b : Matrix3D) : Matrix3D :=
  mkMatrix3D (m00 a + m00 b) (m01 a + m01 b) (m02 a + m02 b)
             (m10 a + m10 b) (m11 a + m11 b) (m12 a + m12 b)
             (m20 a + m20 b) (m21 a + m21 b) (m22 a + m22 b).

Definition Matrix3D_scale (s : double) (a : Matrix3D) : Matrix3D :=
  mkMatrix3D (s * m00 a) (s * m01 a) (s * m02 a)
             (s * m10 a) (s * m11 a) (s * m12 a)
             (s * m20 a) (s * m21 a) (s * m22 a).

Definition determinant (a : Matrix3D) : double :=
  m00 a * (m11 a * m22 a - m12 a * m21 a)
  - m01 a * (m10 a * m22 a - m12 a * m20 a)
  + m02 a * (m10 a * m21 a - m11 a * m20 a).

(** [m.value( i, i )]: a diagonal element. *)
Definition Matrix3D_diagonal_value (a : Matrix3D) (i : nat) : double :=
  match i with
  | O => m00 a
  | S O => m11 a
  | _ => m22 a
  end.

(** ** CrystalLattice.cpp *)

(** Modelled from the spec: an angle (Angle.h is absent) is given by its
    cosine and its sine, the two values that CrystalLattice.cpp reads
    from it. *)
Record Angle : Type := mkAngle {
  cosine : double;
  sine : double
}.

Definition angle_90_degrees : Angle := mkAngle 0 1.

(** The members of a [CrystalLattice] that the functions below read: the
    cell lengths and angles, the three basis vectors and the matrix that
    has them as columns.  The volume, the reciprocal lattice and the
    lattice system are left out. *)
Record CrystalLattice : Type := mkCrystalLattice {
  a_ : double;
  b_ : double;
  c_ : double;
  alpha_ : Angle;
  beta_ : Angle;
  gamma_ : Angle;
  a_vector_ : Vector3D;
  b_vector_ : Vector3D;
  c_vector_ : Vector3D;
  fractional_to_orthogonal_matrix_ : Matrix3D
}.

Section Constructor.

Variable sqrt : double -> double.

(** [CrystalLattice::CrystalLattice( a, b, c, alpha, beta, gamma )]
    (lines 45-73).  Lines 74-86 fill the members that are left out
    (volume, reciprocal lattice, lattice system); the spec lists no
    error for the construction of a lattice. *)
Definition CrystalLattice_of_cell (a b c : double) (alpha beta gamma : Angle)
  : CrystalLattice :=
  let a_vector := mkVector3D a 0 0 in
  let b_vector := mkVector3D (b * cosine gamma) (b * sine gamma) 0 in
  let x := c * cosine beta in
  let y := (b * c * cosine alpha - v_x b_vector * x) / v_y b_vector in
  let z := sqrt (square c - square x - square y) in
  let c_vector := mkVector3D x y z in
  mkCrystalLattice a b c alpha beta gamma a_vector b_vector c_vector
    (mkMatrix3D (v_x a_vector) (v_x b_vector) (v_x c_vector)
                (v_y a_vector) (v_y b_vector) (v_y c_vector)
                (v_z a_vector) (v_z b_vector) (v_z c_vector)).

End Constructor.

Definition fractional_to_orthogonal (L : CrystalLattice) (input : Vector3D) : Vector3D :=
  Matrix3D_mul_vec (fractional_to_orthogonal_matrix_ L) input.

(** The state of the three nested [for] loops of [shortest_distance2]. *)
Record scan_state : Type := mkScan {
  difference_vector : Vector3D;
  shortest : double;
  shortest_distance_changed : bool
}.

(** The body of the innermost loop (lines 254-261). *)
Definition try_offset (L : CrystalLattice) (st : scan_state) (i j k : Z) : scan_state :=
  let new_difference_vector :=
    Vector3D_add (difference_vector st) (Vector3D_of_ints i j k) in
  let distance2 := norm2 (fractional_to_orthogonal L new_difference_vector) in
  if double_lt distance2 (shortest st)
  then mkScan new_difference_vector distance2 true
  else st.

(** [for ( int i( -1 ); i != 2; ++i )]. *)
Definition offsets : list Z := [-1; 0; 1]%Z.

(** One pass of the three nested loops (lines 248-264). *)
Definition scan (L : CrystalLattice) (st : scan_state) : scan_state :=
  fold_left (fun st_i i =>
    fold_left (fun st_j j =>
      fold_left (fun st_k k => try_offset L st_k i j k) offsets st_j)
      offsets st_i)
    offsets st.

(** The [do ... while ( shortest_distance_changed )] loop (lines 245-266). *)
Fixpoint descend (fuel : nat) (L : CrystalLattice) (d : Vector3D) (s : double)
  : option (double * Vector3D) :=
  match fuel with
  | O => None
  | S fuel' =>
      let st := scan L (mkScan d s false) in
      if shortest_distance_changed st
      then descend fuel' L (difference_vector st) (shortest st)
      else Some (shortest st, difference_vector st)
  end.

Section Distance.

(** [adjust_for_translations] is declared in a header that is not part
    of the sources; [sqrt] is the one of <cmath>. *)
Variable adjust_for_translations : Vector3D -> Vector3D.
Variable sqrt : double -> double.

(** [double CrystalLattice::shortest_distance2( lhs, rhs )]
    (lines 237-268). *)
Definition shortest_distance2 (fuel : nat) (L : CrystalLattice)
    (lhs rhs : Vector3D) : option double :=
  let difference_vector := adjust_for_translations (Vector3D_sub rhs lhs) in
  let shortest_distance2 := norm2 (fractional_to_orthogonal L difference_vector) in
  match descend fuel L difference_vector shortest_distance2 with
  | Some (shortest_distance2, _) => Some shortest_distance2
  | None => None
  end.

(** [double CrystalLattice::shortest_distance( lhs, rhs )]
    (lines 229-232). *)
Definition shortest_distance (fuel : nat) (L : CrystalLattice)
    (lhs rhs : Vector3D) : option double :=
  option_map sqrt (shortest_distance2 fuel L lhs rhs).

(** [void CrystalLattice::shortest_distance( lhs, rhs, output_distance,
    output_difference_vector )] (lines 274-306); the two outputs are
    returned as a pair. *)
Definition shortest_distance_and_vector (fuel : nat) (L : CrystalLattice)
    (lhs rhs : Vector3D) : option (double * Vector3D) :=
  let difference_vector := adjust_for_translations (Vector3D_sub rhs lhs) in
  let shortest_distance := norm2 (fractional_to_orthogonal L difference_vector) in
  match descend fuel L difference_vector shortest_distance with
  | Some (shortest_distance, difference_vector) =>
      Some (sqrt shortest_distance, difference_vector)
  | None => None
  end.

End Distance.

(** Modelled from the spec: [adjust_for_translations] reduces each
    fractional coordinate by an integer.  The spec names both the range
    from 0 to 1 ("conventionally reduced to [0,1) per axis") and the
    nearest integer ("reduce the fractional difference vector to its
    nearest-integer class"); both readings are given. *)
Definition adjust_for_translations_floor (v : Vector3D) : Vector3D :=
  mkVector3D (v_x v - of_int (Qfloor (v_x v)))
             (v_y v - of_int (Qfloor (v_y v)))
             (v_z v - of_int (Qfloor (v_z v))).

Definition nearest_integer (x : double) : Z := Qfloor (x + dbl 1 2).

Definition adjust_for_translations_nearest (v : Vector3D) : Vector3D :=
  mkVector3D (v_x v - of_int (nearest_integer (v_x v)))
             (v_y v - of_int (nearest_integer (v_y v)))
             (v_z v - of_int (nearest_integer (v_z v))).

(** The squared length of the translate of [rhs - lhs] by the integer
    vector [(i, j, k)]: what the minimum-image distance minimises. *)
Definition translate_distance2 (L : CrystalLattice) (lhs rhs : Vector3D)
    (i j k : Z) : double :=
  norm2 (fractional_to_orthogonal L
           (Vector3D_add (Vector3D_sub rhs lhs) (Vector3D_of_ints i j k))).

(** A monoclinic cell with a = 2, b = 5, c = 1, alpha = beta = 90 degrees
    and cos gamma = -4/5, sin gamma = 3/5 (gamma is about 143.13
    degrees). *)
Definition obtuse_gamma : Angle := mkAngle (dbl (-4) 5) (dbl 3 5).

Definition obtuse_cell : CrystalLattice :=
  mkCrystalLattice (dbl 2 1) (dbl 5 1) 1
                   angle_90_degrees angle_90_degrees obtuse_gamma
                   (mkVector3D (dbl 2 1) 0 0)
                   (mkVector3D (dbl (-4) 1) (dbl 3 1) 0)
                   (mkVector3D 0 0 1)
                   (mkMatrix3D (dbl 2 1) (dbl (-4) 1) 0
                               0 (dbl 3 1) 0
                               0 0 1).

(** ** SpaceGroup.cpp *)

(** Modelled from the spec: a symmetry operator (SymmetryOperator.h is
    absent) is a rotation and a translation; [SymmetryOperator()] is the
    identity. *)
Record SymmetryOperator : Type := mkSymmetryOperator {
  rotation : Matrix3D;
  translation : Vector3D
}.

Definition identity_operator : SymmetryOperator :=
  mkSymmetryOperator identity_matrix zero_vector.

(** The functions that SpaceGroup.cpp and CrystalStructure.cpp call and
    that are declared in headers outside the sources: the tolerance
    comparisons [nearly_equal] (one overload per type), the composition
    [a * b] of two operators, [invert], the image [op * v] of a position
    and [rotation_part_type]. *)
Class SymmetryLibrary : Type := {
  nearly_equal_double : double -> double -> bool;
  nearly_equal_Matrix3D : Matrix3D -> Matrix3D -> bool;
  nearly_equal_Vector3D : Vector3D -> Vector3D -> bool;
  nearly_equal_SymmetryOperator : SymmetryOperator -> SymmetryOperator -> bool;
  compose : SymmetryOperator -> SymmetryOperator -> SymmetryOperator;
  inverse : SymmetryOperator -> SymmetryOperator;
  image : SymmetryOperator -> Vector3D -> Vector3D;
  rotation_part_type : SymmetryOperator -> Z
}.

Record SpaceGroup : Type := mkSpaceGroup {
  symmetry_operators_ : list SymmetryOperator;
  name_ : string;
  representative_symmetry_operators_ : list SymmetryOperator;
  centring_vectors_ : list Vector3D;
  has_inversion_ : bool;
  has_inversion_at_origin_ : bool;
  position_of_inversion_ : Vector3D
}.

(** [for ( size_t i( 0 ); i != v.size(); ++i ) body( v[i] )] where the
    body may throw. *)
Fixpoint for_each {A : Type} (body : A -> result unit) (v : list A) : result unit :=
  match v with
  | [] => Return tt
  | a :: v' => do _ <- body a; for_each body v'
  end.

(** A loop that threads a state through a body that may throw. *)
Fixpoint fold_result {A S : Type} (body : S -> A -> result S) (v : list A) (s : S)
  : result S :=
  match v with
  | [] => Return s
  | a :: v' => do s' <- body s a; fold_result body v' s'
  end.

Section SpaceGroup.

Context `{SymmetryLibrary}.

(** The search loop with [break] of [check_if_closed] (lines 359-366)
    and of [remove_duplicate_symmetry_operators] (lines 140-147). *)
Fixpoint found_operator (op : SymmetryOperator) (v : list SymmetryOperator) : bool :=
  match v with
  | [] => false
  | op' :: v' =>
      if nearly_equal_SymmetryOperator op op' then true else found_operator op v'
  end.

(** [void check_if_closed( symmetry_operators )] (lines 351-373). *)
Definition check_if_closed (symmetry_operators : list SymmetryOperator) : result unit :=
  for_each (fun op_i =>
    for_each (fun op_j =>
      let result := compose op_i op_j in
      if found_operator result symmetry_operators
      then Return tt
      else Throw (runtime_error
        "check_if_closed( std::vector< SymmetryOperator > ): operator not found."))
      symmetry_operators)
    symmetry_operators.

(** The test of lines 57-58 and 62-63. *)
Definition is_identity (op : SymmetryOperator) : bool :=
  nearly_equal_Matrix3D (rotation op) identity_matrix
  && nearly_equal_Vector3D (translation op) zero_vector.

(** The state of the first loop of [decompose] (lines 240-260). *)
Record classification : Type := mkClassification {
  centring_vectors : list Vector3D;
  inversion_translation_vectors : list Vector3D;
  has_inversion : bool;
  nproper : nat;
  nimproper : nat
}.

(** The body of that loop; the text of the exception is the one of the
    source without the value of the determinant appended to it. *)
Definition classify (c : classification) (op : SymmetryOperator)
  : result classification :=
  let determinant := determinant (rotation op) in
  if nearly_equal_double determinant 1 then
    Return (mkClassification
      (if nearly_equal_Matrix3D (rotation op) identity_matrix
       then centring_vectors c ++ [translation op]
       else centring_vectors c)
      (inversion_translation_vectors c)
      (has_inversion c)
      (S (nproper c))
      (nimproper c))
  else if nearly_equal_double determinant (- 1) then
    if nearly_equal_Matrix3D (rotation op) (Matrix3D_diag (- 1))
    then Return (mkClassification
      (centring_vectors c)
      (inversion_translation_vectors c ++ [translation op])
      true
      (nproper c)
      (S (nimproper c)))
    else Return (mkClassification
      (centring_vectors c)
      (inversion_translation_vectors c)
      (has_inversion c)
      (nproper c)
      (S (nimproper c)))
  else Throw (runtime_error "SpaceGroup::decompose(): unexpected determinant").

(** The loop of lines 265-271: the flag and the centring vectors kept. *)
Definition remove_zero_vector (centring_vectors : list Vector3D)
  : bool * list Vector3D :=
  fold_left (fun '(identity_found, kept) v =>
               if nearly_equal_Vector3D v zero_vector
               then (true, kept)
               else (identity_found, kept ++ [v]))
    centring_vectors (false, []).

(** The loop of lines 278-287. *)
Definition smallest_inversion (vectors : list Vector3D) (position : Vector3D)
  : double * Vector3D :=
  fold_left (fun '(smallest_value, position_of_inversion) v =>
               let value := v_x v + v_y v + v_z v in
               if double_lt value smallest_value
               then (value, v)
               else (smallest_value, position_of_inversion))
    vectors (dbl 4 1, position).

(** The inner loop of lines 295-307. *)
Fixpoint found_rotation (op : SymmetryOperator)
    (representatives : list SymmetryOperator) : bool :=
  match representatives with
  | [] => false
  | r :: representatives' =>
      if nearly_equal_Matrix3D (rotation op) (rotation r) then true
      else if nearly_equal_Matrix3D (rotation op)
                (Matrix3D_scale (- 1) (rotation r)) then true
      else found_rotation op representatives'
  end.

(** The loop of lines 292-310. *)
Definition representatives (symmetry_operators : list SymmetryOperator)
  : list SymmetryOperator :=
  fold_left (fun representative_symmetry_operators op =>
               if found_rotation op representative_symmetry_operators
               then representative_symmetry_operators
               else representative_symmetry_operators ++ [op])
    symmetry_operators [].

(** [void SpaceGroup::decompose()] (lines 228-311).  With no proper
    identity rotation at all, [centring_vectors.size() - 1] wraps
    around and [reserve] throws [std::length_error]. *)
Definition decompose (G : SpaceGroup) : result SpaceGroup :=
  do c <- fold_result classify (symmetry_operators_ G)
            (mkClassification [] [] false 0 0);
  match centring_vectors c with
  | [] => Throw length_error
  | _ :: _ =>
      let '(identity_found, kept) := remove_zero_vector (centring_vectors c) in
      if negb identity_found
      then Throw (runtime_error "SpaceGroup::decompose(): identity not found.")
      else
        let '(smallest_value, position) :=
          smallest_inversion (inversion_translation_vectors c)
            (position_of_inversion_ G) in
        Return (mkSpaceGroup
          (symmetry_operators_ G)
          (name_ G)
          (representatives (symmetry_operators_ G))
          kept
          (has_inversion c)
          (has_inversion c && nearly_equal_double smallest_value 0)
          (if has_inversion c then position else position_of_inversion_ G))
  end.

(** [SpaceGroup::SpaceGroup()] (lines 38-43). *)
Definition SpaceGroup_default : result SpaceGroup :=
  do G <- decompose (mkSpaceGroup [identity_operator] "" [] [] false false zero_vector);
  Return (mkSpaceGroup (symmetry_operators_ G) "P1"
            (representative_symmetry_operators_ G) (centring_vectors_ G)
            (has_inversion_ G) (has_inversion_at_origin_ G)
            (position_of_inversion_ G)).

(** The index of the first identity at or after position [i] (the loop
    of lines 60-68, which starts at 1). *)
Fixpoint find_identity (v : list SymmetryOperator) (i : nat) : option nat :=
  match v with
  | [] => None
  | op :: v' => if is_identity op then Some i else find_identity v' (S i)
  end.

(** Lines 57-69: make the identity the first symmetry operator. *)
Definition identity_first (symmetry_operators : list SymmetryOperator)
  : result (list SymmetryOperator) :=
  match symmetry_operators with
  | [] => Throw undefined_behaviour
  | op_0 :: rest =>
      if is_identity op_0 then Return symmetry_operators
      else match find_identity rest 1 with
           | Some i =>
               match symmetry_operators !! i with
               | Some op_i =>
                   Return (<[0%nat := op_i]> (<[i := op_0]> symmetry_operators))
               | None => Throw undefined_behaviour
               end
           | None => Return symmetry_operators
           end
  end.

(** [SpaceGroup::SpaceGroup( symmetry_operators, name )] (lines 47-72). *)
Definition SpaceGroup_of_operators (symmetry_operators : list SymmetryOperator)
    (name : string) : result SpaceGroup :=
  do _ <- check_if_closed symmetry_operators;
  do symmetry_operators' <- identity_first symmetry_operators;
  do G <- decompose (mkSpaceGroup symmetry_operators' "" [] [] false false zero_vector);
  Return (mkSpaceGroup (symmetry_operators_ G) name
            (representative_symmetry_operators_ G) (centring_vectors_ G)
            (has_inversion_ G) (has_inversion_at_origin_ G)
            (position_of_inversion_ G)).

(** [G] with another operator list, before [decompose] runs again. *)
Definition set_symmetry_operators (G : SpaceGroup)
    (symmetry_operators : list SymmetryOperator) : SpaceGroup :=
  mkSpaceGroup symmetry_operators (name_ G)
    (representative_symmetry_operators_ G) (centring_vectors_ G)
    (has_inversion_ G) (has_inversion_at_origin_ G) (position_of_inversion_ G).

(** [void SpaceGroup::add_inversion_at_origin()] (lines 88-104). *)
Definition add_inversion_at_origin (G : SpaceGroup) : result SpaceGroup :=
  if has_inversion_at_origin_ G then Return G
  else
    let inversion := mkSymmetryOperator (Matrix3D_diag (- 1)) zero_vector in
    let symmetry_operators :=
      flat_map (fun op => [op; compose inversion op]) (symmetry_operators_ G) in
    decompose (set_symmetry_operators G symmetry_operators).

(** [void SpaceGroup::add_centring_vector( centring_vector )]
    (lines 108-111). *)
Definition add_centring_vector (G : SpaceGroup) (centring_vector : list Vector3D)
  : result SpaceGroup :=
  Throw (runtime_error "SpaceGroup::add_centring_vector(): not yet implemented.").

(** [void SpaceGroup::apply_similarity_transformation( symmetry_operator )]
    (lines 115-128). *)
Definition apply_similarity_transformation (G : SpaceGroup)
    (symmetry_operator : SymmetryOperator) : result SpaceGroup :=
  let new_symmetry_operators :=
    map (fun op => compose (compose symmetry_operator op) (inverse symmetry_operator))
      (symmetry_operators_ G) in
  decompose (set_symmetry_operators G new_symmetry_operators).

(** The loop of lines 137-150. *)
Definition without_duplicates (first : SymmetryOperator)
    (rest : list SymmetryOperator) : list SymmetryOperator :=
  fold_left (fun new_symmetry_operators op =>
               if found_operator op new_symmetry_operators
               then new_symmetry_operators
               else new_symmetry_operators ++ [op])
    rest [first].

(** [void SpaceGroup::remove_duplicate_symmetry_operators()]
    (lines 132-153). *)
Definition remove_duplicate_symmetry_operators (G : SpaceGroup) : result SpaceGroup :=
  match symmetry_operators_ G with
  | [] => Throw undefined_behaviour
  | op_0 :: rest =>
      decompose (set_symmetry_operators G (without_duplicates op_0 rest))
  end.

(** The tally of lines 196-206; [abs] is the one of <cstdlib> on [int]. *)
Record tally : Type := mkTally {
  sum_2 : nat; sum_3 : nat; sum_4 : nat; sum_6 : nat
}.

Definition count_rotation (t : tally) (op : SymmetryOperator) : tally :=
  match Z.abs (rotation_part_type op) with
  | 2%Z => mkTally (S (sum_2 t)) (sum_3 t) (sum_4 t) (sum_6 t)
  | 3%Z => mkTally (sum_2 t) (S (sum_3 t)) (sum_4 t) (sum_6 t)
  | 4%Z => mkTally (sum_2 t) (sum_3 t) (S (sum_4 t)) (sum_6 t)
  | 6%Z => mkTally (sum_2 t) (sum_3 t) (sum_4 t) (S (sum_6 t))
  | _ => t
  end.

(** [std::string SpaceGroup::crystal_system() const] (lines 188-220). *)
Definition crystal_system (G : SpaceGroup) : result string :=
  if Nat.eqb (length (representative_symmetry_operators_ G)) 1
  then Return "triclinic"%string
  else
    let t := fold_left count_rotation (representative_symmetry_operators_ G)
               (mkTally 0 0 0 0) in
    if Nat.eqb (sum_3 t) 8 then Return "cubic"%string
    else if Nat.eqb (sum_6 t) 2 then Return "hexagonal"%string
    else if Nat.eqb (sum_3 t) 2 then Return "trigonal"%string
    else if Nat.eqb (sum_4 t) 2 then Return "tetragonal"%string
    else if Nat.eqb (sum_2 t) 3 then Return "orthorhombic"%string
    else if Nat.eqb (sum_2 t) 1 then Return "monoclinic"%string
    else Throw (runtime_error
           "SpaceGroup::crystal_system(): we should never be here.").

(** [bool same_symmetry_operators( lhs, rhs )] (lines 327-347). *)
Definition same_symmetry_operators (lhs rhs : SpaceGroup) : bool :=
  if negb (Nat.eqb (length (symmetry_operators_ lhs))
                   (length (symmetry_operators_ rhs)))
  then false
  else forallb (fun op => found_operator op (symmetry_operators_ rhs))
         (symmetry_operators_ lhs).

End SpaceGroup.

(** ** CrystalStructure.cpp *)

(** The functions and types that CrystalStructure.cpp takes from headers
    outside the sources: chemical elements, the sum of two angles and
    the division of an angle by a number, [sqrt],
    [adjust_for_translations] and [round_to_int]. *)
Class StructureLibrary : Type := {
  Element : Type;
  Element_eq : Element -> Element -> bool;
  Element_of_symbol : string -> Element;
  is_H_or_D : Element -> bool;
  Angle_add : Angle -> Angle -> Angle;
  Angle_div : Angle -> double -> Angle;
  sqrt : double -> double;
  adjust_for_translations : Vector3D -> Vector3D;
  round_to_int : double -> Z
}.

(** [std::abs] on doubles. *)
Definition double_abs (x : double) : double :=
  if double_lt x 0 then - x else x.

(** [double absolute_relative_difference( lhs, rhs )] (lines 1361-1364). *)
Definition absolute_relative_difference (lhs rhs : double) : double :=
  double_abs (lhs - rhs) / (dbl 1 2 * (lhs + rhs)).

Section CrystalStructure.

Context `{SymmetryLibrary} `{StructureLibrary}.

(** Modelled from the spec: an atom (Atom.h is absent) as the
    structure functions use it: element, fractional position, label. *)
Record Atom : Type := mkAtom {
  element : Element;
  position : Vector3D;
  label : string
}.

(** The members of a [CrystalStructure] that the functions below
    read. *)
Record CrystalStructure : Type := mkCrystalStructure {
  crystal_lattice_ : CrystalLattice;
  space_group_ : SpaceGroup;
  atoms_ : list Atom
}.

(** [save_cif] writes a file with a [TextFileWriter], which is outside
    the sources; opening or writing the file may throw. *)
Variable save_cif : CrystalStructure -> string -> result unit.

Definition natoms (S : CrystalStructure) : nat := length (atoms_ S).

(** [Atom CrystalStructure::atom( const size_t i ) const]
    (lines 433-438). *)
Definition atom (S : CrystalStructure) (i : nat) : result Atom :=
  if Nat.leb (length (atoms_ S)) i
  then Throw (runtime_error "CrystalStructure::atom( size_t ): i >= atoms_.size()")
  else match atoms_ S !! i with
       | Some a => Return a
       | None => Throw undefined_behaviour
       end.

(** [Vector3D CrystalStructure::centre_of_mass() const] (lines 747-765),
    where [ignore_hydrogens] and [weigh_by_atomic_weight] are false. *)
Definition centre_of_mass (S : CrystalStructure) : result Vector3D :=
  match atoms_ S with
  | [] => Throw (runtime_error
      "CrystalStructure::centre_of_mass(): there are no atoms, centre of mass is undefined.")
  | _ :: _ =>
      let '(result, sum_of_weights) :=
        fold_left (fun '(result, sum_of_weights) a =>
                     let weight := 1 in
                     (Vector3D_add result (Vector3D_scale weight (position a)),
                      sum_of_weights + weight))
          (atoms_ S) (zero_vector, 0) in
      Return (Vector3D_div result sum_of_weights)
  end.

(** [v.length()]. *)
Definition Vector3D_length (v : Vector3D) : double := sqrt (norm2 v).

(** The displacement of lines 1348-1349 and 1488-1489: the mean of the
    Cartesian distances of two fractional positions in the two
    lattices. *)
Definition mean_displacement (lhs rhs : CrystalStructure) (p q : Vector3D) : double :=
  (Vector3D_length
     (Vector3D_sub (fractional_to_orthogonal (crystal_lattice_ lhs) p)
                   (fractional_to_orthogonal (crystal_lattice_ lhs) q))
   + Vector3D_length
     (Vector3D_sub (fractional_to_orthogonal (crystal_lattice_ rhs) p)
                   (fractional_to_orthogonal (crystal_lattice_ rhs) q)))
  / dbl 2 1.

(** [double root_mean_square_Cartesian_displacement( lhs, rhs )]
    (lines 1327-1357). *)
Definition root_mean_square_Cartesian_displacement (lhs rhs : CrystalStructure)
  : result double :=
  if negb (Nat.eqb (natoms lhs) (natoms rhs))
  then Throw (runtime_error
    "root_mean_square_Cartesian_displacement(): number of atoms is not the same.")
  else
    do state_result <-
      fold_result (fun '(result, nnon_H_atoms) i =>
        do lhs_atom <- atom lhs i;
        do rhs_atom <- atom rhs i;
        if (Element_eq (element lhs_atom) (Element_of_symbol "H")
            || Element_eq (element lhs_atom) (Element_of_symbol "D"))
           && (Element_eq (element rhs_atom) (Element_of_symbol "H")
               || Element_eq (element rhs_atom) (Element_of_symbol "D"))
        then Return (result, nnon_H_atoms)
        else if negb (Element_eq (element lhs_atom) (element rhs_atom))
        then Throw (runtime_error
          "root_mean_square_Cartesian_displacement(): elements are not the same.")
        else
          let occupancy := 1 in
          let displacement :=
            mean_displacement lhs rhs (position lhs_atom) (position rhs_atom) in
          Return (result + occupancy * square displacement,
                  nnon_H_atoms + occupancy))
        (seq 0 (natoms lhs)) (0, 0);
    let '(result, nnon_H_atoms) := state_result in
    if nearly_equal_double nnon_H_atoms 0
    then Return 0
    else Return (sqrt (result / nnon_H_atoms)).

(** The lattice of the mean cell parameters (lines 1378-1383 and
    1511-1516). *)
Definition average_lattice (lhs_lattice rhs_lattice : CrystalLattice) : CrystalLattice :=
  CrystalLattice_of_cell sqrt
    ((a_ lhs_lattice + a_ rhs_lattice) / dbl 2 1)
    ((b_ lhs_lattice + b_ rhs_lattice) / dbl 2 1)
    ((c_ lhs_lattice + c_ rhs_lattice) / dbl 2 1)
    (Angle_div (Angle_add (alpha_ lhs_lattice) (alpha_ rhs_lattice)) (dbl 2 1))
    (Angle_div (Angle_add (beta_ lhs_lattice) (beta_ rhs_lattice)) (dbl 2 1))
    (Angle_div (Angle_add (gamma_ lhs_lattice) (gamma_ rhs_lattice)) (dbl 2 1)).

(** The best match found so far for one atom (lines 1425-1429 and
    1585-1589). *)
Record best : Type := mkBest {
  smallest_distance : double;
  best_match : Vector3D;
  best_symmetry_operator : nat;
  best_shift : nat;
  matching_index : nat
}.

(** The search of lines 1431-1458 and 1591-1618 for the atom
    [lhs_atom]: over the atoms of [rhs] of the same element, the
    symmetry operators and the shifts. *)
Definition closest_match (fuel : nat) (average_lattice : CrystalLattice)
    (space_group : SpaceGroup) (shifts : list Vector3D)
    (rhs : CrystalStructure) (lhs_atom : Atom) (start : best) : result best :=
  fold_result (fun best_j j =>
    do rhs_atom <- atom rhs j;
    if negb (Element_eq (element lhs_atom) (element rhs_atom))
    then Return best_j
    else
      fold_result (fun best_k '(k, op) =>
        fold_result (fun best_m '(m, shift) =>
          let current_position :=
            image op (Vector3D_add (position rhs_atom) shift) in
          match shortest_distance_and_vector adjust_for_translations sqrt fuel
                  average_lattice (position lhs_atom) current_position with
          | None => Throw out_of_fuel
          | Some (shortest_distance, difference_vector) =>
              if double_lt shortest_distance (smallest_distance best_m)
              then Return (mkBest shortest_distance
                             (Vector3D_add (position lhs_atom) difference_vector)
                             k m j)
              else Return best_m
          end)
          (imap (fun m shift => (m, shift)) shifts) best_k)
        (imap (fun k op => (k, op)) (symmetry_operators_ space_group)) best_j)
    (seq 0 (natoms rhs)) start.

(** [double RMSCD_with_matching( lhs, rhs, add_shifts )]
    (lines 1368-1497). *)
Definition RMSCD_with_matching (fuel : nat) (lhs rhs : CrystalStructure)
    (add_shifts : bool) : result double :=
  let natoms_rhs := natoms rhs in
  if negb (Nat.eqb natoms_rhs (natoms lhs))
  then Throw (runtime_error "RMSCD_with_matching(): numbers of atoms are not the same.")
  else if Nat.eqb natoms_rhs 0 then Return 0
  else
    let average_lattice :=
      average_lattice (crystal_lattice_ lhs) (crystal_lattice_ rhs) in
    let space_group := space_group_ rhs in
    let shifts :=
      mkVector3D 0 0 0 ::
      (if add_shifts
       then [mkVector3D (dbl 1 2) 0 0; mkVector3D (dbl 1 2) (dbl 1 2) 0;
             mkVector3D (dbl 1 2) 0 (dbl 1 2); mkVector3D 0 (dbl 1 2) 0;
             mkVector3D 0 (dbl 1 2) (dbl 1 2); mkVector3D 0 0 (dbl 1 2);
             mkVector3D (dbl 1 2) (dbl 1 2) (dbl 1 2)]
       else []) in
    do state_done <-
      fold_result (fun '(done, best_matches) i =>
        do lhs_atom <- atom lhs i;
        do found <- closest_match fuel average_lattice space_group shifts rhs
                      lhs_atom (mkBest (dbl 10000 1) zero_vector 0 0 (natoms_rhs + 1));
        match done !! matching_index found with
        | None => Throw undefined_behaviour
        | Some is_done =>
            if is_done && negb (is_H_or_D (element lhs_atom))
            then Throw (runtime_error "RMSCD_with_matching(): an atom has two matches.")
            else Return (<[matching_index found := true]> done,
                         best_matches ++ [best_match found])
        end)
        (seq 0 natoms_rhs) (replicate natoms_rhs false, []);
    let '(done, best_matches) := state_done in
    do reordered_atoms <-
      fold_result (fun atoms i =>
        do lhs_atom <- atom lhs i;
        match best_matches !! i with
        | None => Throw undefined_behaviour
        | Some best_match =>
            Return (atoms ++ [mkAtom (element lhs_atom) best_match (label lhs_atom)])
        end)
        (seq 0 natoms_rhs) [];
    do _ <- save_cif (mkCrystalStructure (crystal_lattice_ rhs) (space_group_ rhs)
                        reordered_atoms)
              "C:\\Data_Win\\reordered.cif";
    do state_result <-
      fold_result (fun '(result, nnon_H_atoms) i =>
        do lhs_atom <- atom lhs i;
        if is_H_or_D (element lhs_atom)
        then Return (result, nnon_H_atoms)
        else match best_matches !! i with
             | None => Throw undefined_behaviour
             | Some best_match =>
                 let displacement :=
                   mean_displacement lhs rhs (position lhs_atom) best_match in
                 Return (result + square displacement, S nnon_H_atoms)
             end)
        (seq 0 (natoms lhs)) (0, 0%nat);
    let '(result, nnon_H_atoms) := state_result in
    if Nat.eqb nnon_H_atoms 0
    then Return 0
    else Return (sqrt (result / of_int (Z.of_nat nnon_H_atoms))).

(** The first index with the largest count, or the size of the vector
    when every count is zero (lines 1632-1641 and 1651-1660). *)
Definition most_common (frequencies : list nat) : nat * nat :=
  fold_left (fun '(most_common_index, most_common_frequency) '(i, frequency) =>
               if Nat.ltb most_common_frequency frequency
               then (i, frequency)
               else (most_common_index, most_common_frequency))
    (imap (fun i frequency => (i, frequency)) frequencies)
    (length frequencies, 0%nat).

(** [++frequencies[i]]. *)
Definition increment (frequencies : list nat) (i : nat) : result (list nat) :=
  match frequencies !! i with
  | None => Throw undefined_behaviour
  | Some n => Return (<[i := S n]> frequencies)
  end.

(** Lines 1541-1557. *)
Definition floating_axes (lhs rhs : CrystalStructure) (space_group : SpaceGroup)
    (correct_floating_axes : bool) : result Vector3D :=
  let floating_axes_correction := zero_vector in
  if correct_floating_axes then
    let sum := fold_left (fun sum op => Matrix3D_add sum (rotation op))
                 (symmetry_operators_ space_group) (Matrix3D_diag 0) in
    do com_lhs <- centre_of_mass lhs;
    do com_rhs <- centre_of_mass rhs;
    Return (fold_left (fun floating_axes_correction i =>
              if negb (nearly_equal_double (Matrix3D_diagonal_value sum i) 0)
              then Vector3D_set_value floating_axes_correction i
                     (Vector3D_value com_lhs i - Vector3D_value com_rhs i)
              else floating_axes_correction)
            (seq 0 3) floating_axes_correction)
  else Return floating_axes_correction.

(** Lines 1561-1577. *)
Definition shifts_of (shift_steps : nat) (floating_axes_correction : Vector3D)
  : list Vector3D :=
  if Nat.eqb shift_steps 0 || Nat.eqb shift_steps 1
  then [floating_axes_correction]
  else
    let steps := of_int (Z.of_nat shift_steps) in
    flat_map (fun i1 => flat_map (fun i2 => map (fun i3 =>
      Vector3D_add floating_axes_correction
        (mkVector3D (of_int (Z.of_nat i1) / steps)
                    (of_int (Z.of_nat i2) / steps)
                    (of_int (Z.of_nat i3) / steps)))
      (seq 0 shift_steps)) (seq 0 shift_steps)) (seq 0 shift_steps).

(** [SymmetryOperator find_match( lhs, rhs, shift_steps, integer_shifts,
    add_inversion, correct_floating_axes )] (lines 1503-1687).  The
    vector [integer_shifts] is passed by reference: the function
    returns its operator and the vector as it leaves it. *)
Definition find_match (fuel : nat) (lhs rhs : CrystalStructure)
    (shift_steps : nat) (integer_shifts : list Z)
    (add_inversion correct_floating_axes : bool)
  : result (SymmetryOperator * list Z) :=
  let natoms_rhs := natoms rhs in
  if negb (Nat.eqb natoms_rhs (natoms lhs))
  then Throw (runtime_error "find_match(): numbers of atoms are not the same.")
  else
    let average_lattice :=
      average_lattice (crystal_lattice_ lhs) (crystal_lattice_ rhs) in
    if Nat.eqb natoms_rhs 0 then Return (identity_operator, integer_shifts)
    else
      let space_group := space_group_ rhs in
      do floating_axes_correction <-
        floating_axes lhs rhs space_group correct_floating_axes;
      do space_group <-
        (if add_inversion && negb (has_inversion_at_origin_ space_group)
         then add_inversion_at_origin space_group
         else Return space_group);
      let shifts := shifts_of shift_steps floating_axes_correction in
      do state_done <-
        fold_result (fun '(done, symmetry_operators_frequencies, shifts_frequencies) i =>
          do lhs_atom <- atom lhs i;
          if is_H_or_D (element lhs_atom)
          then Return (done, symmetry_operators_frequencies, shifts_frequencies)
          else
            do found <- closest_match fuel average_lattice space_group shifts rhs
                          lhs_atom (mkBest (dbl 10000 1) zero_vector 0 0 (natoms_rhs + 1));
            match done !! matching_index found with
            | None => Throw undefined_behaviour
            | Some _ =>
                do symmetry_operators_frequencies <-
                  increment symmetry_operators_frequencies (best_symmetry_operator found);
                do shifts_frequencies <-
                  increment shifts_frequencies (best_shift found);
                Return (<[matching_index found := true]> done,
                        symmetry_operators_frequencies, shifts_frequencies)
            end)
          (seq 0 natoms_rhs)
          (replicate natoms_rhs false,
           replicate (length (symmetry_operators_ space_group)) 0%nat,
           replicate (length shifts) 0%nat);
      let '(done, symmetry_operators_frequencies, shifts_frequencies) := state_done in
      let most_common_space_group_index := (most_common symmetry_operators_frequencies).1 in
      let most_common_shift_index := (most_common shifts_frequencies).1 in
      match symmetry_operators_ space_group !! most_common_space_group_index,
            shifts !! most_common_shift_index with
      | Some op, Some shift =>
          let result :=
            mkSymmetryOperator (rotation op)
              (Vector3D_add (Matrix3D_mul_vec (rotation op) shift) (translation op)) in
          do com_lhs <- centre_of_mass lhs;
          do com_rhs <- centre_of_mass rhs;
          let integer_shifts_2 := Vector3D_sub com_lhs (image result com_rhs) in
          Return (result,
                  [round_to_int (v_x integer_shifts_2);
                   round_to_int (v_y integer_shifts_2);
                   round_to_int (v_z integer_shifts_2)])
      | _, _ => Throw undefined_behaviour
      end.

End CrystalStructure.

(* ================================================================== *)
(** * The other functions of the three files *)

(** ** CrystalLattice.cpp: the box, the metric and the lattice system *)

(** [std::min( a, b )] and [std::max( a, b )] of <algorithm>: [b] when it
    is strictly smaller (strictly larger) than [a], else [a]. *)
Definition double_min (a b : double) : double := if double_lt b a then b else a.

Definition double_max (a b : double) : double := if double_lt a b then b else a.

(** [Matrix3D CrystalLattice::metric_matrix() const] (lines 91-96). *)
Definition metric_matrix (L : CrystalLattice) : Matrix3D :=
  mkMatrix3D
    (a_ L * a_ L) (a_ L * b_ L * cosine (gamma_ L)) (a_ L * c_ L * cosine (beta_ L))
    (a_ L * b_ L * cosine (gamma_ L)) (b_ L * b_ L) (b_ L * c_ L * cosine (alpha_ L))
    (a_ L * c_ L * cosine (beta_ L)) (b_ L * c_ L * cosine (alpha_ L)) (c_ L * c_ L).

(** One block of [enclosing_box] (lines 113-119, and six more times up
    to line 167): the box grown to hold [current_point]. *)
Definition enclose (box : Vector3D * Vector3D) (current_point : Vector3D)
  : Vector3D * Vector3D :=
  let min_min_min := box.1 in
  let max_max_max := box.2 in
  (mkVector3D (double_min (v_x min_min_min) (v_x current_point))
              (double_min (v_y min_min_min) (v_y current_point))
              (double_min (v_z min_min_min) (v_z current_point)),
   mkVector3D (double_max (v_x max_max_max) (v_x current_point))
              (double_max (v_y max_max_max) (v_y current_point))
              (double_max (v_z max_max_max) (v_z current_point))).

(** [void CrystalLattice::enclosing_box( min_min_min, max_max_max ) const]
    (lines 100-169); the two outputs are returned as a pair. *)
Definition enclosing_box (L : CrystalLattice) : Vector3D * Vector3D :=
  let box := (zero_vector, zero_vector) in
  let box := enclose box (c_vector_ L) in
  let box := enclose box (b_vector_ L) in
  let box := enclose box (Vector3D_add (b_vector_ L) (c_vector_ L)) in
  let box := enclose box (a_vector_ L) in
  let box := enclose box (Vector3D_add (a_vector_ L) (c_vector_ L)) in
  let box := enclose box (Vector3D_add (a_vector_ L) (b_vector_ L)) in
  enclose box (Vector3D_add (Vector3D_add (a_vector_ L) (b_vector_ L)) (c_vector_ L)).

Section CASTEP.

Variable sqrt : double -> double.

(** [Matrix3D CrystalLattice::for_CASTEP() const] (lines 173-197): the
    cell with c along z and b in the yz plane, one basis vector per
    row. *)
Definition for_CASTEP (L : CrystalLattice) : Matrix3D :=
  let c_vector := mkVector3D 0 0 (c_ L) in
  let b_vector :=
    mkVector3D 0 (b_ L * sine (alpha_ L)) (b_ L * cosine (alpha_ L)) in
  let z := a_ L * cosine (beta_ L) in
  let y := (b_ L * a_ L * cosine (gamma_ L) - v_z b_vector * z) / v_y b_vector in
  let x := sqrt (square (a_ L) - square z - square y) in
  let a_vector := mkVector3D x y z in
  mkMatrix3D (v_x a_vector) (v_y a_vector) (v_z a_vector)
             (v_x b_vector) (v_y b_vector) (v_z b_vector)
             (v_x c_vector) (v_y c_vector) (v_z c_vector).

End CASTEP.

Section Reciprocal.

(** [Matrix3D::invert] is declared in a header that is not part of the
    sources. *)
Variable invert : Matrix3D -> Matrix3D.

(** The member [orthogonal_to_fractional_matrix_], which only the
    constructor writes (lines 75-76): the inverse of
    [fractional_to_orthogonal_matrix_]. *)
Definition orthogonal_to_fractional_matrix (L : CrystalLattice) : Matrix3D :=
  invert (fractional_to_orthogonal_matrix_ L).

(** [Vector3D CrystalLattice::orthogonal_to_fractional( input ) const]
    (lines 201-204). *)
Definition orthogonal_to_fractional (L : CrystalLattice) (input : Vector3D) : Vector3D :=
  Matrix3D_mul_vec (orthogonal_to_fractional_matrix L) input.

End Reciprocal.

(** [enum LatticeSystem] of CrystalLattice.h, as line 353 lists it. *)
Inductive LatticeSystem : Type :=
| TRICLINIC
| MONOCLINIC
| ORTHORHOMBIC
| TRIGONAL
| TETRAGONAL
| HEXAGONAL
| RHOMBOHEDRAL
| CUBIC.

Section LatticeSystem.

Context `{SymmetryLibrary}.

(** [nearly_equal] on two angles and [Angle::angle_120_degrees()] are
    declared in headers that are not part of the sources. *)
Variable nearly_equal_Angle : Angle -> Angle -> bool.
Variable angle_120_degrees : Angle.

(** [CrystalLattice::LatticeSystem deduce_lattice_system( crystal_lattice )]
    (lines 348-380). *)
Definition deduce_lattice_system (crystal_lattice : CrystalLattice) : LatticeSystem :=
  let angles_equal :=
    nearly_equal_Angle (alpha_ crystal_lattice) (beta_ crystal_lattice)
    && nearly_equal_Angle (alpha_ crystal_lattice) (gamma_ crystal_lattice) in
  let ab_equal := nearly_equal_double (a_ crystal_lattice) (b_ crystal_lattice) in
  let alpha_is_90 := nearly_equal_Angle (alpha_ crystal_lattice) angle_90_degrees in
  let otherwise :=
    let beta_is_90 := nearly_equal_Angle (beta_ crystal_lattice) angle_90_degrees in
    if ab_equal && alpha_is_90 && beta_is_90
       && nearly_equal_Angle (gamma_ crystal_lattice) angle_120_degrees
    then HEXAGONAL
    else
      let gamma_is_90 := nearly_equal_Angle (gamma_ crystal_lattice) angle_90_degrees in
      if (alpha_is_90 && beta_is_90) || (alpha_is_90 && gamma_is_90)
         || (beta_is_90 && gamma_is_90)
      then MONOCLINIC
      else TRICLINIC in
  if angles_equal then
    if alpha_is_90 then
      if ab_equal then
        if nearly_equal_double (a_ crystal_lattice) (c_ crystal_lattice)
        then CUBIC
        else TETRAGONAL
      else ORTHORHOMBIC
    else if ab_equal && nearly_equal_double (a_ crystal_lattice) (c_ crystal_lattice)
    then RHOMBOHEDRAL
    else otherwise
  else otherwise.

End LatticeSystem.

(** [std::string LatticeSystem2string( lattice_system )] (lines 384-397). *)
Definition LatticeSystem2string (lattice_system : LatticeSystem) : string :=
  match lattice_system with
  | TRICLINIC => "Triclinic"
  | MONOCLINIC => "Monoclinic"
  | ORTHORHOMBIC => "Orthorhombic"
  | TRIGONAL => "Trigonal"
  | TETRAGONAL => "Tetragonal"
  | HEXAGONAL => "Hexagonal"
  | RHOMBOHEDRAL => "Rhombohedral"
  | CUBIC => "Cubic"
  end.

(** [Matrix3D CrystalLattice::Downs_D() const] (lines 401-406) and
    [Matrix3D CrystalLattice::Downs_G() const] (lines 417-422). *)
Definition Downs_D (L : CrystalLattice) : Matrix3D :=
  mkMatrix3D (v_x (a_vector_ L)) (v_x (b_vector_ L)) (v_x (c_vector_ L))
             (v_y (a_vector_ L)) (v_y (b_vector_ L)) (v_y (c_vector_ L))
             (v_z (a_vector_ L)) (v_z (b_vector_ L)) (v_z (c_vector_ L)).

Definition Downs_G (L : CrystalLattice) : Matrix3D :=
  mkMatrix3D
    (a_ L * a_ L) (a_ L * b_ L * cosine (gamma_ L)) (a_ L * c_ L * cosine (beta_ L))
    (a_ L * b_ L * cosine (gamma_ L)) (b_ L * b_ L) (b_ L * c_ L * cosine (alpha_ L))
    (a_ L * c_ L * cosine (beta_ L)) (b_ L * c_ L * cosine (alpha_ L)) (c_ L * c_ L).

(** ** CrystalStructure.cpp: atoms, labels and distances *)

Section Structure.

Context `{SymmetryLibrary} `{StructureLibrary}.

(** [Element::symbol()] and [size_t2string] are declared in headers that
    are not part of the sources. *)
Variable symbol : Element -> string.
Variable size_t2string : nat -> string.

(** [void CrystalStructure::set_atom( i, atom )] (lines 453-457):
    [atoms_[i] = atom], with no check of [i]; [basic_checks]
    (lines 461-464) has an empty body. *)
Definition set_atom (S : CrystalStructure) (i : nat) (new_atom : Atom)
  : result CrystalStructure :=
  if Nat.leb (length (atoms_ S)) i
  then Throw undefined_behaviour
  else Return (mkCrystalStructure (crystal_lattice_ S) (space_group_ S)
                 (<[i := new_atom]> (atoms_ S))).

(** The search of lines 470-474 and of lines 482-486: the index of the
    first atom with the label, counted from [i]. *)
Fixpoint first_with_label (atoms : list Atom) (wanted : string) (i : nat)
  : option nat :=
  match atoms with
  | [] => None
  | a :: atoms' =>
      if String.eqb (label a) wanted then Some i
      else first_with_label atoms' wanted (S i)
  end.

(** [size_t CrystalStructure::find_label( label ) const]
    (lines 468-476). *)
Definition find_label (S : CrystalStructure) (wanted : string) : nat :=
  match first_with_label (atoms_ S) wanted 0 with
  | Some i => i
  | None => natoms S
  end.

(** [size_t CrystalStructure::atom( atom_label ) const] (lines 480-488),
    the overload of [atom] that takes a label. *)
Definition atom_of_label (S : CrystalStructure) (atom_label : string) : result nat :=
  match first_with_label (atoms_ S) atom_label 0 with
  | Some i => Return i
  | None =>
      Throw (runtime_error
        (String.append "CrystalStructure::atom( const std::string & label ): label >"
           (String.append atom_label "< not found.")))
  end.

(** [void CrystalStructure::make_atom_labels_unique()] (lines 492-496). *)
Definition make_atom_labels_unique (S : CrystalStructure) : CrystalStructure :=
  mkCrystalStructure (crystal_lattice_ S) (space_group_ S)
    (imap (fun i a =>
             mkAtom (element a) (position a)
               (String.append (symbol (element a)) (size_t2string i)))
       (atoms_ S)).


(** [double CrystalStructure::shortest_distance2( lhs, rhs )]
    (lines 885-899).  The loop over the symmetry operators starts at
    index 1: with no operator at all its counter starts past the end,
    and [symmetry_operator] is called out of range. *)
Definition CrystalStructure_shortest_distance2 (fuel : nat) (S : CrystalStructure)
    (lhs rhs : Vector3D) : result double :=
  match shortest_distance2 adjust_for_translations fuel (crystal_lattice_ S) lhs rhs with
  | None => Throw out_of_fuel
  | Some shortest_distance2_0 =>
      match symmetry_operators_ (space_group_ S) with
      | [] => Throw undefined_behaviour
      | _ :: symmetry_operators =>
          fold_result (fun shortest op =>
            let current_position := image op rhs in
            match shortest_distance2 adjust_for_translations fuel (crystal_lattice_ S)
                    lhs current_position with
            | None => Throw out_of_fuel
            | Some distance2 =>
                Return (if double_lt distance2 shortest then distance2 else shortest)
            end)
            symmetry_operators shortest_distance2_0
      end
  end.

(** The inner loop of [reduce_to_asymmetric_unit] (lines 519-527) for
    the atom [i]: the later atoms of the same element that are closer
    to it than 0.001 are marked. *)
Definition mark_duplicates (fuel : nat) (S : CrystalStructure) (i : nat)
    (is_duplicate : list bool) : result (list bool) :=
  fold_result (fun is_duplicate j =>
    match is_duplicate !! j with
    | None => Throw undefined_behaviour
    | Some true => Return is_duplicate
    | Some false =>
        do atom_i <- atom S i;
        do atom_j <- atom S j;
        if negb (Element_eq (element atom_i) (element atom_j))
        then Return is_duplicate
        else
          do distance2 <- CrystalStructure_shortest_distance2 fuel S
                            (position atom_i) (position atom_j);
          if double_lt distance2 (square (dbl 1 1000))
          then Return (<[j := true]> is_duplicate)
          else Return is_duplicate
    end)
    (seq (i + 1) (natoms S - (i + 1))) is_duplicate.

(** [void CrystalStructure::reduce_to_asymmetric_unit()] (lines 511-532).
    The flag [space_group_symmetry_has_been_applied_], which the last
    line clears, is not among the members of [CrystalStructure] that
    are modelled. *)
Definition reduce_to_asymmetric_unit (fuel : nat) (S : CrystalStructure)
  : result CrystalStructure :=
  do state <-
    fold_result (fun '(is_duplicate, new_atoms) i =>
      match is_duplicate !! i with
      | None => Throw undefined_behaviour
      | Some true => Return (is_duplicate, new_atoms)
      | Some false =>
          do is_duplicate <- mark_duplicates fuel S i is_duplicate;
          do atom_i <- atom S i;
          Return (is_duplicate, new_atoms ++ [atom_i])
      end)
      (seq 0 (natoms S)) (replicate (natoms S) false, []);
  Return (mkCrystalStructure (crystal_lattice_ S) (space_group_ S) state.2).

End Structure.

(** ** An instance of the libraries

    The functions of the headers outside the sources as the spec
    describes them, to run the functions above on examples. *)

(** Modelled from the spec: [nearly_equal] (Utilities.h is absent)
    compares with a fixed tolerance, vectors, matrices and operators
    component by component. *)
Definition tolerance : double := dbl 1 1000000.

Definition nearly_equal (a b : double) : bool :=
  double_lt (double_abs (a - b)) tolerance.

Definition nearly_equal_vectors (u v : Vector3D) : bool :=
  nearly_equal (v_x u) (v_x v) && nearly_equal (v_y u) (v_y v)
  && nearly_equal (v_z u) (v_z v).

Definition nearly_equal_matrices (a b : Matrix3D) : bool :=
  nearly_equal (m00 a) (m00 b) && nearly_equal (m01 a) (m01 b)
  && nearly_equal (m02 a) (m02 b) && nearly_equal (m10 a) (m10 b)
  && nearly_equal (m11 a) (m11 b) && nearly_equal (m12 a) (m12 b)
  && nearly_equal (m20 a) (m20 b) && nearly_equal (m21 a) (m21 b)
  && nearly_equal (m22 a) (m22 b).

Definition nearly_equal_operators (a b : SymmetryOperator) : bool :=
  nearly_equal_matrices (rotation a) (rotation b)
  && nearly_equal_vectors (translation a) (translation b).

(** Modelled from the spec: the composition [a * b] of two operators
    (SymmetryOperator.h is absent) has the rotation
    [a.rotation * b.rotation] and the translation
    [a.rotation * b.translation + a.translation]. *)
Definition composition (a b : SymmetryOperator) : SymmetryOperator :=
  mkSymmetryOperator
    (Matrix3D_mul (rotation a) (rotation b))
    (Vector3D_add (Matrix3D_mul_vec (rotation a) (translation b)) (translation a)).

(** Modelled from the spec: the inverse of a matrix (3DCalculations.h is
    absent), and the inverse of an operator, with the rotation
    [rotation^-1] and the translation [- rotation^-1 * translation]. *)
Definition Matrix3D_inverse (a : Matrix3D) : Matrix3D :=
  Matrix3D_scale (/ determinant a)
    (mkMatrix3D
       (m11 a * m22 a - m12 a * m21 a) (m02 a * m21 a - m01 a * m22 a)
       (m01 a * m12 a - m02 a * m11 a)
       (m12 a * m20 a - m10 a * m22 a) (m00 a * m22 a - m02 a * m20 a)
       (m02 a * m10 a - m00 a * m12 a)
       (m10 a * m21 a - m11 a * m20 a) (m01 a * m20 a - m00 a * m21 a)
       (m00 a * m11 a - m01 a * m10 a)).

Definition inversion_of (a : SymmetryOperator) : SymmetryOperator :=
  let r := Matrix3D_inverse (rotation a) in
  mkSymmetryOperator r (Vector3D_scale (- 1) (Matrix3D_mul_vec r (translation a))).

(** Modelled from the spec: the image [op * v] of a position, the
    rotation applied to it followed by the translation. *)
Definition image_of (op : SymmetryOperator) (v : Vector3D) : Vector3D :=
  Vector3D_add (Matrix3D_mul_vec (rotation op) v) (translation op).

Definition rotation_type (op : SymmetryOperator) : Z :=
  let r := rotation op in
  let trace := nearest_integer (m00 r + m11 r + m22 r) in
  if double_lt 0 (determinant r) then
    match trace with
    | 3 => 1 | 2 => 6 | 1 => 4 | 0 => 3 | -1 => 2 | _ => 0
    end%Z
  else
    match trace with
    | -3 => -1 | -2 => -6 | -1 => -4 | 0 => -3 | 1 => -2 | _ => 0
    end%Z.

Definition example_symmetry : SymmetryLibrary := {|
  nearly_equal_double := nearly_equal;
  nearly_equal_Matrix3D := nearly_equal_matrices;
  nearly_equal_Vector3D := nearly_equal_vectors;
  nearly_equal_SymmetryOperator := nearly_equal_operators;
  compose := composition;
  inverse := inversion_of;
  image := image_of;
  rotation_part_type := rotation_type
|}.

(** The square root of <cmath> on the rationals that are squares, from
    the integer square roots of numerator and denominator. *)
Definition rational_sqrt (x : double) : double :=
  Q2Qc (Z.sqrt (Qnum (this x)) # Pos.sqrt (Qden (this x))).

(** Modelled from the spec: the sum of two angles (Angle.h is absent),
    by the addition formulas. *)
Definition angle_sum (a b : Angle) : Angle :=
  mkAngle (cosine a * cosine b - sine a * sine b)
          (sine a * cosine b + cosine a * sine b).

(** Modelled from the spec: an angle divided by [d] (Angle.h is absent)
    for [d = 2], the only divisor in the sources: the half angle. *)
Definition angle_half (a : Angle) (d : double) : Angle :=
  mkAngle (rational_sqrt ((1 + cosine a) / d)) (rational_sqrt ((1 - cosine a) / d)).

Definition example_structure : StructureLibrary := {|
  Element := string;
  Element_eq := String.eqb;
  Element_of_symbol := fun symbol => symbol;
  is_H_or_D := fun e => String.eqb e "H" || String.eqb e "D";
  Angle_add := angle_sum;
  Angle_div := angle_half;
  sqrt := rational_sqrt;
  adjust_for_translations := adjust_for_translations_floor;
  round_to_int := nearest_integer
|}.

(** The inversion at the origin and the twofold axis along b; the groups
    P1 and P2 as the constructor builds them. *)
Definition inversion_operator : SymmetryOperator :=
  mkSymmetryOperator (Matrix3D_diag (- 1)) zero_vector.

Definition twofold_operator : SymmetryOperator :=
  mkSymmetryOperator (mkMatrix3D (- 1) 0 0 0 1 0 0 0 (- 1)) zero_vector.

Definition group_P1 : SpaceGroup :=
  mkSpaceGroup [identity_operator] "P1" [identity_operator] [] false false zero_vector.

Definition group_P2 : SpaceGroup :=
  mkSpaceGroup [identity_operator; twofold_operator] "P2"
    [identity_operator; twofold_operator] [] false false zero_vector.

Definition cubic_cell : CrystalLattice :=
  mkCrystalLattice 1 1 1 angle_90_degrees angle_90_degrees angle_90_degrees
    (mkVector3D 1 0 0) (mkVector3D 0 1 0) (mkVector3D 0 0 1) identity_matrix.

Definition carbon (p : Vector3D) : @Atom example_structure :=
  @mkAtom example_structure "C"%string p "C1"%string.

Definition empty_structure : @CrystalStructure example_structure :=
  @mkCrystalStructure example_structure cubic_cell group_P1 [].

Definition one_atom_structure : @CrystalStructure example_structure :=
  @mkCrystalStructure example_structure cubic_cell group_P1 [carbon zero_vector].

Definition half_translation : SymmetryOperator :=
  mkSymmetryOperator identity_matrix (mkVector3D (dbl 1 2) 0 0).

Definition mirror_operator : SymmetryOperator :=
  mkSymmetryOperator (mkMatrix3D 1 0 0 0 (- 1) 0 0 0 1) zero_vector.

(** The operators of P2/m, before and after [decompose]. *)
Definition operators_P2m : list SymmetryOperator :=
  [identity_operator; inversion_operator; twofold_operator; mirror_operator].

Definition undecomposed_P2m : SpaceGroup :=
  mkSpaceGroup operators_P2m "P2/m" [] [] false false zero_vector.

Definition group_P2m : SpaceGroup :=
  mkSpaceGroup operators_P2m "P2/m" [identity_operator; twofold_operator] []
    true true zero_vector.

(** An operator within the tolerance of the identity, and a change of
    the unit of length along a. *)
Definition shear (e : double) : SymmetryOperator :=
  mkSymmetryOperator (mkMatrix3D 1 e 0 0 1 0 0 0 1) zero_vector.

Definition stretch : SymmetryOperator :=
  mkSymmetryOperator (mkMatrix3D (of_int 1000) 0 0 0 1 0 0 0 1) zero_vector.

Definition sheared_P1 : SpaceGroup :=
  mkSpaceGroup [shear (dbl 6 10000000); identity_operator] "P1"
    [shear (dbl 6 10000000)] [] false false zero_vector.

Definition doubly_sheared_P1 : SpaceGroup :=
  mkSpaceGroup
    [shear (dbl (-6) 10000000); shear (dbl 6 10000000); identity_operator] "P1"
    [shear (dbl (-6) 10000000); shear (dbl 6 10000000)] [] false false zero_vector.

(** A [save_cif] that writes its file without failing. *)
Definition save_cif_succeeds (S : @CrystalStructure example_structure) (file_name : string)
  : result unit := Return tt.

(** ** More examples *)

(** Modelled from the spec: [size_t2string] (Utilities.h is absent)
    writes a number in decimal. *)
Definition decimal (n : nat) : string :=
  DecimalString.NilEmpty.string_of_uint (Nat.to_uint n).

(** Structures of one atom in the cubic cell, and one of two carbon
    atoms with the same label. *)
Definition nitrogen (p : Vector3D) : @Atom example_structure :=
  @mkAtom example_structure "N"%string p "N1"%string.


Definition nitrogen_structure : @CrystalStructure example_structure :=
  @mkCrystalStructure example_structure cubic_cell group_P1 [nitrogen zero_vector].


Definition two_carbons : @CrystalStructure example_structure :=
  @mkCrystalStructure example_structure cubic_cell group_P1
    [carbon zero_vector; carbon (mkVector3D (dbl 1 2) 0 0)].

(** P2 with each operator twice, before [decompose]. *)
Definition doubled_P2 : SpaceGroup :=
  mkSpaceGroup
    [identity_operator; twofold_operator; identity_operator; twofold_operator]
    "P2" [] [] false false zero_vector.

(** ** Notions used in the statements *)

(** ** Doubles on a grid

    A double is on the grid [D] when it is an integer multiple of [1/D].
    Sums and products of grid numbers stay on a grid, and a strictly
    decreasing sequence of non-negative numbers of one grid is finite. *)

Definition on_grid (D : positive) (x : double) : Prop :=
  exists z : Z, x = Q2Qc (z # D).

Definition list_den (l : list double) : positive :=
  fold_right (fun x acc => (Qden (this x) * acc)%positive) 1%positive l.

Definition entries (m : Matrix3D) : list double :=
  [m00 m; m01 m; m02 m; m10 m; m11 m; m12 m; m20 m; m21 m; m22 m].

Definition coordinates (v : Vector3D) : list double := [v_x v; v_y v; v_z v].

Definition on_grid_vector (D : positive) (v : Vector3D) : Prop :=
  Forall (on_grid D) (coordinates v).

(** What one pass of the scan keeps true: the candidate stays a translate
    of the first one by integers, [shortest] is its squared length, and
    when the flag is set the squared length has gone down. *)
Record scan_invariant (L : CrystalLattice) (D : positive) (s0 : double)
    (st : scan_state) : Prop := {
  inv_grid : on_grid_vector D (difference_vector st);
  inv_shortest :
    shortest st = norm2 (fractional_to_orthogonal L (difference_vector st));
  inv_le : shortest st <= s0;
  inv_changed : shortest_distance_changed st = true -> shortest st < s0
}.

(** The 27 offsets in the order in which the three loops visit them. *)
Definition neighbours : list (Z * Z * Z) :=
  Eval cbv in
    flat_map (fun i => flat_map (fun j => map (fun k => (i, j, k)) offsets) offsets)
      offsets.

(** No translate by one of the 27 offsets is strictly shorter than [s]. *)
Definition local_minimum (L : CrystalLattice) (d : Vector3D) (s : double) : Prop :=
  forall i j k, In (i, j, k) neighbours ->
    ~ norm2 (fractional_to_orthogonal L
               (Vector3D_add d (Vector3D_of_ints i j k))) < s.

(** [adjust] moves a vector by integers. *)
Definition integer_shift (adjust : Vector3D -> Vector3D) : Prop :=
  forall v, exists i j k, adjust v = Vector3D_add v (Vector3D_of_ints i j k).


(** The three basis vectors lie along the Cartesian axes. *)
Definition orthogonal (L : CrystalLattice) : Prop :=
  let m := fractional_to_orthogonal_matrix_ L in
  m01 m = 0 /\ m02 m = 0 /\ m10 m = 0 /\ m12 m = 0 /\ m20 m = 0 /\ m21 m = 0.

(** [d] is a translate of [d0] by integers. *)
Definition translate_of (d0 d : Vector3D) : Prop :=
  exists i j k, d = Vector3D_add d0 (Vector3D_of_ints i j k).

Section Notions.

Context `{SymmetryLibrary}.

(** Closed under composition, up to the tolerance of [nearly_equal]. *)
Definition closed (v : list SymmetryOperator) : Prop :=
  forall a b, In a v -> In b v ->
    exists c, In c v /\ nearly_equal_SymmetryOperator (compose a b) c = true.

(** The operator at index 0 passes the identity test. *)
Definition first_is_identity (G : SpaceGroup) : Prop :=
  exists op, symmetry_operators_ G !! 0%nat = Some op /\ is_identity op = true.

(** The test of lines 297 and 302: the rotation of [op] is that of [r]
    or its negation. *)
Definition same_rotation (op r : SymmetryOperator) : bool :=
  nearly_equal_Matrix3D (rotation op) (rotation r)
  || nearly_equal_Matrix3D (rotation op) (Matrix3D_scale (- 1) (rotation r)).

(** [same_rotation] is reflexive, symmetric and transitive on the
    operators of [v]: they fall into classes of one rotation up to
    sign. *)
Definition rotation_classes (v : list SymmetryOperator) : bool :=
  forallb (fun a => same_rotation a a) v
  && forallb (fun a => forallb (fun b =>
       implb (same_rotation a b) (same_rotation b a)) v) v
  && forallb (fun a => forallb (fun b => forallb (fun c =>
       implb (same_rotation a b && same_rotation b c) (same_rotation a c)) v) v) v.

(** [r] is the first operator of [v] with its rotation up to sign. *)
Definition first_of_its_rotation (v : list SymmetryOperator)
    (r : SymmetryOperator) : Prop :=
  exists i, v !! i = Some r /\
    forall j op, (j < i)%nat -> v !! j = Some op -> same_rotation op r = false.

(** [op] has one representative in [reps], at one position only. *)
Definition one_representative (reps : list SymmetryOperator)
    (op : SymmetryOperator) : Prop :=
  exists k r, reps !! k = Some r /\ same_rotation op r = true /\
    forall k' r', reps !! k' = Some r' -> same_rotation op r' = true -> k' = k.

(** What the loop of lines 292-310 keeps true after the operators
    [pre], a prefix of [ops]. *)
Record representatives_invariant (pre reps : list SymmetryOperator) : Prop := {
  inv_sublist : sublist reps pre;
  inv_covered : forall op, In op pre ->
    exists r, In r reps /\ same_rotation op r = true;
  inv_distinct : forall i j r1 r2, (i < j)%nat ->
    reps !! i = Some r1 -> reps !! j = Some r2 ->
    same_rotation r2 r1 = false;
  inv_first : forall r, In r reps -> first_of_its_rotation pre r
}.

(** The number of operators of [v] whose rotation has the order [n],
    whatever its sign. *)
Definition count_order (n : Z) (v : list SymmetryOperator) : nat :=
  length (List.filter (fun op => Z.eqb (Z.abs (rotation_part_type op)) n) v).

End Notions.

(** ** Notions for the other functions *)

(** Modelled from the spec: the transpose of the numeric library. *)
Definition Matrix3D_transpose (a : Matrix3D) : Matrix3D :=
  mkMatrix3D (m00 a) (m10 a) (m20 a)
             (m01 a) (m11 a) (m21 a)
             (m02 a) (m12 a) (m22 a).

(** The point of the unit cell with the fractional coordinates
    [u], [v], [w], from the three basis vectors. *)
Definition cell_point (L : CrystalLattice) (u v w : double) : Vector3D :=
  Vector3D_add
    (Vector3D_add (Vector3D_scale u (a_vector_ L)) (Vector3D_scale v (b_vector_ L)))
    (Vector3D_scale w (c_vector_ L)).

(** The eight corners of the unit cell. *)
Definition corners (L : CrystalLattice) : list Vector3D :=
  [zero_vector;
   c_vector_ L;
   b_vector_ L;
   Vector3D_add (b_vector_ L) (c_vector_ L);
   a_vector_ L;
   Vector3D_add (a_vector_ L) (c_vector_ L);
   Vector3D_add (a_vector_ L) (b_vector_ L);
   Vector3D_add (Vector3D_add (a_vector_ L) (b_vector_ L)) (c_vector_ L)].

(** [p] lies between the two corners of the box, coordinate by
    coordinate. *)
Definition in_box (box : Vector3D * Vector3D) (p : Vector3D) : Prop :=
  (v_x box.1 <= v_x p /\ v_x p <= v_x box.2) /\
  (v_y box.1 <= v_y p /\ v_y p <= v_y box.2) /\
  (v_z box.1 <= v_z p /\ v_z p <= v_z box.2).

Section NotionsOfGroups.

Context `{SymmetryLibrary}.

(** The tests of the first loop of [decompose] (lines 242-259) on one
    operator: its determinant is nearly 1; its determinant is nearly 1
    or nearly -1; it is a pure translation (proper, with the identity
    as rotation); it is the identity; it is an inversion (not proper,
    determinant nearly -1, rotation nearly minus the identity). *)
Definition proper (op : SymmetryOperator) : bool :=
  nearly_equal_double (determinant (rotation op)) 1.

Definition expected_determinant (op : SymmetryOperator) : bool :=
  proper op || nearly_equal_double (determinant (rotation op)) (- 1).

Definition pure_translation (op : SymmetryOperator) : bool :=
  proper op && nearly_equal_Matrix3D (rotation op) identity_matrix.

Definition proper_identity (op : SymmetryOperator) : bool :=
  pure_translation op && nearly_equal_Vector3D (translation op) zero_vector.

Definition inversion_centre (op : SymmetryOperator) : bool :=
  negb (proper op)
  && nearly_equal_double (determinant (rotation op)) (- 1)
  && nearly_equal_Matrix3D (rotation op) (Matrix3D_diag (- 1)).

(** No operator of [v] is [nearly_equal] to an earlier one, in the
    order in which [remove_duplicate_symmetry_operators] compares. *)
Definition no_duplicates (v : list SymmetryOperator) : Prop :=
  forall i j a b, (i < j)%nat -> v !! i = Some a -> v !! j = Some b ->
    nearly_equal_SymmetryOperator b a = false.

End NotionsOfGroups.

(** [shortest_distance2] of [lhs] and [rhs] returns [d] with the fuel
    [n] and with any larger one. *)
Definition returns_from (adjust : Vector3D -> Vector3D) (L : CrystalLattice)
    (lhs : Vector3D) (n : nat) (rhs : Vector3D) (d : double) : Prop :=
  forall k, shortest_distance2 adjust (n + k) L lhs rhs = Some d.

(** A decimal digit, and a string whose characters all pass a test. *)
Definition is_digit (c : Ascii.ascii) : bool :=
  Nat.leb 48 (Ascii.nat_of_ascii c) && Nat.leb (Ascii.nat_of_ascii c) 57.

Fixpoint all_chars (p : Ascii.ascii -> bool) (s : string) : bool :=
  match s with
  | EmptyString => true
  | String c s' => p c && all_chars p s'
  end.

Section NotionsOfStructures.

Context `{SymmetryLibrary} `{StructureLibrary}.



End NotionsOfStructures.

(** Duplicates for [reduce_to_asymmetric_unit]. *)
Section NotionsOfReduction.

Context `{SymmetryLibrary} `{StructureLibrary}.

(** The test of lines 523-526 on the atoms [i] and [j]: the same element,
    and a distance that [shortest_distance2] returns and that is below
    0.001. *)
Definition is_duplicate_of (fuel : nat) (S : CrystalStructure) (i j : nat) : bool :=
  match atoms_ S !! i, atoms_ S !! j with
  | Some a, Some b =>
      Element_eq (element a) (element b)
      && match CrystalStructure_shortest_distance2 fuel S (position a) (position b) with
         | Return distance2 => double_lt distance2 (square (dbl 1 1000))
         | Throw _ => false
         end
  | _, _ => false
  end.

(** The atom [j] is a duplicate of one of the atoms [kept] before it. *)
Definition flagged (fuel : nat) (S : CrystalStructure) (kept : list nat) (j : nat)
  : bool :=
  existsb (fun i => (i <? j)%nat && is_duplicate_of fuel S i j) kept.

(** The same, from the fuel [n] on. *)
Definition duplicate_atoms (n : nat) (S : CrystalStructure) (i j : nat) : Prop :=
  exists a b d,
    atoms_ S !! i = Some a /\ atoms_ S !! j = Some b /\
    Element_eq (element a) (element b) = true /\
    (forall k, CrystalStructure_shortest_distance2 (n + k) S (position a) (position b)
               = Return d) /\
    d < square (dbl 1 1000).

End NotionsOfReduction.

(* ================================================================== *)
(** * Properties *)

Lemma Q2Qc_this (x : Qc) : Q2Qc (this x) = x.
Proof. apply Qc_is_canon. simpl. apply Qred_correct. Qed.

Lemma Q2Qc_plus (p q : Q) : Q2Qc p + Q2Qc q = Q2Qc (p + q)%Q.
Proof.
  apply Qc_is_canon. unfold Qcplus. simpl.
  rewrite !Qred_correct. reflexivity.
Qed.

Lemma Q2Qc_mult (p q : Q) : Q2Qc p * Q2Qc q = Q2Qc (p * q)%Q.
Proof.
  apply Qc_is_canon. unfold Qcmult. simpl.
  rewrite !Qred_correct. reflexivity.
Qed.

Lemma on_grid_den (x : double) : on_grid (Qden (this x)) x.
Proof.
  exists (Qnum (this x)).
  rewrite <- (Q2Qc_this x) at 1. f_equal. destruct (this x); reflexivity.
Qed.

Lemma on_grid_mult_r (D E : positive) (x : double) :
  on_grid D x -> on_grid (D * E) x.
Proof.
  intros [z ->]. exists (z * Zpos E)%Z.
  apply Q2Qc_eq_iff. unfold Qeq. simpl. lia.
Qed.

Lemma on_grid_mult_l (D E : positive) (x : double) :
  on_grid E x -> on_grid (D * E) x.
Proof. rewrite Pos.mul_comm. apply on_grid_mult_r. Qed.

Lemma on_grid_of_int (D : positive) (n : Z) : on_grid D (of_int n).
Proof.
  exists (n * Zpos D)%Z. apply Q2Qc_eq_iff. unfold Qeq. simpl. lia.
Qed.

Lemma on_grid_plus (D : positive) (x y : double) :
  on_grid D x -> on_grid D y -> on_grid D (x + y).
Proof.
  intros [a ->] [b ->]. exists (a + b)%Z.
  rewrite Q2Qc_plus. apply Q2Qc_eq_iff. unfold Qeq. simpl. nia.
Qed.

Lemma on_grid_mult (D E : positive) (x y : double) :
  on_grid D x -> on_grid E y -> on_grid (D * E) (x * y).
Proof.
  intros [a ->] [b ->]. exists (a * b)%Z.
  rewrite Q2Qc_mult. apply Q2Qc_eq_iff. unfold Qeq. simpl. nia.
Qed.

Lemma on_grid_lt (D : positive) (a b : Z) :
  Q2Qc (a # D) < Q2Qc (b # D) -> (a < b)%Z.
Proof.
  unfold Qclt. simpl. rewrite !Qred_correct. unfold Qlt. simpl. nia.
Qed.

Lemma on_grid_nonneg (D : positive) (a : Z) :
  0 <= Q2Qc (a # D) -> (0 <= a)%Z.
Proof.
  unfold Qcle. simpl. rewrite !Qred_correct. unfold Qle. simpl. nia.
Qed.

Lemma double_lt_spec (a b : double) : double_lt a b = true <-> a < b.
Proof.
  unfold double_lt. rewrite Qclt_alt.
  destruct (a ?= b); split; congruence.
Qed.

Lemma square_nonneg (x : double) : 0 <= x * x.
Proof.
  unfold Qcle. simpl. rewrite !Qred_correct.
  destruct (this x) as [n d]. unfold Qle. simpl. nia.
Qed.

Lemma norm2_nonneg (v : Vector3D) : 0 <= norm2 v.
Proof.
  unfold norm2.
  assert (H : forall a b : double, 0 <= a -> 0 <= b -> 0 <= a + b).
  { intros a b Ha Hb. rewrite <- (Qcplus_0_l 0). apply Qcplus_le_compat; trivial. }
  auto using square_nonneg.
Qed.

Lemma list_den_grid (l : list double) (x : double) :
  In x l -> on_grid (list_den l) x.
Proof.
  induction l as [| y l IH]; simpl; [tauto |].
  intros [-> | H].
  - apply on_grid_mult_r, on_grid_den.
  - apply on_grid_mult_l, IH, H.
Qed.

Lemma on_grid_vector_den (v : Vector3D) :
  on_grid_vector (list_den (coordinates v)) v.
Proof.
  apply List.Forall_forall. intros x Hx. apply list_den_grid, Hx.
Qed.

Lemma on_grid_vector_add (D : positive) (v : Vector3D) (i j k : Z) :
  on_grid_vector D v ->
  on_grid_vector D (Vector3D_add v (Vector3D_of_ints i j k)).
Proof.
  unfold on_grid_vector, coordinates. intros H.
  inversion_clear H as [| ? ? Hx H']. inversion_clear H' as [| ? ? Hy H''].
  inversion_clear H'' as [| ? ? Hz _].
  repeat constructor; simpl; apply on_grid_plus; auto using on_grid_of_int.
Qed.

Lemma on_grid_norm2 (L : CrystalLattice) (D : positive) (v : Vector3D) :
  let K := (list_den (entries (fractional_to_orthogonal_matrix_ L)) * D)%positive in
  on_grid_vector D v ->
  on_grid (K * K) (norm2 (fractional_to_orthogonal L v)).
Proof.
  intros K H. unfold on_grid_vector, coordinates in H.
  inversion_clear H as [| ? ? Hx H']. inversion_clear H' as [| ? ? Hy H''].
  inversion_clear H'' as [| ? ? Hz _].
  set (m := fractional_to_orthogonal_matrix_ L) in *.
  assert (Hm : forall e, In e (entries m) -> on_grid (list_den (entries m)) e)
    by (intros e; apply list_den_grid).
  assert (Hrow : forall p q r, In p (entries m) -> In q (entries m) ->
                   In r (entries m) ->
                   on_grid K (p * v_x v + q * v_y v + r * v_z v)).
  { intros p q r Hp Hq Hr. unfold K.
    repeat apply on_grid_plus; apply on_grid_mult; auto. }
  unfold norm2, fractional_to_orthogonal, Matrix3D_mul_vec. fold m. simpl.
  repeat apply on_grid_plus; apply on_grid_mult; apply Hrow;
    unfold entries; simpl; tauto.
Qed.

(** ** The neighbour scan *)

Lemma try_offset_invariant L D s0 st i j k :
  scan_invariant L D s0 st -> scan_invariant L D s0 (try_offset L st i j k).
Proof.
  intros [Hg Hs Hle Hch]. unfold try_offset.
  destruct (double_lt _ _) eqn:Hlt; [| split; assumption].
  apply double_lt_spec in Hlt.
  split; simpl.
  - apply on_grid_vector_add, Hg.
  - reflexivity.
  - apply Qclt_le_weak. eapply Qclt_le_trans; eassumption.
  - intros _. eapply Qclt_le_trans; eassumption.
Qed.

Lemma fold_left_invariant {A B : Type} (P : A -> Prop) (f : A -> B -> A)
    (l : list B) (a : A) :
  (forall a b, P a -> P (f a b)) -> P a -> P (fold_left f l a).
Proof.
  intros Hf. revert a. induction l as [| b l IH]; simpl; auto.
Qed.

Lemma scan_invariant_scan L D s0 st :
  scan_invariant L D s0 st -> scan_invariant L D s0 (scan L st).
Proof.
  unfold scan.
  apply fold_left_invariant. intros st_i i.
  apply fold_left_invariant. intros st_j j.
  apply fold_left_invariant. intros st_k k.
  apply try_offset_invariant.
Qed.

Lemma scan_invariant_start L D d :
  on_grid_vector D d ->
  scan_invariant L D (norm2 (fractional_to_orthogonal L d))
    (mkScan d (norm2 (fractional_to_orthogonal L d)) false).
Proof.
  intros H. split; simpl; auto using Qcle_refl. discriminate.
Qed.

(** ** Termination of the descent *)

Lemma descend_S fuel L d s :
  descend (S fuel) L d s =
  if shortest_distance_changed (scan L (mkScan d s false))
  then descend fuel L (difference_vector (scan L (mkScan d s false)))
         (shortest (scan L (mkScan d s false)))
  else Some (shortest (scan L (mkScan d s false)),
             difference_vector (scan L (mkScan d s false))).
Proof. reflexivity. Qed.

Lemma descend_terminates_aux (L : CrystalLattice) (D : positive) :
  let K := (list_den (entries (fractional_to_orthogonal_matrix_ L)) * D)%positive in
  forall (n : nat) (d : Vector3D) (z : Z),
    on_grid_vector D d ->
    norm2 (fractional_to_orthogonal L d) = Q2Qc (z # (K * K)) ->
    (z < Z.of_nat n)%Z ->
    exists r, forall fuel, (n <= fuel)%nat ->
      descend fuel L d (norm2 (fractional_to_orthogonal L d)) = Some r.
Proof.
  intros K n. induction n as [| n IH]; intros d z Hd Hz Hlt.
  - exfalso. pose proof (norm2_nonneg (fractional_to_orthogonal L d)) as H0.
    rewrite Hz in H0. apply on_grid_nonneg in H0. lia.
  - pose proof (scan_invariant_scan L D _ _ (scan_invariant_start L D d Hd))
      as [Hg Hs Hle Hch].
    destruct (shortest_distance_changed
                (scan L (mkScan d (norm2 (fractional_to_orthogonal L d)) false)))
      eqn:Hflag.
    + specialize (Hch eq_refl).
      destruct (on_grid_norm2 L D _ Hg) as [z' Hz']. fold K in Hz'.
      rewrite Hs, Hz', Hz in Hch. apply on_grid_lt in Hch.
      destruct (IH _ z' Hg Hz' ltac:(lia)) as [r Hr].
      exists r. intros [| fuel] Hfuel; [lia |].
      rewrite descend_S, Hflag, Hs. apply Hr. lia.
    + eexists. intros [| fuel] Hfuel; [lia |].
      rewrite descend_S, Hflag. reflexivity.
Qed.

Lemma descend_terminates (L : CrystalLattice) (d : Vector3D) :
  exists n r, forall fuel, (n <= fuel)%nat ->
    descend fuel L d (norm2 (fractional_to_orthogonal L d)) = Some r.
Proof.
  destruct (on_grid_norm2 L _ d (on_grid_vector_den d)) as [z Hz].
  destruct (descend_terminates_aux L _ (S (Z.to_nat z)) d z
              (on_grid_vector_den d) Hz ltac:(lia)) as [r Hr].
  eauto.
Qed.

(** ** The fixed point of the descent *)

Lemma scan_neighbours L st :
  scan L st =
  fold_left (fun st t => try_offset L st (t.1.1) (t.1.2) (t.2)) neighbours st.
Proof. unfold scan, neighbours, offsets. cbn [fold_left fst snd]. reflexivity. Qed.

Lemma try_offset_flag L st i j k :
  shortest_distance_changed (try_offset L st i j k) = false ->
  try_offset L st i j k = st /\
  ~ norm2 (fractional_to_orthogonal L
             (Vector3D_add (difference_vector st) (Vector3D_of_ints i j k)))
    < shortest st.
Proof.
  unfold try_offset. destruct (double_lt _ _) eqn:Hlt; simpl; [discriminate |].
  intros _. split; [reflexivity |].
  rewrite <- double_lt_spec, Hlt. discriminate.
Qed.

Lemma try_offset_flag_mono L st i j k :
  shortest_distance_changed st = true ->
  shortest_distance_changed (try_offset L st i j k) = true.
Proof.
  unfold try_offset. destruct (double_lt _ _); auto.
Qed.

Section FoldFlag.

Context {S T : Type} (flag : S -> bool) (step : S -> T -> S).
Hypothesis step_mono : forall s t, flag s = true -> flag (step s t) = true.
Hypothesis step_unchanged : forall s t, flag (step s t) = false -> step s t = s.

Lemma fold_flag_mono (l : list T) (s : S) :
  flag s = true -> flag (fold_left step l s) = true.
Proof.
  revert s. induction l as [| t l IH]; intros s H; simpl; auto.
Qed.

Lemma fold_flag_unchanged (l : list T) (s : S) :
  flag (fold_left step l s) = false ->
  fold_left step l s = s /\ forall t, In t l -> flag (step s t) = false.
Proof.
  revert s. induction l as [| t l IH]; intros s H; simpl in *.
  - split; [reflexivity | tauto].
  - destruct (flag (step s t)) eqn:Hflag.
    + rewrite (fold_flag_mono l _ Hflag) in H. discriminate.
    + rewrite (step_unchanged _ _ Hflag) in *.
      destruct (IH s H) as [Hfix Hrest]. split; [exact Hfix |].
      intros t' [<- | Hin]; auto.
Qed.

End FoldFlag.

Lemma scan_unchanged L st :
  shortest_distance_changed (scan L st) = false ->
  scan L st = st /\
  forall i j k, In (i, j, k) neighbours ->
    ~ norm2 (fractional_to_orthogonal L
               (Vector3D_add (difference_vector st) (Vector3D_of_ints i j k)))
      < shortest st.
Proof.
  rewrite scan_neighbours. intros H.
  apply (fold_flag_unchanged shortest_distance_changed
           (fun st t => try_offset L st (t.1.1) (t.1.2) (t.2))) in H.
  - destruct H as [Hfix Hrest]. split; [exact Hfix |].
    intros i j k Hin. apply (try_offset_flag L st i j k), (Hrest _ Hin).
  - intros s t. apply try_offset_flag_mono.
  - intros s t Hs. apply (try_offset_flag L s _ _ _ Hs).
Qed.

Lemma descend_local_minimum fuel L d s s' d' :
  s = norm2 (fractional_to_orthogonal L d) ->
  descend fuel L d s = Some (s', d') ->
  s' = norm2 (fractional_to_orthogonal L d') /\ s' <= s /\ local_minimum L d' s'.
Proof.
  revert d s. induction fuel as [| fuel IH]; intros d s Hs; [discriminate |].
  rewrite descend_S.
  assert (Hinv := scan_invariant_scan L _ _ _
                    (scan_invariant_start L _ d (on_grid_vector_den d))).
  rewrite <- Hs in Hinv. destruct Hinv as [_ Hsh Hle _].
  destruct (shortest_distance_changed (scan L (mkScan d s false))) eqn:Hflag.
  - intros H. apply IH in H; [| exact Hsh].
    destruct H as (H1 & H2 & H3). repeat split; auto.
    eapply Qcle_trans; eassumption.
  - intros H. destruct (scan_unchanged L _ Hflag) as [Hfix Hmin].
    rewrite Hfix in H. cbn [shortest difference_vector] in H, Hmin.
    assert (s' = s) as -> by congruence.
    assert (d' = d) as -> by congruence.
    repeat split; auto using Qcle_refl.
Qed.

(** ** Evaluating the distance functions *)

Lemma double_by_value (o : option double) (x : double) :
  option_map this o = Some (this x) -> o = Some x.
Proof.
  destruct o as [y |]; simpl; [| discriminate].
  intros H. f_equal. apply Qc_decomp. congruence.
Qed.

Lemma shortest_distance2_descend adjust fuel L lhs rhs s d :
  descend fuel L (adjust (Vector3D_sub rhs lhs))
    (norm2 (fractional_to_orthogonal L (adjust (Vector3D_sub rhs lhs))))
  = Some (s, d) ->
  shortest_distance2 adjust fuel L lhs rhs = Some s.
Proof. unfold shortest_distance2. intros ->. reflexivity. Qed.

Lemma shortest_distance_and_vector_descend adjust sqrt fuel L lhs rhs s d :
  descend fuel L (adjust (Vector3D_sub rhs lhs))
    (norm2 (fractional_to_orthogonal L (adjust (Vector3D_sub rhs lhs))))
  = Some (s, d) ->
  shortest_distance_and_vector adjust sqrt fuel L lhs rhs = Some (sqrt s, d).
Proof. unfold shortest_distance_and_vector. intros ->. reflexivity. Qed.

(** C4.  The neighbour-scan loop of [shortest_distance2] and of both
    [shortest_distance] functions terminates for every lattice and every
    pair of positions: from some amount of fuel on, the three functions
    return, and the candidate they stop at is a fixed point of the scan
    (none of the 27 offsets gives a strictly shorter translate). *)
Theorem shortest_distance_terminates
    (adjust : Vector3D -> Vector3D) (sqrt : double -> double)
    (L : CrystalLattice) (lhs rhs : Vector3D) :
  exists (n : nat) (s : double) (d : Vector3D),
    (forall k, shortest_distance2 adjust (n + k) L lhs rhs = Some s) /\
    (forall k, shortest_distance adjust sqrt (n + k) L lhs rhs = Some (sqrt s)) /\
    (forall k, shortest_distance_and_vector adjust sqrt (n + k) L lhs rhs
               = Some (sqrt s, d)) /\
    s = norm2 (fractional_to_orthogonal L d) /\
    local_minimum L d s.
Proof.
  destruct (descend_terminates L (adjust (Vector3D_sub rhs lhs)))
    as (n & [s d] & Hn).
  exists n, s, d.
  assert (H2 : forall k, shortest_distance2 adjust (n + k) L lhs rhs = Some s).
  { intros k. eapply shortest_distance2_descend, Hn. lia. }
  destruct (descend_local_minimum n L _ _ s d eq_refl (Hn n (Nat.le_refl n)))
    as (Hs & _ & Hmin).
  split; [exact H2 |]. repeat split; trivial.
  - intros k. unfold shortest_distance. rewrite H2. reflexivity.
  - intros k. eapply shortest_distance_and_vector_descend, Hn. lia.
Qed.

(** Each pass of the scan that changes the candidate makes the squared
    distance strictly smaller. *)
Lemma scan_decreases (L : CrystalLattice) (d : Vector3D) :
  let s := norm2 (fractional_to_orthogonal L d) in
  shortest_distance_changed (scan L (mkScan d s false)) = true ->
  shortest (scan L (mkScan d s false)) < s.
Proof.
  intros s.
  apply (inv_changed _ _ _ _
           (scan_invariant_scan L _ _ _
              (scan_invariant_start L _ d (on_grid_vector_den d)))).
Qed.

(** C2.  In the cell with a = 2, b = 5, c = 1, alpha = beta = 90 degrees
    and cos gamma = -4/5, [shortest_distance2] of (0,0,0) and (0,2/5,0)
    is 17/5, with either reading of [adjust_for_translations], although
    the translate by (1,0,0) has the squared length 8/5: the descent
    stops at a local minimum that is not the minimum-image distance. *)
Theorem shortest_distance2_not_minimum_image :
  let P := zero_vector in
  let Q := mkVector3D 0 (dbl 2 5) 0 in
  (forall k, shortest_distance2 adjust_for_translations_floor (2 + k)
               obtuse_cell P Q = Some (dbl 17 5)) /\
  (forall k, shortest_distance2 adjust_for_translations_nearest (2 + k)
               obtuse_cell P Q = Some (dbl 17 5)) /\
  translate_distance2 obtuse_cell P Q 1 0 0 = dbl 8 5 /\
  dbl 8 5 < dbl 17 5.
Proof.
  split; [| split; [| split]].
  - intros k. apply double_by_value. vm_compute. reflexivity.
  - intros k. apply double_by_value. vm_compute. reflexivity.
  - apply Qc_decomp. vm_compute. reflexivity.
  - vm_compute. reflexivity.
Qed.

(** The same with positions that binary floating point represents
    exactly: from (0,0,0) to (0,7/16,0) the function returns 745/256, and
    the translate by (1,0,0) has the squared length 457/256. *)
Lemma dyadic_positions_not_minimum_image :
  let P := zero_vector in
  let Q := mkVector3D 0 (dbl 7 16) 0 in
  (forall k, shortest_distance2 adjust_for_translations_floor (2 + k)
               obtuse_cell P Q = Some (dbl 745 256)) /\
  (forall k, shortest_distance2 adjust_for_translations_nearest (2 + k)
               obtuse_cell P Q = Some (dbl 745 256)) /\
  translate_distance2 obtuse_cell P Q 1 0 0 = dbl 457 256.
Proof.
  split; [| split].
  - intros k. apply double_by_value. vm_compute. reflexivity.
  - intros k. apply double_by_value. vm_compute. reflexivity.
  - apply Qc_decomp. vm_compute. reflexivity.
Qed.

(** Translation invariance holds: the two positions enter the distance
    only through their difference. *)
Lemma shortest_distance_translation_invariant
    (adjust : Vector3D -> Vector3D) (sqrt : double -> double) (fuel : nat)
    (L : CrystalLattice) (P Q n : Vector3D) :
  shortest_distance adjust sqrt fuel L (Vector3D_add P n) (Vector3D_add Q n)
  = shortest_distance adjust sqrt fuel L P Q.
Proof.
  unfold shortest_distance, shortest_distance2.
  replace (Vector3D_sub (Vector3D_add Q n) (Vector3D_add P n))
    with (Vector3D_sub Q P); [reflexivity |].
  unfold Vector3D_sub, Vector3D_add. cbn [v_x v_y v_z].
  f_equal; unfold double; ring.
Qed.

(** C3.  In the same cell the distance is not symmetric: from (0,0,0) to
    (0,2/5,0) the squared distance is 17/5 and [shortest_distance] is its
    square root, from (0,2/5,0) to (0,0,0) the squared distance is 8/5,
    with either reading of [adjust_for_translations]. *)
Theorem shortest_distance_not_symmetric (sqrt : double -> double) :
  let P := zero_vector in
  let Q := mkVector3D 0 (dbl 2 5) 0 in
  (forall k, shortest_distance adjust_for_translations_floor sqrt (2 + k)
               obtuse_cell P Q = Some (sqrt (dbl 17 5)) /\
             shortest_distance adjust_for_translations_floor sqrt (2 + k)
               obtuse_cell Q P = Some (sqrt (dbl 8 5))) /\
  (forall k, shortest_distance adjust_for_translations_nearest sqrt (2 + k)
               obtuse_cell P Q = Some (sqrt (dbl 17 5)) /\
             shortest_distance adjust_for_translations_nearest sqrt (2 + k)
               obtuse_cell Q P = Some (sqrt (dbl 8 5))) /\
  dbl 8 5 <> dbl 17 5.
Proof.
  assert (H : forall adjust fuel L lhs rhs s,
            shortest_distance2 adjust fuel L lhs rhs = Some s ->
            shortest_distance adjust sqrt fuel L lhs rhs = Some (sqrt s)).
  { intros adjust fuel L lhs rhs s Hs. unfold shortest_distance.
    rewrite Hs. reflexivity. }
  split; [| split].
  - intros k. split; apply H, double_by_value; vm_compute; reflexivity.
  - intros k. split; apply H, double_by_value; vm_compute; reflexivity.
  - intros Heq. apply (f_equal this) in Heq. vm_compute in Heq. discriminate.
Qed.

(** ** Orthogonal cells *)

Lemma of_int_plus (i j : Z) : of_int (i + j) = of_int i + of_int j.
Proof.
  unfold of_int. rewrite Q2Qc_plus. apply Q2Qc_eq_iff.
  unfold Qeq. simpl. lia.
Qed.

Lemma of_int_le (i j : Z) : (i <= j)%Z -> of_int i <= of_int j.
Proof.
  intros Hij. unfold of_int, Qcle. simpl. rewrite !Qred_correct.
  unfold Qle. simpl. lia.
Qed.

Lemma Qc_opposite (p q : Qc) : p + q = 0 -> p = - q.
Proof.
  intros Hpq. replace p with ((p + q) - q) by ring. rewrite Hpq. ring.
Qed.

Lemma of_int_opp (i : Z) : of_int (- i) = - of_int i.
Proof.
  apply Qc_opposite. rewrite <- of_int_plus.
  replace (- i + i)%Z with 0%Z by lia. reflexivity.
Qed.

Lemma Vector3D_add_ints (v : Vector3D) (i j k i' j' k' : Z) :
  Vector3D_add (Vector3D_add v (Vector3D_of_ints i j k)) (Vector3D_of_ints i' j' k')
  = Vector3D_add v (Vector3D_of_ints (i + i') (j + j') (k + k')).
Proof.
  unfold Vector3D_add, Vector3D_of_ints. cbn [v_x v_y v_z].
  rewrite !of_int_plus. f_equal; unfold double; ring.
Qed.

Lemma Vector3D_add_zero (v : Vector3D) :
  Vector3D_add v (Vector3D_of_ints 0 0 0) = v.
Proof.
  destruct v as [x y z]. unfold Vector3D_add, Vector3D_of_ints. cbn [v_x v_y v_z].
  change (of_int 0) with (Q2Qc 0). f_equal; unfold double; ring.
Qed.

(** The candidate of the descent stays a translate of the first one by
    integers. *)
Lemma translate_of_refl d : translate_of d d.
Proof. exists 0%Z, 0%Z, 0%Z. symmetry. apply Vector3D_add_zero. Qed.

Lemma translate_of_add d0 d i j k :
  translate_of d0 d -> translate_of d0 (Vector3D_add d (Vector3D_of_ints i j k)).
Proof.
  intros (i0 & j0 & k0 & ->). rewrite Vector3D_add_ints. red. eauto.
Qed.

Lemma translate_of_trans d0 d1 d2 :
  translate_of d0 d1 -> translate_of d1 d2 -> translate_of d0 d2.
Proof.
  intros H1 (i & j & k & ->). apply translate_of_add, H1.
Qed.

Lemma try_offset_translate L d0 st i j k :
  translate_of d0 (difference_vector st) ->
  translate_of d0 (difference_vector (try_offset L st i j k)).
Proof.
  intros H. unfold try_offset. destruct (double_lt _ _); [| exact H].
  apply translate_of_add, H.
Qed.

Lemma scan_translate L d0 st :
  translate_of d0 (difference_vector st) ->
  translate_of d0 (difference_vector (scan L st)).
Proof.
  unfold scan.
  apply (fold_left_invariant (fun st => translate_of d0 (difference_vector st))).
  intros st_i i.
  apply (fold_left_invariant (fun st => translate_of d0 (difference_vector st))).
  intros st_j j.
  apply (fold_left_invariant (fun st => translate_of d0 (difference_vector st))).
  intros st_k k. apply try_offset_translate.
Qed.

Lemma descend_translate fuel L d s s' d' :
  descend fuel L d s = Some (s', d') -> translate_of d d'.
Proof.
  revert d s. induction fuel as [| fuel IH]; intros d s; [discriminate |].
  rewrite descend_S.
  pose proof (scan_translate L d (mkScan d s false) (translate_of_refl d)) as Hscan.
  destruct (shortest_distance_changed (scan L (mkScan d s false))).
  - intros H. apply IH in H. eapply translate_of_trans; eassumption.
  - intros H. assert (d' = difference_vector (scan L (mkScan d s false))) as ->
      by congruence.
    exact Hscan.
Qed.

(** In one coordinate: when neither neighbour is closer, no integer
    translate is. *)
Lemma Qc_product_nonneg (p q : Qc) : 0 <= p -> 0 <= q -> 0 <= p * q.
Proof.
  intros Hp Hq. replace 0 with (0 * q) by ring.
  apply Qcmult_le_compat_r; assumption.
Qed.

Lemma Qc_sum_nonneg (p q : Qc) : 0 <= p -> 0 <= q -> 0 <= p + q.
Proof.
  intros Hp Hq. replace 0 with (0 + 0) by ring.
  apply Qcplus_le_compat; assumption.
Qed.

Lemma Qc_square_nonneg (a : Qc) : 0 <= a * a.
Proof.
  destruct (Qclt_le_dec a 0) as [Hneg | Hpos].
  - replace (a * a) with ((- a) * (- a)) by ring.
    assert (0 <= - a) as Hle.
    { apply Qclt_le_weak in Hneg. apply Qcopp_le_compat in Hneg.
      replace (- 0) with 0 in Hneg by ring. exact Hneg. }
    apply Qc_product_nonneg; exact Hle.
  - apply Qc_product_nonneg; exact Hpos.
Qed.

Lemma Qc_le_difference (p q : Qc) : p <= q -> 0 <= q - p.
Proof.
  unfold Qcminus. apply Qcle_minus_iff.
Qed.

Lemma Qc_difference_le (p q : Qc) : 0 <= q - p -> p <= q.
Proof.
  unfold Qcminus. apply Qcle_minus_iff.
Qed.

Lemma coordinate_minimum (a x : Qc) (i : Z) :
  a * x * (a * x) <= a * (x + 1) * (a * (x + 1)) ->
  a * x * (a * x) <= a * (x - 1) * (a * (x - 1)) ->
  a * x * (a * x) <= a * (x + of_int i) * (a * (x + of_int i)).
Proof.
  intros Hup Hdown.
  apply Qc_le_difference in Hup, Hdown. apply Qc_difference_le.
  replace (a * (x + 1) * (a * (x + 1)) - a * x * (a * x))
    with (a * a * (1 + x + x)) in Hup by ring.
  replace (a * (x - 1) * (a * (x - 1)) - a * x * (a * x))
    with (a * a * (1 - x - x)) in Hdown by ring.
  pose proof (Qc_square_nonneg a) as HA.
  set (t := of_int i).
  destruct (Z_lt_le_dec i 1) as [Hlow | Hhigh];
    [destruct (Z_lt_le_dec i 0) as [Hneg | Hzero] |].
  - assert (0 <= - t - 1) as Ht1.
    { apply Qc_le_difference.
      unfold t. rewrite <- of_int_opp. change 1 with (of_int 1).
      apply of_int_le. lia. }
    assert (0 <= - t) as Ht0.
    { replace (- t) with ((- t - 1) + 1) by ring.
      apply Qc_sum_nonneg; [exact Ht1 | discriminate]. }
    replace (a * (x + t) * (a * (x + t)) - a * x * (a * x))
      with (- t * (a * a * (1 - x - x)) + a * a * (- t * (- t - 1))) by ring.
    apply Qc_sum_nonneg;
      [apply Qc_product_nonneg; assumption
      | apply Qc_product_nonneg;
          [assumption | apply Qc_product_nonneg; assumption]].
  - assert (i = 0%Z) as -> by lia. subst t. change (of_int 0) with 0.
    replace (a * (x + 0) * (a * (x + 0)) - a * x * (a * x)) with 0 by ring.
    apply Qcle_refl.
  - assert (0 <= t - 1) as Ht1.
    { apply Qc_le_difference. change 1 with (of_int 1).
      apply of_int_le. exact Hhigh. }
    assert (0 <= t) as Ht0.
    { replace t with ((t - 1) + 1) by ring.
      apply Qc_sum_nonneg; [exact Ht1 | discriminate]. }
    replace (a * (x + t) * (a * (x + t)) - a * x * (a * x))
      with (t * (a * a * (1 + x + x)) + a * a * (t * (t - 1))) by ring.
    apply Qc_sum_nonneg;
      [apply Qc_product_nonneg; assumption
      | apply Qc_product_nonneg;
          [assumption | apply Qc_product_nonneg; assumption]].
Qed.

(** The squared length in an orthogonal cell. *)
Lemma orthogonal_norm2 (L : CrystalLattice) (v : Vector3D) :
  orthogonal L ->
  norm2 (fractional_to_orthogonal L v)
  = m00 (fractional_to_orthogonal_matrix_ L) * v_x v
      * (m00 (fractional_to_orthogonal_matrix_ L) * v_x v)
    + m11 (fractional_to_orthogonal_matrix_ L) * v_y v
      * (m11 (fractional_to_orthogonal_matrix_ L) * v_y v)
    + m22 (fractional_to_orthogonal_matrix_ L) * v_z v
      * (m22 (fractional_to_orthogonal_matrix_ L) * v_z v).
Proof.
  intros (H01 & H02 & H10 & H12 & H20 & H21).
  unfold norm2, fractional_to_orthogonal, Matrix3D_mul_vec. cbn [v_x v_y v_z].
  rewrite H01, H02, H10, H12, H20, H21. unfold double. ring.
Qed.

Lemma neighbour_x_up : In (1, 0, 0)%Z neighbours.
Proof. unfold neighbours. simpl. tauto. Qed.
Lemma neighbour_x_down : In (-1, 0, 0)%Z neighbours.
Proof. unfold neighbours. simpl. tauto. Qed.
Lemma neighbour_y_up : In (0, 1, 0)%Z neighbours.
Proof. unfold neighbours. simpl. tauto. Qed.
Lemma neighbour_y_down : In (0, -1, 0)%Z neighbours.
Proof. unfold neighbours. simpl. tauto. Qed.
Lemma neighbour_z_up : In (0, 0, 1)%Z neighbours.
Proof. unfold neighbours. simpl. tauto. Qed.
Lemma neighbour_z_down : In (0, 0, -1)%Z neighbours.
Proof. unfold neighbours. simpl. tauto. Qed.

(** In an orthogonal cell a local minimum of the scan is the minimum over
    all translates. *)
Lemma orthogonal_local_minimum (L : CrystalLattice) (d : Vector3D) :
  orthogonal L ->
  local_minimum L d (norm2 (fractional_to_orthogonal L d)) ->
  forall i j k,
    norm2 (fractional_to_orthogonal L d)
    <= norm2 (fractional_to_orthogonal L (Vector3D_add d (Vector3D_of_ints i j k))).
Proof.
  intros Horth Hmin i j k.
  pose proof (Hmin _ _ _ neighbour_x_up) as Hxu.
  pose proof (Hmin _ _ _ neighbour_x_down) as Hxd.
  pose proof (Hmin _ _ _ neighbour_y_up) as Hyu.
  pose proof (Hmin _ _ _ neighbour_y_down) as Hyd.
  pose proof (Hmin _ _ _ neighbour_z_up) as Hzu.
  pose proof (Hmin _ _ _ neighbour_z_down) as Hzd.
  apply Qcnot_lt_le in Hxu, Hxd, Hyu, Hyd, Hzu, Hzd.
  rewrite !(orthogonal_norm2 L _ Horth) in *.
  destruct d as [x y z].
  unfold Vector3D_add, Vector3D_of_ints in *. cbn [v_x v_y v_z] in *.
  set (a := m00 (fractional_to_orthogonal_matrix_ L)) in *.
  set (b := m11 (fractional_to_orthogonal_matrix_ L)) in *.
  set (c := m22 (fractional_to_orthogonal_matrix_ L)) in *.
  change (of_int 0) with (0 : Qc) in *. change (of_int 1) with (1 : Qc) in *.
  change (of_int (-1)) with (- (1) : Qc) in *.
  assert (Hx := coordinate_minimum a x i).
  assert (Hy := coordinate_minimum b y j).
  assert (Hz := coordinate_minimum c z k).
  unfold double in *.
  apply Qcplus_le_compat; [apply Qcplus_le_compat |].
  - apply Hx.
    + apply Qc_le_difference in Hxu. apply Qc_difference_le.
      match goal with
      | H : 0 <= ?e |- 0 <= ?g => replace g with e by ring; exact H
      end.
    + apply Qc_le_difference in Hxd. apply Qc_difference_le.
      match goal with
      | H : 0 <= ?e |- 0 <= ?g => replace g with e by ring; exact H
      end.
  - apply Hy.
    + apply Qc_le_difference in Hyu. apply Qc_difference_le.
      match goal with
      | H : 0 <= ?e |- 0 <= ?g => replace g with e by ring; exact H
      end.
    + apply Qc_le_difference in Hyd. apply Qc_difference_le.
      match goal with
      | H : 0 <= ?e |- 0 <= ?g => replace g with e by ring; exact H
      end.
  - apply Hz.
    + apply Qc_le_difference in Hzu. apply Qc_difference_le.
      match goal with
      | H : 0 <= ?e |- 0 <= ?g => replace g with e by ring; exact H
      end.
    + apply Qc_le_difference in Hzd. apply Qc_difference_le.
      match goal with
      | H : 0 <= ?e |- 0 <= ?g => replace g with e by ring; exact H
      end.
Qed.

(** In an orthogonal cell, with an [adjust_for_translations] that moves
    by integers, [shortest_distance2] returns the minimum over all
    translates, and that minimum is reached. *)
Theorem orthogonal_cell_minimum_image
    (adjust : Vector3D -> Vector3D) (fuel : nat) (L : CrystalLattice)
    (lhs rhs : Vector3D) (s : double) :
  integer_shift adjust ->
  orthogonal L ->
  shortest_distance2 adjust fuel L lhs rhs = Some s ->
  (exists i j k, s = translate_distance2 L lhs rhs i j k) /\
  (forall i j k, s <= translate_distance2 L lhs rhs i j k).
Proof.
  intros Hadjust Horth. unfold shortest_distance2.
  destruct (descend _ _ _ _) as [[s' d'] |] eqn:Hdescend; [| discriminate].
  intros Hs. assert (s' = s) as -> by congruence.
  pose proof (descend_translate _ _ _ _ _ _ Hdescend) as (i1 & j1 & k1 & Hd').
  destruct (descend_local_minimum _ _ _ _ _ _ eq_refl Hdescend) as (Heq & _ & Hmin).
  destruct (Hadjust (Vector3D_sub rhs lhs)) as (i0 & j0 & k0 & Hd0).
  rewrite Hd0, Vector3D_add_ints in Hd'.
  split.
  - exists (i0 + i1)%Z, (j0 + j1)%Z, (k0 + k1)%Z.
    unfold translate_distance2. rewrite <- Hd'. exact Heq.
  - intros i j k. unfold translate_distance2.
    replace (Vector3D_add (Vector3D_sub rhs lhs) (Vector3D_of_ints i j k))
      with (Vector3D_add d'
              (Vector3D_of_ints (i - (i0 + i1)) (j - (j0 + j1)) (k - (k0 + k1)))).
    + rewrite Heq in Hmin |- *. apply orthogonal_local_minimum; assumption.
    + rewrite Hd', Vector3D_add_ints. do 2 f_equal; lia.
Qed.

(** Both readings of [adjust_for_translations] move by integers, and the
    cubic cell is orthogonal. *)
Lemma subtract_integers_shift (f : double -> Z) :
  integer_shift (fun v => mkVector3D (v_x v - of_int (f (v_x v)))
                                     (v_y v - of_int (f (v_y v)))
                                     (v_z v - of_int (f (v_z v)))).
Proof.
  intros v. exists (- f (v_x v))%Z, (- f (v_y v))%Z, (- f (v_z v))%Z.
  unfold Vector3D_add, Vector3D_of_ints. cbn [v_x v_y v_z].
  rewrite !of_int_opp. f_equal; unfold double; ring.
Qed.

Lemma adjust_for_translations_floor_integer_shift :
  integer_shift adjust_for_translations_floor.
Proof. exact (subtract_integers_shift Qfloor). Qed.

Lemma adjust_for_translations_nearest_integer_shift :
  integer_shift adjust_for_translations_nearest.
Proof. exact (subtract_integers_shift nearest_integer). Qed.

Lemma cubic_cell_orthogonal : orthogonal cubic_cell.
Proof. repeat split. Qed.

(** In the cubic cell of edge 1 the squared distance from (0,0,0) to
    (0,2/5,0) is 4/25, and no translate is closer. *)
Lemma cubic_cell_minimum_image :
  shortest_distance2 adjust_for_translations_floor 2 cubic_cell
    zero_vector (mkVector3D 0 (dbl 2 5) 0) = Some (dbl 4 25) /\
  forall i j k,
    dbl 4 25 <= translate_distance2 cubic_cell
                  zero_vector (mkVector3D 0 (dbl 2 5) 0) i j k.
Proof.
  assert (shortest_distance2 adjust_for_translations_floor 2 cubic_cell
            zero_vector (mkVector3D 0 (dbl 2 5) 0) = Some (dbl 4 25)) as Hrun.
  { vm_compute. reflexivity. }
  split; [exact Hrun |].
  apply (orthogonal_cell_minimum_image adjust_for_translations_floor 2 cubic_cell
           zero_vector (mkVector3D 0 (dbl 2 5) 0) (dbl 4 25)
           adjust_for_translations_floor_integer_shift cubic_cell_orthogonal Hrun).
Qed.

(** ** Loops that may throw *)

Lemma for_each_Return {A : Type} (body : A -> result unit) (v : list A) :
  for_each body v = Return tt <-> forall a, In a v -> body a = Return tt.
Proof.
  induction v as [| a v IH]; simpl.
  - split; [intros _ a [] | reflexivity].
  - destruct (body a) as [[] | e] eqn:Ha; simpl.
    + rewrite IH. split.
      * intros Hv b [<- | Hb]; auto.
      * intros Hv b Hb. apply Hv. auto.
    + split; [discriminate |]. intros Hv.
      specialize (Hv a (or_introl eq_refl)). congruence.
Qed.

Lemma for_each_Throw {A : Type} (body : A -> result unit) (v : list A) (e : exception) :
  for_each body v = Throw e -> exists a, In a v /\ body a = Throw e.
Proof.
  induction v as [| a v IH]; simpl; [discriminate |].
  destruct (body a) as [[] | e'] eqn:Ha; simpl.
  - intros Hv. destruct (IH Hv) as (b & Hb & Hbody). eauto.
  - intros [= <-]. eauto.
Qed.

Lemma for_each_cases {A : Type} (body : A -> result unit) (v : list A) :
  for_each body v = Return tt \/ exists e, for_each body v = Throw e.
Proof. destruct (for_each body v) as [[] | e]; eauto. Qed.

Section SpaceGroupProperties.

Context `{SymmetryLibrary}.

Lemma found_operator_true (op : SymmetryOperator) (v : list SymmetryOperator) :
  found_operator op v = true <->
  exists c, In c v /\ nearly_equal_SymmetryOperator op c = true.
Proof.
  induction v as [| c v IH]; simpl.
  - split; [discriminate | intros (c & [] & _)].
  - destruct (nearly_equal_SymmetryOperator op c) eqn:Hc.
    + split; eauto.
    + rewrite IH. split.
      * intros (c' & Hin & Hc'). eauto.
      * intros (c' & [<- | Hin] & Hc'); [congruence | eauto].
Qed.

Lemma check_if_closed_Return (v : list SymmetryOperator) :
  check_if_closed v = Return tt <-> closed v.
Proof.
  unfold check_if_closed, closed. rewrite for_each_Return.
  split.
  - intros Hv a b Ha Hb. specialize (Hv a Ha).
    rewrite for_each_Return in Hv. specialize (Hv b Hb).
    apply found_operator_true.
    destruct (found_operator (compose a b) v); [reflexivity | discriminate].
  - intros Hv a Ha. apply for_each_Return. intros b Hb.
    specialize (Hv a b Ha Hb). apply found_operator_true in Hv.
    rewrite Hv. reflexivity.
Qed.

Lemma check_if_closed_Throw (v : list SymmetryOperator) (e : exception) :
  check_if_closed v = Throw e ->
  e = runtime_error
        "check_if_closed( std::vector< SymmetryOperator > ): operator not found.".
Proof.
  unfold check_if_closed. intros Hv.
  apply for_each_Throw in Hv as (a & _ & Ha).
  apply for_each_Throw in Ha as (b & _ & Hb).
  destruct (found_operator (compose a b) v); congruence.
Qed.

Lemma decompose_Return (G G' : SpaceGroup) :
  decompose G = Return G' ->
  symmetry_operators_ G' = symmetry_operators_ G /\
  representative_symmetry_operators_ G' = representatives (symmetry_operators_ G).
Proof.
  unfold decompose.
  destruct (fold_result classify _ _) as [c | e]; simpl; [| discriminate].
  destruct (centring_vectors c); [discriminate |].
  destruct (remove_zero_vector _) as [identity_found kept].
  destruct identity_found; simpl; [| discriminate].
  destruct (smallest_inversion _ _) as [smallest_value position].
  intros [= <-]. split; reflexivity.
Qed.

Lemma decompose_symmetry_operators (G G' : SpaceGroup) :
  decompose G = Return G' -> symmetry_operators_ G' = symmetry_operators_ G.
Proof. intros HG'. apply (decompose_Return _ _ HG'). Qed.

(** The swap keeps the elements of the list. *)
Lemma swap_In {A : Type} (l : list A) (i : nat) (a b x : A) :
  l !! 0%nat = Some a -> l !! i = Some b ->
  In x (<[0%nat := b]> (<[i := a]> l)) <-> In x l.
Proof.
  intros H0 Hi. rewrite <- !list_elem_of_In, !list_elem_of_lookup.
  assert (Hlen : (i < length l)%nat) by (eapply lookup_lt_Some; eassumption).
  assert (Hlen0 : (0 < length l)%nat) by (eapply lookup_lt_Some; eassumption).
  split.
  - intros [k Hk].
    destruct (decide (k = 0%nat)) as [-> | Hk0].
    + rewrite list_lookup_insert_eq in Hk by (rewrite length_insert; lia).
      injection Hk as <-. eauto.
    + rewrite list_lookup_insert_ne in Hk by congruence.
      destruct (decide (k = i)) as [-> | Hki].
      * rewrite list_lookup_insert_eq in Hk by lia. injection Hk as <-. eauto.
      * rewrite list_lookup_insert_ne in Hk by congruence. eauto.
  - intros [k Hk].
    destruct (decide (k = 0%nat)) as [-> | Hk0].
    + assert (x = a) as -> by congruence.
      destruct (decide (i = 0%nat)) as [-> | Hi0].
      * exists 0%nat. rewrite list_lookup_insert_eq by (rewrite length_insert; lia).
        congruence.
      * exists i. rewrite list_lookup_insert_ne by congruence.
        rewrite list_lookup_insert_eq by lia. reflexivity.
    + destruct (decide (k = i)) as [-> | Hki].
      * assert (x = b) as -> by congruence.
        exists 0%nat. rewrite list_lookup_insert_eq by (rewrite length_insert; lia).
        reflexivity.
      * exists k. rewrite !list_lookup_insert_ne by congruence. exact Hk.
Qed.

Lemma identity_first_In (v v' : list SymmetryOperator) (x : SymmetryOperator) :
  identity_first v = Return v' -> In x v' <-> In x v.
Proof.
  unfold identity_first. destruct v as [| op_0 rest]; [discriminate |].
  destruct (is_identity op_0); [intros [= <-]; reflexivity |].
  destruct (find_identity rest 1) as [i |]; [| intros [= <-]; reflexivity].
  destruct ((op_0 :: rest) !! i) as [op_i |] eqn:Hi; [| discriminate].
  intros [= <-]. apply swap_In; [reflexivity | exact Hi].
Qed.

Lemma closed_same_elements (v v' : list SymmetryOperator) :
  (forall x, In x v' <-> In x v) -> closed v -> closed v'.
Proof.
  intros Hsame Hv a b Ha Hb.
  destruct (Hv a b) as (c & Hc & Heq); [apply Hsame, Ha | apply Hsame, Hb |].
  exists c. split; [apply Hsame, Hc | exact Heq].
Qed.

(** C1.  The constructor from an operator list throws the error of
    [check_if_closed] whenever the list is not closed under
    composition, and the operators of every group it returns are
    closed: the composition of any two of them is [nearly_equal] to one
    of them. *)
Theorem constructor_checks_closure
    (symmetry_operators : list SymmetryOperator) (name : string) :
  (~ closed symmetry_operators ->
   SpaceGroup_of_operators symmetry_operators name
   = Throw (runtime_error
       "check_if_closed( std::vector< SymmetryOperator > ): operator not found."))
  /\
  (forall G, SpaceGroup_of_operators symmetry_operators name = Return G ->
     closed symmetry_operators /\ closed (symmetry_operators_ G)).
Proof.
  unfold SpaceGroup_of_operators. split.
  - intros Hnot.
    destruct (check_if_closed symmetry_operators) as [[] | e] eqn:Hc.
    + exfalso. apply Hnot, check_if_closed_Return, Hc.
    + simpl. f_equal. eapply check_if_closed_Throw, Hc.
  - intros G.
    destruct (check_if_closed symmetry_operators) as [[] | e] eqn:Hc;
      simpl; [| discriminate].
    apply check_if_closed_Return in Hc.
    destruct (identity_first symmetry_operators) as [v' | e] eqn:Hv';
      simpl; [| discriminate].
    destruct (decompose _) as [G' | e] eqn:HG'; simpl; [| discriminate].
    intros [= <-]. simpl. split; [exact Hc |].
    apply decompose_symmetry_operators in HG'. simpl in HG'. rewrite HG'.
    eapply closed_same_elements; [| exact Hc].
    intros x. eapply identity_first_In, Hv'.
Qed.

(** ** The identity is the first operator *)

Lemma classify_centring (v : list SymmetryOperator) (c0 c : classification) :
  fold_result classify v c0 = Return c ->
  forall t, In t (centring_vectors c) ->
    In t (centring_vectors c0) \/
    exists op, In op v /\
      nearly_equal_Matrix3D (rotation op) identity_matrix = true /\
      translation op = t.
Proof.
  revert c0. induction v as [| op v IH]; intros c0; simpl.
  - intros [= <-]. auto.
  - destruct (classify c0 op) as [c1 | e] eqn:Hc1; simpl; [| discriminate].
    intros Hc t Ht. destruct (IH _ Hc t Ht) as [Ht1 | (op' & Hin & Hop')].
    + unfold classify in Hc1.
      destruct (nearly_equal_double _ 1).
      * injection Hc1 as <-. simpl in Ht1.
        destruct (nearly_equal_Matrix3D (rotation op) identity_matrix) eqn:Hid;
          [| auto].
        apply in_app_or in Ht1 as [Ht1 | [<- | []]]; [auto |].
        right. exists op. auto.
      * destruct (nearly_equal_double _ (- 1)); [| discriminate].
        destruct (nearly_equal_Matrix3D _ _); injection Hc1 as <-; auto.
    + right. exists op'. auto.
Qed.

Lemma remove_zero_vector_found (l : list Vector3D) :
  (remove_zero_vector l).1 = true ->
  exists t, In t l /\ nearly_equal_Vector3D t zero_vector = true.
Proof.
  unfold remove_zero_vector.
  assert (Hgen : forall (acc : bool * list Vector3D),
            (fold_left (fun '(identity_found, kept) v =>
               if nearly_equal_Vector3D v zero_vector
               then (true, kept) else (identity_found, kept ++ [v])) l acc).1
            = true ->
            acc.1 = true \/
            exists t, In t l /\ nearly_equal_Vector3D t zero_vector = true).
  { induction l as [| t l IH]; intros [found kept]; simpl; [auto |].
    destruct (nearly_equal_Vector3D t zero_vector) eqn:Ht.
    - intros _. right. eauto.
    - intros Hfold. destruct (IH _ Hfold) as [Hacc | (t' & Hin & Ht')]; eauto. }
  intros Hl. destruct (Hgen _ Hl) as [Hacc | Hex]; [discriminate | exact Hex].
Qed.

Lemma decompose_has_identity (G G' : SpaceGroup) :
  decompose G = Return G' ->
  exists op, In op (symmetry_operators_ G) /\ is_identity op = true.
Proof.
  unfold decompose.
  destruct (fold_result classify _ _) as [c | e] eqn:Hc; simpl; [| discriminate].
  destruct (centring_vectors c) as [| t0 l0] eqn:Hcv; [discriminate |].
  destruct (remove_zero_vector (t0 :: l0)) as [identity_found kept] eqn:Hrz.
  destruct identity_found; simpl; [| discriminate].
  intros _.
  destruct (remove_zero_vector_found (t0 :: l0)) as (t & Hin & Ht);
    [rewrite Hrz; reflexivity |].
  rewrite <- Hcv in Hin.
  destruct (classify_centring _ _ _ Hc t Hin) as [[] | (op & Hop & Hrot & <-)].
  exists op. split; [exact Hop |]. unfold is_identity. rewrite Hrot, Ht. reflexivity.
Qed.

Lemma find_identity_Some (v : list SymmetryOperator) (i k : nat) :
  find_identity v i = Some k ->
  (i <= k)%nat /\ exists op, v !! (k - i)%nat = Some op /\ is_identity op = true.
Proof.
  revert i. induction v as [| op v IH]; intros i; simpl; [discriminate |].
  destruct (is_identity op) eqn:Hop.
  - intros [= <-]. split; [lia |]. exists op. rewrite Nat.sub_diag. auto.
  - intros Hk. destruct (IH _ Hk) as (Hle & op' & Hlook & Hop').
    split; [lia |]. exists op'. split; [| exact Hop'].
    replace (k - i)%nat with (S (k - S i)) by lia. exact Hlook.
Qed.

Lemma find_identity_None (v : list SymmetryOperator) (i : nat) :
  find_identity v i = None -> forall op, In op v -> is_identity op = false.
Proof.
  revert i. induction v as [| op v IH]; intros i; simpl; [intros _ op [] |].
  destruct (is_identity op) eqn:Hop; [discriminate |].
  intros Hnone op' [<- | Hin]; eauto.
Qed.

Lemma identity_first_head (v v' : list SymmetryOperator) :
  identity_first v = Return v' ->
  (exists op, In op v /\ is_identity op = true) ->
  exists op, v' !! 0%nat = Some op /\ is_identity op = true.
Proof.
  unfold identity_first. destruct v as [| op_0 rest]; [discriminate |].
  destruct (is_identity op_0) eqn:H0.
  - intros [= <-] _. exists op_0. auto.
  - destruct (find_identity rest 1) as [i |] eqn:Hfind.
    + destruct (find_identity_Some _ _ _ Hfind) as (Hle & op & Hlook & Hop).
      assert (Hi : (op_0 :: rest) !! i = Some op).
      { destruct i as [| i]; [lia |]. simpl in *.
        rewrite Nat.sub_0_r in Hlook. exact Hlook. }
      rewrite Hi. intros [= <-] _. exists op. split; [| exact Hop].
      apply list_lookup_insert_eq. rewrite length_insert. simpl. lia.
    + intros [= <-] (op & [<- | Hin] & Hop); [congruence |].
      rewrite (find_identity_None _ _ Hfind op Hin) in Hop. discriminate.
Qed.

Lemma constructor_first_is_identity (v : list SymmetryOperator) (name : string)
    (G : SpaceGroup) :
  SpaceGroup_of_operators v name = Return G -> first_is_identity G.
Proof.
  unfold SpaceGroup_of_operators.
  destruct (check_if_closed v) as [[] | e]; simpl; [| discriminate].
  destruct (identity_first v) as [v' | e] eqn:Hv'; simpl; [| discriminate].
  destruct (decompose _) as [G' | e] eqn:HG'; simpl; [| discriminate].
  intros [= <-]. unfold first_is_identity. simpl.
  rewrite (decompose_symmetry_operators _ _ HG'). simpl.
  apply (identity_first_head _ _ Hv').
  destruct (decompose_has_identity _ _ HG') as (op & Hin & Hop). simpl in Hin.
  exists op. split; [| exact Hop].
  exact (proj1 (identity_first_In _ _ op Hv') Hin).
Qed.

Lemma without_duplicates_head (first : SymmetryOperator)
    (rest : list SymmetryOperator) :
  without_duplicates first rest !! 0%nat = Some first.
Proof.
  unfold without_duplicates.
  assert (Hgen : forall acc : list SymmetryOperator,
            acc !! 0%nat = Some first ->
            fold_left (fun new_symmetry_operators op =>
               if found_operator op new_symmetry_operators
               then new_symmetry_operators
               else new_symmetry_operators ++ [op]) rest acc !! 0%nat
            = Some first).
  { induction rest as [| op rest IH]; intros acc Hacc; simpl; [exact Hacc |].
    apply IH. destruct (found_operator op acc); [exact Hacc |].
    destruct acc; [discriminate | exact Hacc]. }
  apply Hgen. reflexivity.
Qed.

Lemma remove_duplicate_head (G G' : SpaceGroup) :
  remove_duplicate_symmetry_operators G = Return G' ->
  symmetry_operators_ G' !! 0%nat = symmetry_operators_ G !! 0%nat.
Proof.
  unfold remove_duplicate_symmetry_operators.
  destruct (symmetry_operators_ G) as [| op_0 rest]; [discriminate |].
  intros HG'. rewrite (decompose_symmetry_operators _ _ HG').
  unfold set_symmetry_operators. cbn [symmetry_operators_].
  rewrite without_duplicates_head. reflexivity.
Qed.

Lemma add_inversion_head (G G' : SpaceGroup) :
  add_inversion_at_origin G = Return G' ->
  symmetry_operators_ G' !! 0%nat = symmetry_operators_ G !! 0%nat.
Proof.
  unfold add_inversion_at_origin.
  destruct (has_inversion_at_origin_ G); [intros [= <-]; reflexivity |].
  intros HG'. rewrite (decompose_symmetry_operators _ _ HG'). simpl.
  unfold set_symmetry_operators. cbn [symmetry_operators_].
  destruct (symmetry_operators_ G); reflexivity.
Qed.

Lemma apply_similarity_transformation_head (G G' : SpaceGroup)
    (S op : SymmetryOperator) :
  symmetry_operators_ G !! 0%nat = Some op ->
  apply_similarity_transformation G S = Return G' ->
  symmetry_operators_ G' !! 0%nat = Some (compose (compose S op) (inverse S)).
Proof.
  unfold apply_similarity_transformation. intros Hop HG'.
  rewrite (decompose_symmetry_operators _ _ HG').
  unfold set_symmetry_operators. cbn [symmetry_operators_].
  destruct (symmetry_operators_ G) as [| op' rest]; [discriminate |].
  injection Hop as ->. reflexivity.
Qed.

(** C6.  In every group that the constructor returns the operator at
    index 0 passes the identity test of the constructor (identity
    rotation and zero translation, both with [nearly_equal]).  From
    whatever group they start, [decompose],
    [remove_duplicate_symmetry_operators] and [add_inversion_at_origin]
    leave the operator at index 0 as it is, so that it still passes
    the test after them when it did before; [add_centring_vector] only
    throws; [apply_similarity_transformation] puts at index 0 the
    conjugate [S * op * S^-1] of the operator [op] that was there, and
    the operator at index 0 passes the test afterwards exactly when
    this conjugate does. *)
Theorem identity_is_first_operator :
  (forall symmetry_operators name G,
     SpaceGroup_of_operators symmetry_operators name = Return G ->
     first_is_identity G) /\
  (forall G G', decompose G = Return G' ->
     symmetry_operators_ G' !! 0%nat = symmetry_operators_ G !! 0%nat /\
     (first_is_identity G -> first_is_identity G')) /\
  (forall G G', remove_duplicate_symmetry_operators G = Return G' ->
     symmetry_operators_ G' !! 0%nat = symmetry_operators_ G !! 0%nat /\
     (first_is_identity G -> first_is_identity G')) /\
  (forall G G', add_inversion_at_origin G = Return G' ->
     symmetry_operators_ G' !! 0%nat = symmetry_operators_ G !! 0%nat /\
     (first_is_identity G -> first_is_identity G')) /\
  (forall G centring_vector G',
     add_centring_vector G centring_vector <> Return G') /\
  (forall G S G' op, symmetry_operators_ G !! 0%nat = Some op ->
     apply_similarity_transformation G S = Return G' ->
     symmetry_operators_ G' !! 0%nat
     = Some (compose (compose S op) (inverse S)) /\
     (first_is_identity G' <->
      is_identity (compose (compose S op) (inverse S)) = true)).
Proof.
  assert (Hkept : forall G G' : SpaceGroup,
            symmetry_operators_ G' !! 0%nat = symmetry_operators_ G !! 0%nat ->
            first_is_identity G -> first_is_identity G').
  { intros G G' Hhead Hfirst. unfold first_is_identity. rewrite Hhead.
    exact Hfirst. }
  split; [exact constructor_first_is_identity |].
  split; [| split; [| split; [| split]]].
  - intros G G' HG'.
    assert (Hhead : symmetry_operators_ G' !! 0%nat
                    = symmetry_operators_ G !! 0%nat)
      by (rewrite (decompose_symmetry_operators _ _ HG'); reflexivity).
    split; [exact Hhead | exact (Hkept G G' Hhead)].
  - intros G G' HG'. pose proof (remove_duplicate_head _ _ HG') as Hhead.
    split; [exact Hhead | exact (Hkept G G' Hhead)].
  - intros G G' HG'. pose proof (add_inversion_head _ _ HG') as Hhead.
    split; [exact Hhead | exact (Hkept G G' Hhead)].
  - intros G centring_vector G'. discriminate.
  - intros G S G' op Hop HG'.
    pose proof (apply_similarity_transformation_head _ _ _ _ Hop HG') as Hhead.
    split; [exact Hhead |]. unfold first_is_identity. rewrite Hhead. split.
    + intros (op' & [= <-] & Hid). exact Hid.
    + intros Hid. eauto.
Qed.

End SpaceGroupProperties.

Section Representatives.

Context `{SymmetryLibrary}.

Lemma found_rotation_true (op : SymmetryOperator) (reps : list SymmetryOperator) :
  found_rotation op reps = true <->
  exists r, In r reps /\ same_rotation op r = true.
Proof.
  unfold same_rotation. induction reps as [| r reps IH]; simpl.
  - split; [discriminate | intros (r & [] & _)].
  - destruct (nearly_equal_Matrix3D (rotation op) (rotation r)) eqn:H1.
    { split; [| reflexivity]. intros _. exists r. rewrite H1. auto. }
    destruct (nearly_equal_Matrix3D (rotation op) (Matrix3D_scale (- 1) (rotation r)))
      eqn:H2.
    { split; [| reflexivity]. intros _. exists r. rewrite H1, H2. auto. }
    rewrite IH. split.
    + intros (r' & Hin & Hr'). eauto.
    + intros (r' & [<- | Hin] & Hr'); [| eauto].
      rewrite H1, H2 in Hr'. discriminate.
Qed.

Lemma found_rotation_false (op : SymmetryOperator) (reps : list SymmetryOperator) :
  found_rotation op reps = false ->
  forall r, In r reps -> same_rotation op r = false.
Proof.
  intros Hnot r Hin. destruct (same_rotation op r) eqn:Hr; [| reflexivity].
  assert (found_rotation op reps = true) by (apply found_rotation_true; eauto).
  congruence.
Qed.

Lemma representatives_snoc (v : list SymmetryOperator) (op : SymmetryOperator) :
  representatives (v ++ [op]) =
  if found_rotation op (representatives v)
  then representatives v
  else representatives v ++ [op].
Proof. unfold representatives. rewrite fold_left_app. reflexivity. Qed.

Section Classes.

Variable ops : list SymmetryOperator.
Hypothesis classes : rotation_classes ops = true.

Lemma classes_refl a : In a ops -> same_rotation a a = true.
Proof.
  intros Ha. unfold rotation_classes in classes.
  apply andb_prop in classes as [H12 _]. apply andb_prop in H12 as [H1 _].
  rewrite forallb_forall in H1. auto.
Qed.

Lemma classes_sym a b :
  In a ops -> In b ops -> same_rotation a b = true -> same_rotation b a = true.
Proof.
  intros Ha Hb Hab. unfold rotation_classes in classes.
  apply andb_prop in classes as [H12 _]. apply andb_prop in H12 as [_ H2].
  rewrite forallb_forall in H2. specialize (H2 a Ha).
  rewrite forallb_forall in H2. specialize (H2 b Hb).
  rewrite Hab in H2. exact H2.
Qed.

Lemma classes_trans a b c :
  In a ops -> In b ops -> In c ops ->
  same_rotation a b = true -> same_rotation b c = true ->
  same_rotation a c = true.
Proof.
  intros Ha Hb Hc Hab Hbc. unfold rotation_classes in classes.
  apply andb_prop in classes as [_ H3].
  rewrite forallb_forall in H3. specialize (H3 a Ha).
  rewrite forallb_forall in H3. specialize (H3 b Hb).
  rewrite forallb_forall in H3. specialize (H3 c Hc).
  rewrite Hab, Hbc in H3. exact H3.
Qed.

Lemma representatives_invariant_prefix (pre suf : list SymmetryOperator) :
  ops = pre ++ suf -> representatives_invariant pre (representatives pre).
Proof.
  revert suf. induction pre as [| op pre IH] using rev_ind; intros suf Hops.
  - split; simpl.
    + constructor.
    + intros op [].
    + intros i j r1 r2 _ Hi. discriminate.
    + intros r [].
  - rewrite <- app_assoc in Hops. specialize (IH _ Hops).
    destruct IH as [Hsub Hcov Hdis Hfirst].
    assert (Hin_pre : forall x, In x pre -> In x ops).
    { intros x Hx. rewrite Hops. apply in_or_app. auto. }
    assert (Hin_op : In op ops).
    { rewrite Hops. apply in_or_app. right. left. reflexivity. }
    assert (Hin_reps : forall x, In x (representatives pre) -> In x pre).
    { intros x Hx. apply list_elem_of_In.
      apply (sublist_subseteq _ _ Hsub), list_elem_of_In, Hx. }
    assert (Hfirst' : forall r, first_of_its_rotation pre r ->
                        first_of_its_rotation (pre ++ [op]) r).
    { intros r (i & Hi & Hbefore). exists i. split.
      - apply lookup_app_l_Some, Hi.
      - intros j op' Hj Hop'. apply (Hbefore j op' Hj).
        rewrite lookup_app_l in Hop'; [exact Hop' |].
        apply lookup_lt_Some in Hi. lia. }
    rewrite representatives_snoc.
    destruct (found_rotation op (representatives pre)) eqn:Hfound.
    + split.
      * apply sublist_inserts_r, Hsub.
      * intros op' Hop'. apply in_app_or in Hop' as [Hop' | [<- | []]]; [auto |].
        apply found_rotation_true, Hfound.
      * exact Hdis.
      * auto.
    + pose proof (found_rotation_false _ _ Hfound) as Hnot.
      split.
      * apply sublist_app; [exact Hsub | reflexivity].
      * intros op' Hop'. apply in_app_or in Hop' as [Hop' | [<- | []]].
        -- destruct (Hcov op' Hop') as (r & Hr & Hsame).
           exists r. split; [apply in_or_app; auto | exact Hsame].
        -- exists op. split; [apply in_or_app; right; left; reflexivity |].
           apply classes_refl, Hin_op.
      * intros i j r1 r2 Hij Hi Hj.
        assert (Hlen : (i < length (representatives pre))%nat).
        { apply lookup_lt_Some in Hj. rewrite length_app in Hj. simpl in Hj. lia. }
        rewrite lookup_app_l in Hi by exact Hlen.
        destruct (decide (j < length (representatives pre))%nat) as [Hj' | Hj'].
        -- rewrite lookup_app_l in Hj by exact Hj'. eauto.
        -- rewrite lookup_app_r in Hj by lia.
           destruct (j - length (representatives pre))%nat; [| discriminate].
           injection Hj as <-. apply Hnot.
           apply list_elem_of_In, list_elem_of_lookup. eauto.
      * intros r Hr. apply in_app_or in Hr as [Hr | [<- | []]]; [auto |].
        exists (length pre). split.
        -- rewrite lookup_app_r by lia. rewrite Nat.sub_diag. reflexivity.
        -- intros j op' Hj Hop'. rewrite lookup_app_l in Hop' by exact Hj.
           assert (Hop'_pre : In op' pre).
           { apply list_elem_of_In, list_elem_of_lookup. eauto. }
           destruct (same_rotation op' op) eqn:Hsame; [| reflexivity].
           destruct (Hcov op' Hop'_pre) as (r & Hr & Hr').
           assert (same_rotation op r = true).
           { apply (classes_trans op op' r); auto.
             apply classes_sym; auto. }
           rewrite (Hnot r Hr) in *. discriminate.
Qed.

Lemma representatives_invariant_all :
  representatives_invariant ops (representatives ops).
Proof.
  apply (representatives_invariant_prefix ops []). rewrite app_nil_r. reflexivity.
Qed.

Lemma representatives_one (op : SymmetryOperator) :
  In op ops -> one_representative (representatives ops) op.
Proof.
  intros Hop. destruct representatives_invariant_all as [Hsub Hcov Hdis _].
  assert (Hin_reps : forall x, In x (representatives ops) -> In x ops).
  { intros x Hx. apply list_elem_of_In.
    apply (sublist_subseteq _ _ Hsub), list_elem_of_In, Hx. }
  destruct (Hcov op Hop) as (r & Hr & Hsame).
  pose proof Hr as Hr'. apply list_elem_of_In, list_elem_of_lookup in Hr' as [k Hk].
  exists k, r. split; [exact Hk |]. split; [exact Hsame |].
  intros k' r' Hk' Hsame'.
  assert (Hr'_in : In r' (representatives ops)).
  { apply list_elem_of_In, list_elem_of_lookup. eauto. }
  assert (H1 : same_rotation r r' = true).
  { apply (classes_trans r op r'); auto. apply classes_sym; auto. }
  assert (H2 : same_rotation r' r = true) by (apply classes_sym; auto).
  destruct (Nat.lt_trichotomy k' k) as [Hlt | [Heq | Hlt]]; [| exact Heq |].
  - rewrite (Hdis k' k r' r Hlt Hk' Hk) in H1. discriminate.
  - rewrite (Hdis k k' r r' Hlt Hk Hk') in H2. discriminate.
Qed.

End Classes.

Lemma decompose_representatives (G G' : SpaceGroup) :
  decompose G = Return G' ->
  representative_symmetry_operators_ G' = representatives (symmetry_operators_ G).
Proof. intros HG'. apply (decompose_Return _ _ HG'). Qed.

(** C7.  After [decompose()], when the rotations of the operators fall
    into classes of one rotation up to sign, the representative
    operators are operators of the list, in the order of the list;
    every operator has the rotation, up to sign, of exactly one
    representative; and each representative is the first operator of
    the list with its rotation up to sign. *)
Theorem decompose_keeps_first_of_each_rotation (G G' : SpaceGroup) :
  rotation_classes (symmetry_operators_ G) = true ->
  decompose G = Return G' ->
  sublist (representative_symmetry_operators_ G') (symmetry_operators_ G') /\
  (forall op, In op (symmetry_operators_ G') ->
     one_representative (representative_symmetry_operators_ G') op) /\
  (forall r, In r (representative_symmetry_operators_ G') ->
     first_of_its_rotation (symmetry_operators_ G') r).
Proof.
  intros Hclasses HG'.
  rewrite (decompose_representatives _ _ HG').
  assert (Hops : symmetry_operators_ G' = symmetry_operators_ G)
    by (apply decompose_symmetry_operators, HG').
  rewrite Hops.
  destruct (representatives_invariant_all _ Hclasses) as [Hsub _ _ Hfirst].
  split; [exact Hsub |]. split; [| exact Hfirst].
  intros op Hop. apply representatives_one; assumption.
Qed.

End Representatives.

Section CrystalSystem.

Context `{SymmetryLibrary}.

Lemma count_rotation_cases (t : tally) (op : SymmetryOperator) :
  let n := Z.abs (rotation_part_type op) in
  count_rotation t op =
  mkTally (sum_2 t + (if Z.eqb n 2 then 1 else 0))
          (sum_3 t + (if Z.eqb n 3 then 1 else 0))
          (sum_4 t + (if Z.eqb n 4 then 1 else 0))
          (sum_6 t + (if Z.eqb n 6 then 1 else 0)).
Proof.
  unfold count_rotation. destruct t as [t2 t3 t4 t6]. simpl.
  destruct (Z.abs (rotation_part_type op)) as [| p | p]; simpl;
    try (f_equal; lia);
    do 3 (try destruct p as [p | p |]; simpl; try (f_equal; lia)).
Qed.

Lemma tally_counts (v : list SymmetryOperator) (t : tally) :
  fold_left count_rotation v t =
  mkTally (sum_2 t + count_order 2 v) (sum_3 t + count_order 3 v)
          (sum_4 t + count_order 4 v) (sum_6 t + count_order 6 v).
Proof.
  revert t. induction v as [| op v IH]; intros t.
  - destruct t. unfold count_order. simpl. f_equal; lia.
  - cbn [fold_left]. rewrite IH, count_rotation_cases. unfold count_order.
    cbn [List.filter sum_2 sum_3 sum_4 sum_6].
    destruct (Z.eqb _ 2), (Z.eqb _ 3), (Z.eqb _ 4), (Z.eqb _ 6);
      cbn [length]; f_equal; lia.
Qed.

(** C5.  [crystal_system()] returns "triclinic" exactly when there is
    one representative operator; otherwise, with the numbers of
    representatives of rotation order 2, 3, 4 and 6 (the sign of
    [rotation_part_type] dropped), it returns the first of: "cubic"
    for eight of order 3, "hexagonal" for two of order 6, "trigonal"
    for two of order 3, "tetragonal" for two of order 4, "orthorhombic"
    for three of order 2, "monoclinic" for one of order 2; and it
    throws when none of these holds. *)
Theorem crystal_system_classification (G : SpaceGroup) :
  let reps := representative_symmetry_operators_ G in
  let n2 := count_order 2 reps in
  let n3 := count_order 3 reps in
  let n4 := count_order 4 reps in
  let n6 := count_order 6 reps in
  (crystal_system G = Return "triclinic"%string <-> length reps = 1%nat) /\
  (length reps <> 1%nat ->
   (n3 = 8%nat -> crystal_system G = Return "cubic"%string) /\
   (n3 <> 8%nat -> n6 = 2%nat -> crystal_system G = Return "hexagonal"%string) /\
   (n3 <> 8%nat -> n6 <> 2%nat -> n3 = 2%nat ->
      crystal_system G = Return "trigonal"%string) /\
   (n3 <> 8%nat -> n6 <> 2%nat -> n3 <> 2%nat -> n4 = 2%nat ->
      crystal_system G = Return "tetragonal"%string) /\
   (n3 <> 8%nat -> n6 <> 2%nat -> n3 <> 2%nat -> n4 <> 2%nat -> n2 = 3%nat ->
      crystal_system G = Return "orthorhombic"%string) /\
   (n3 <> 8%nat -> n6 <> 2%nat -> n3 <> 2%nat -> n4 <> 2%nat -> n2 <> 3%nat ->
      n2 = 1%nat -> crystal_system G = Return "monoclinic"%string) /\
   (n3 <> 8%nat -> n6 <> 2%nat -> n3 <> 2%nat -> n4 <> 2%nat -> n2 <> 3%nat ->
      n2 <> 1%nat ->
      crystal_system G = Throw (runtime_error
        "SpaceGroup::crystal_system(): we should never be here."))).
Proof.
  intros reps n2 n3 n4 n6. unfold crystal_system. fold reps.
  rewrite tally_counts. cbn [sum_2 sum_3 sum_4 sum_6].
  change (0 + count_order 2 reps)%nat with n2.
  change (0 + count_order 3 reps)%nat with n3.
  change (0 + count_order 4 reps)%nat with n4.
  change (0 + count_order 6 reps)%nat with n6.
  destruct (Nat.eqb_spec (length reps) 1) as [Hone | Hone].
  - split; [tauto | contradiction].
  - split.
    + split; [| contradiction].
      destruct (Nat.eqb n3 8), (Nat.eqb n6 2), (Nat.eqb n3 2), (Nat.eqb n4 2),
        (Nat.eqb n2 3), (Nat.eqb n2 1); discriminate.
    + intros _.
      destruct (Nat.eqb_spec n3 8), (Nat.eqb_spec n6 2), (Nat.eqb_spec n3 2),
        (Nat.eqb_spec n4 2), (Nat.eqb_spec n2 3), (Nat.eqb_spec n2 1);
        repeat split; intros; try reflexivity; try contradiction; try lia.
Qed.

End CrystalSystem.

Section Matcher.

Context `{SymmetryLibrary} `{StructureLibrary}.
Variable save_cif : CrystalStructure -> string -> result unit.

(** C9.  [atom( i )] is total: for an index at or beyond the number of
    atoms it throws its [runtime_error], without reading the vector,
    and for an index below it returns the atom stored at [i]. *)
Theorem atom_total (S : CrystalStructure) (i : nat) :
  ((natoms S <= i)%nat ->
   atom S i = Throw (runtime_error
     "CrystalStructure::atom( size_t ): i >= atoms_.size()")) /\
  ((i < natoms S)%nat ->
   exists a, atoms_ S !! i = Some a /\ atom S i = Return a).
Proof.
  unfold atom, natoms. split; intros Hi.
  - destruct (Nat.leb_spec (length (atoms_ S)) i); [reflexivity | lia].
  - destruct (Nat.leb_spec (length (atoms_ S)) i); [lia |].
    destruct (lookup_lt_is_Some_2 (atoms_ S) i Hi) as [a Ha].
    exists a. rewrite Ha. auto.
Qed.

(** C8.  With different numbers of atoms [root_mean_square_Cartesian_displacement],
    [RMSCD_with_matching] and [find_match] throw their [runtime_error],
    whatever the other arguments are. *)
Theorem comparisons_check_atom_counts (lhs rhs : CrystalStructure) :
  natoms lhs <> natoms rhs ->
  root_mean_square_Cartesian_displacement lhs rhs
  = Throw (runtime_error
      "root_mean_square_Cartesian_displacement(): number of atoms is not the same.")
  /\
  (forall fuel add_shifts,
     RMSCD_with_matching save_cif fuel lhs rhs add_shifts
     = Throw (runtime_error
         "RMSCD_with_matching(): numbers of atoms are not the same."))
  /\
  (forall fuel shift_steps integer_shifts add_inversion correct_floating_axes,
     find_match fuel lhs rhs shift_steps integer_shifts add_inversion
       correct_floating_axes
     = Throw (runtime_error "find_match(): numbers of atoms are not the same.")).
Proof.
  intros Hcount.
  assert (H1 : Nat.eqb (natoms lhs) (natoms rhs) = false)
    by (apply Nat.eqb_neq; exact Hcount).
  assert (H2 : Nat.eqb (natoms rhs) (natoms lhs) = false)
    by (apply Nat.eqb_neq; congruence).
  split; [| split]; intros.
  - unfold root_mean_square_Cartesian_displacement. rewrite H1. reflexivity.
  - unfold RMSCD_with_matching. rewrite H2. reflexivity.
  - unfold find_match. rewrite H2. reflexivity.
Qed.

(** C10.  When both structures have no atoms, [find_match] returns the
    default symmetry operator without throwing, and [integer_shifts]
    is as the caller passed it. *)
Theorem find_match_without_atoms (fuel : nat) (lhs rhs : CrystalStructure)
    (shift_steps : nat) (integer_shifts : list Z)
    (add_inversion correct_floating_axes : bool) :
  natoms lhs = 0%nat -> natoms rhs = 0%nat ->
  find_match fuel lhs rhs shift_steps integer_shifts add_inversion
    correct_floating_axes
  = Return (identity_operator, integer_shifts).
Proof.
  intros Hlhs Hrhs. unfold find_match. rewrite Hlhs, Hrhs. reflexivity.
Qed.

End Matcher.

(* ================================================================== *)
(** * Properties of the other functions *)

(** ** The enclosing box *)

Lemma double_min_le_l (a b : double) : double_min a b <= a.
Proof.
  unfold double_min. destruct (double_lt b a) eqn:Hlt.
  - apply Qclt_le_weak, double_lt_spec, Hlt.
  - apply Qcle_refl.
Qed.

Lemma double_min_le_r (a b : double) : double_min a b <= b.
Proof.
  unfold double_min. destruct (double_lt b a) eqn:Hlt.
  - apply Qcle_refl.
  - apply Qcnot_lt_le. intros Hba. apply double_lt_spec in Hba. congruence.
Qed.

Lemma double_max_ge_l (a b : double) : a <= double_max a b.
Proof.
  unfold double_max. destruct (double_lt a b) eqn:Hlt.
  - apply Qclt_le_weak, double_lt_spec, Hlt.
  - apply Qcle_refl.
Qed.

Lemma double_max_ge_r (a b : double) : b <= double_max a b.
Proof.
  unfold double_max. destruct (double_lt a b) eqn:Hlt.
  - apply Qcle_refl.
  - apply Qcnot_lt_le. intros Hab. apply double_lt_spec in Hab. congruence.
Qed.

Lemma double_min_cases (a b : double) : double_min a b = a \/ double_min a b = b.
Proof. unfold double_min. destruct (double_lt b a); auto. Qed.

Lemma double_max_cases (a b : double) : double_max a b = a \/ double_max a b = b.
Proof. unfold double_max. destruct (double_lt a b); auto. Qed.

Lemma enclose_new (box : Vector3D * Vector3D) (p : Vector3D) :
  in_box (enclose box p) p.
Proof.
  unfold in_box, enclose. cbn [fst snd v_x v_y v_z].
  repeat split; first [apply double_min_le_r | apply double_max_ge_r].
Qed.

Lemma enclose_old (box : Vector3D * Vector3D) (p q : Vector3D) :
  in_box box q -> in_box (enclose box p) q.
Proof.
  unfold in_box, enclose. cbn [fst snd v_x v_y v_z].
  intros ((Hx1 & Hx2) & (Hy1 & Hy2) & (Hz1 & Hz2)).
  repeat split;
    first [eapply Qcle_trans; [apply double_min_le_l | eassumption]
          | eapply Qcle_trans; [eassumption | apply double_max_ge_l]].
Qed.

Lemma enclosing_box_corners (L : CrystalLattice) :
  Forall (in_box (enclosing_box L)) (corners L).
Proof.
  unfold enclosing_box, corners.
  repeat apply Forall_cons; try apply Forall_nil;
    repeat first [apply enclose_new | apply enclose_old].
  unfold in_box, zero_vector. cbn [fst snd v_x v_y v_z].
  repeat split; apply Qcle_refl.
Qed.

(** A value between the values at the two ends of a segment. *)
Lemma convex_lower (m p q u : Qc) :
  m <= p -> m <= q -> 0 <= u -> u <= 1 -> m <= (1 - u) * p + u * q.
Proof.
  intros Hp Hq Hu0 Hu1. apply Qc_difference_le.
  replace ((1 - u) * p + u * q - m) with ((1 - u) * (p - m) + u * (q - m)) by ring.
  apply Qc_sum_nonneg; apply Qc_product_nonneg;
    auto using Qc_le_difference.
Qed.

Lemma convex_upper (m p q u : Qc) :
  p <= m -> q <= m -> 0 <= u -> u <= 1 -> (1 - u) * p + u * q <= m.
Proof.
  intros Hp Hq Hu0 Hu1. apply Qc_difference_le.
  replace (m - ((1 - u) * p + u * q)) with ((1 - u) * (m - p) + u * (m - q)) by ring.
  apply Qc_sum_nonneg; apply Qc_product_nonneg;
    auto using Qc_le_difference.
Qed.

(** A linear function on the unit cube lies between its values at the
    eight corners. *)
Lemma cube_lower (m A B C u v w : Qc) :
  m <= 0 -> m <= C -> m <= B -> m <= B + C ->
  m <= A -> m <= A + C -> m <= A + B -> m <= A + B + C ->
  0 <= u -> u <= 1 -> 0 <= v -> v <= 1 -> 0 <= w -> w <= 1 ->
  m <= u * A + v * B + w * C.
Proof.
  intros H000 H001 H010 H011 H100 H101 H110 H111 Hu0 Hu1 Hv0 Hv1 Hw0 Hw1.
  replace (u * A + v * B + w * C)
    with ((1 - u) * ((1 - v) * ((1 - w) * 0 + w * C)
                     + v * ((1 - w) * B + w * (B + C)))
          + u * ((1 - v) * ((1 - w) * A + w * (A + C))
                 + v * ((1 - w) * (A + B) + w * (A + B + C)))) by ring.
  do 3 (apply convex_lower; try assumption).
Qed.

Lemma cube_upper (m A B C u v w : Qc) :
  0 <= m -> C <= m -> B <= m -> B + C <= m ->
  A <= m -> A + C <= m -> A + B <= m -> A + B + C <= m ->
  0 <= u -> u <= 1 -> 0 <= v -> v <= 1 -> 0 <= w -> w <= 1 ->
  u * A + v * B + w * C <= m.
Proof.
  intros H000 H001 H010 H011 H100 H101 H110 H111 Hu0 Hu1 Hv0 Hv1 Hw0 Hw1.
  replace (u * A + v * B + w * C)
    with ((1 - u) * ((1 - v) * ((1 - w) * 0 + w * C)
                     + v * ((1 - w) * B + w * (B + C)))
          + u * ((1 - v) * ((1 - w) * A + w * (A + C))
                 + v * ((1 - w) * (A + B) + w * (A + B + C)))) by ring.
  do 3 (apply convex_upper; try assumption).
Qed.

Lemma enclosing_box_fold (L : CrystalLattice) :
  enclosing_box L = fold_left enclose (tl (corners L)) (zero_vector, zero_vector).
Proof. reflexivity. Qed.

(** A bound that each step keeps or takes from the new point is, at the
    end, the bound of the start or the coordinate of one of the
    points. *)
Lemma fold_enclose_attained (g : Vector3D * Vector3D -> double)
    (f : Vector3D -> double) (pts : list Vector3D) (box : Vector3D * Vector3D) :
  (forall box p, g (enclose box p) = g box \/ g (enclose box p) = f p) ->
  In (g (fold_left enclose pts box)) (g box :: map f pts).
Proof.
  intros Hstep. revert box. induction pts as [| p pts IH]; intros box; simpl.
  - left. reflexivity.
  - destruct (IH (enclose box p)) as [Hkeep | Hin].
    + rewrite <- Hkeep. destruct (Hstep box p) as [-> | ->]; auto.
    + right. right. exact Hin.
Qed.

Lemma enclosing_box_attained (g : Vector3D * Vector3D -> double)
    (f : Vector3D -> double) (L : CrystalLattice) :
  (forall box p, g (enclose box p) = g box \/ g (enclose box p) = f p) ->
  g (zero_vector, zero_vector) = f zero_vector ->
  In (g (enclosing_box L)) (map f (corners L)).
Proof.
  intros Hstep Hzero. rewrite enclosing_box_fold.
  pose proof (fold_enclose_attained g f (tl (corners L)) (zero_vector, zero_vector) Hstep)
    as Hin.
  rewrite Hzero in Hin. exact Hin.
Qed.

(** X1.  [enclosing_box] returns the smallest box with edges along the
    Cartesian axes that holds the unit cell: every point of the cell,
    [u a + v b + w c] with [u], [v], [w] from 0 to 1, lies between
    [min_min_min] and [max_max_max], and each of the six bounds is the
    coordinate of one of the eight corners of the cell. *)
Theorem enclosing_box_encloses_cell (L : CrystalLattice) :
  (forall u v w, 0 <= u -> u <= 1 -> 0 <= v -> v <= 1 -> 0 <= w -> w <= 1 ->
     in_box (enclosing_box L) (cell_point L u v w)) /\
  In (v_x (enclosing_box L).1) (map v_x (corners L)) /\
  In (v_y (enclosing_box L).1) (map v_y (corners L)) /\
  In (v_z (enclosing_box L).1) (map v_z (corners L)) /\
  In (v_x (enclosing_box L).2) (map v_x (corners L)) /\
  In (v_y (enclosing_box L).2) (map v_y (corners L)) /\
  In (v_z (enclosing_box L).2) (map v_z (corners L)).
Proof.
  split.
  - intros u v w Hu0 Hu1 Hv0 Hv1 Hw0 Hw1.
    pose proof (enclosing_box_corners L) as Hc. unfold corners in Hc.
    repeat match goal with
           | H : Forall _ (_ :: _) |- _ =>
               apply Forall_cons_1 in H; destruct H as [? H]
           end.
    clear Hc.
    repeat match goal with
           | H : in_box _ _ |- _ =>
               destruct H as ((? & ?) & (? & ?) & (? & ?))
           end.
    unfold in_box, cell_point, zero_vector, Vector3D_add, Vector3D_scale in *.
    cbn [v_x v_y v_z] in *.
    repeat split; first [apply cube_lower | apply cube_upper]; assumption.
  - assert (Hmin : forall f : Vector3D -> double,
              (forall box p, f (enclose box p).1 = double_min (f box.1) (f p)) ->
              f zero_vector = 0 ->
              In (f (enclosing_box L).1) (map f (corners L))).
    { intros f Hf Hzero.
      apply (enclosing_box_attained (fun box => f box.1) f); [| reflexivity].
      intros box p. rewrite Hf. apply double_min_cases. }
    assert (Hmax : forall f : Vector3D -> double,
              (forall box p, f (enclose box p).2 = double_max (f box.2) (f p)) ->
              f zero_vector = 0 ->
              In (f (enclosing_box L).2) (map f (corners L))).
    { intros f Hf Hzero.
      apply (enclosing_box_attained (fun box => f box.2) f); [| reflexivity].
      intros box p. rewrite Hf. apply double_max_cases. }
    repeat split; first [apply Hmin | apply Hmax]; reflexivity.
Qed.

(** ** The metric of the basis vectors *)

(** X2.  The basis vectors that the constructor builds have the lengths and
    the angles of the cell: with [D = Downs_D] the matrix of the three
    vectors, [D^T D] is the metric matrix, whenever [gamma] has
    [cos^2 + sin^2 = 1], [b sin gamma] is not zero and the [sqrt] of
    line 67 returned an exact root.  [Downs_G] is the same matrix and
    [Downs_D] is the matrix that [fractional_to_orthogonal] applies. *)
Theorem constructor_basis_has_cell_metric (sqrt : double -> double)
    (a b c : double) (alpha beta gamma : Angle) :
  let L := CrystalLattice_of_cell sqrt a b c alpha beta gamma in
  cosine gamma * cosine gamma + sine gamma * sine gamma = 1 ->
  b * sine gamma <> 0 ->
  square (v_z (c_vector_ L))
  = square c - square (v_x (c_vector_ L)) - square (v_y (c_vector_ L)) ->
  Matrix3D_mul (Matrix3D_transpose (Downs_D L)) (Downs_D L) = metric_matrix L /\
  Downs_G L = metric_matrix L /\
  Downs_D L = fractional_to_orthogonal_matrix_ L.
Proof.
  intros L Hgamma Hb Hz.
  split; [| split; reflexivity].
  unfold L, CrystalLattice_of_cell in *.
  unfold Matrix3D_mul, Matrix3D_transpose, Downs_D, metric_matrix.
  cbn [a_ b_ c_ alpha_ beta_ gamma_ a_vector_ b_vector_ c_vector_
       v_x v_y v_z m00 m01 m02 m10 m11 m12 m20 m21 m22] in *.
  set (y := (b * c * cosine alpha - b * cosine gamma * (c * cosine beta))
            / (b * sine gamma)) in *.
  set (z := sqrt _) in *.
  assert (Hy : b * sine gamma * y
               = b * c * cosine alpha - b * cosine gamma * (c * cosine beta)).
  { unfold y, double. field.
    split; intros Hzero; apply Hb; rewrite Hzero; unfold double; ring. }
  assert (Hbb : b * cosine gamma * (b * cosine gamma)
                + b * sine gamma * (b * sine gamma) = b * b).
  { replace (b * cosine gamma * (b * cosine gamma)
             + b * sine gamma * (b * sine gamma))
      with (b * b * (cosine gamma * cosine gamma + sine gamma * sine gamma))
      by (unfold double; ring).
    rewrite Hgamma. unfold double. ring. }
  unfold square in Hz.
  f_equal; unfold double in *.
  - ring.
  - ring.
  - ring.
  - ring.
  - replace (b * cosine gamma * (b * cosine gamma) + b * sine gamma * (b * sine gamma)
             + 0 * 0)
      with (b * cosine gamma * (b * cosine gamma) + b * sine gamma * (b * sine gamma))
      by ring.
    exact Hbb.
  - replace (b * cosine gamma * (c * cosine beta) + b * sine gamma * y + 0 * z)
      with (b * cosine gamma * (c * cosine beta) + b * sine gamma * y) by ring.
    rewrite Hy. ring.
  - ring.
  - replace (c * cosine beta * (b * cosine gamma) + y * (b * sine gamma) + z * 0)
      with (b * cosine gamma * (c * cosine beta) + b * sine gamma * y) by ring.
    rewrite Hy. ring.
  - rewrite Hz. ring.
Qed.

(** X3.  The three rows of the matrix of [for_CASTEP] have the lengths and
    the angles of the cell as well: with [M] that matrix, [M M^T] is the
    metric matrix, whenever [alpha] has [cos^2 + sin^2 = 1],
    [b sin alpha] is not zero and the [sqrt] of line 190 returned an
    exact root. *)
Theorem for_CASTEP_has_cell_metric (sqrt : double -> double) (L : CrystalLattice) :
  let M := for_CASTEP sqrt L in
  cosine (alpha_ L) * cosine (alpha_ L) + sine (alpha_ L) * sine (alpha_ L) = 1 ->
  b_ L * sine (alpha_ L) <> 0 ->
  square (m00 M) = square (a_ L) - square (m02 M) - square (m01 M) ->
  Matrix3D_mul M (Matrix3D_transpose M) = metric_matrix L.
Proof.
  intros M Halpha Hb Hx.
  unfold M, for_CASTEP in *.
  unfold Matrix3D_mul, Matrix3D_transpose, metric_matrix.
  cbn [v_x v_y v_z m00 m01 m02 m10 m11 m12 m20 m21 m22] in *.
  destruct L as [a b c alpha beta gamma a_vector b_vector c_vector matrix].
  cbn [a_ b_ c_ alpha_ beta_ gamma_] in *.
  set (y := (b * a * cosine gamma - b * cosine alpha * (a * cosine beta))
            / (b * sine alpha)) in *.
  set (x := sqrt _) in *.
  assert (Hy : b * sine alpha * y
               = b * a * cosine gamma - b * cosine alpha * (a * cosine beta)).
  { unfold y, double. field.
    split; intros Hzero; apply Hb; rewrite Hzero; unfold double; ring. }
  assert (Hbb : b * sine alpha * (b * sine alpha)
                + b * cosine alpha * (b * cosine alpha) = b * b).
  { replace (b * sine alpha * (b * sine alpha)
             + b * cosine alpha * (b * cosine alpha))
      with (b * b * (cosine alpha * cosine alpha + sine alpha * sine alpha))
      by (unfold double; ring).
    rewrite Halpha. unfold double. ring. }
  unfold square in Hx.
  f_equal; unfold double in *.
  - rewrite Hx. ring.
  - replace (x * 0 + y * (b * sine alpha) + a * cosine beta * (b * cosine alpha))
      with (b * sine alpha * y + b * cosine alpha * (a * cosine beta)) by ring.
    rewrite Hy. ring.
  - ring.
  - replace (0 * x + b * sine alpha * y + b * cosine alpha * (a * cosine beta))
      with (b * sine alpha * y + b * cosine alpha * (a * cosine beta)) by ring.
    rewrite Hy. ring.
  - replace (0 * 0 + b * sine alpha * (b * sine alpha)
             + b * cosine alpha * (b * cosine alpha))
      with (b * sine alpha * (b * sine alpha)
            + b * cosine alpha * (b * cosine alpha)) by ring.
    exact Hbb.
  - ring.
  - ring.
  - ring.
  - ring.
Qed.

(** ** The lattice system *)

Section LatticeSystemProperties.

Context `{SymmetryLibrary}.
Variable nearly_equal_Angle : Angle -> Angle -> bool.
Variable angle_120_degrees : Angle.

(** X4.  What [deduce_lattice_system] returns, outcome by outcome, in terms
    of the comparisons it makes: it never returns [TRIGONAL]; the three
    systems with right angles and the rhombohedral one need the three
    angles nearly equal; the hexagonal one is only reached when they are
    not; the monoclinic one needs two angles of nearly 90 degrees, and
    allows the third one to be so too. *)
Theorem deduce_lattice_system_outcomes (L : CrystalLattice) :
  let system := deduce_lattice_system nearly_equal_Angle angle_120_degrees L in
  let angles_equal :=
    nearly_equal_Angle (alpha_ L) (beta_ L)
    && nearly_equal_Angle (alpha_ L) (gamma_ L) in
  let alpha_is_90 := nearly_equal_Angle (alpha_ L) angle_90_degrees in
  let beta_is_90 := nearly_equal_Angle (beta_ L) angle_90_degrees in
  let gamma_is_90 := nearly_equal_Angle (gamma_ L) angle_90_degrees in
  let ab_equal := nearly_equal_double (a_ L) (b_ L) in
  let ac_equal := nearly_equal_double (a_ L) (c_ L) in
  system <> TRIGONAL /\
  LatticeSystem2string system <> "Trigonal"%string /\
  (system = CUBIC <->
   angles_equal && alpha_is_90 && ab_equal && ac_equal = true) /\
  (system = TETRAGONAL <->
   angles_equal && alpha_is_90 && ab_equal && negb ac_equal = true) /\
  (system = ORTHORHOMBIC <->
   angles_equal && alpha_is_90 && negb ab_equal = true) /\
  (system = RHOMBOHEDRAL <->
   angles_equal && negb alpha_is_90 && ab_equal && ac_equal = true) /\
  (system = HEXAGONAL <->
   negb angles_equal && ab_equal && alpha_is_90 && beta_is_90
   && nearly_equal_Angle (gamma_ L) angle_120_degrees = true) /\
  (system = MONOCLINIC ->
   (alpha_is_90 && beta_is_90) || (alpha_is_90 && gamma_is_90)
   || (beta_is_90 && gamma_is_90) = true).
Proof.
  unfold deduce_lattice_system.
  destruct (nearly_equal_Angle (alpha_ L) (beta_ L)),
           (nearly_equal_Angle (alpha_ L) (gamma_ L)),
           (nearly_equal_Angle (alpha_ L) angle_90_degrees),
           (nearly_equal_Angle (beta_ L) angle_90_degrees),
           (nearly_equal_Angle (gamma_ L) angle_90_degrees),
           (nearly_equal_Angle (gamma_ L) angle_120_degrees),
           (nearly_equal_double (a_ L) (b_ L)),
           (nearly_equal_double (a_ L) (c_ L));
    cbn; repeat split; intros; congruence.
Qed.

End LatticeSystemProperties.

(** ** Fractional and Cartesian coordinates *)

Lemma Matrix3D_mul_vec_assoc (n m : Matrix3D) (v : Vector3D) :
  Matrix3D_mul_vec n (Matrix3D_mul_vec m v) = Matrix3D_mul_vec (Matrix3D_mul n m) v.
Proof.
  unfold Matrix3D_mul_vec, Matrix3D_mul.
  cbn [v_x v_y v_z m00 m01 m02 m10 m11 m12 m20 m21 m22].
  f_equal; unfold double; ring.
Qed.

Lemma Matrix3D_mul_vec_identity (v : Vector3D) :
  Matrix3D_mul_vec identity_matrix v = v.
Proof.
  destruct v as [x y z]. unfold Matrix3D_mul_vec, identity_matrix, Matrix3D_diag.
  cbn [v_x v_y v_z m00 m01 m02 m10 m11 m12 m20 m21 m22].
  f_equal; unfold double; ring.
Qed.

(** X5.  [orthogonal_to_fractional] undoes [fractional_to_orthogonal], and
    the other way round, whenever [invert] in the constructor returned
    a matrix that is the inverse on both sides. *)
Theorem coordinates_round_trip (invert : Matrix3D -> Matrix3D)
    (L : CrystalLattice) (v : Vector3D) :
  Matrix3D_mul (invert (fractional_to_orthogonal_matrix_ L))
    (fractional_to_orthogonal_matrix_ L) = identity_matrix ->
  Matrix3D_mul (fractional_to_orthogonal_matrix_ L)
    (invert (fractional_to_orthogonal_matrix_ L)) = identity_matrix ->
  orthogonal_to_fractional invert L (fractional_to_orthogonal L v) = v /\
  fractional_to_orthogonal L (orthogonal_to_fractional invert L v) = v.
Proof.
  intros Hleft Hright.
  unfold orthogonal_to_fractional, orthogonal_to_fractional_matrix,
    fractional_to_orthogonal.
  rewrite !Matrix3D_mul_vec_assoc, Hleft, Hright.
  split; apply Matrix3D_mul_vec_identity.
Qed.

(** The inverse of the numeric library is one on both sides when the
    determinant is not zero. *)
Lemma Matrix3D_inverse_both_sides (m : Matrix3D) :
  determinant m <> 0 ->
  Matrix3D_mul (Matrix3D_inverse m) m = identity_matrix /\
  Matrix3D_mul m (Matrix3D_inverse m) = identity_matrix.
Proof.
  intros Hdet. destruct m as [a b c d e f g h i].
  unfold Matrix3D_inverse, Matrix3D_mul, Matrix3D_scale, identity_matrix,
    Matrix3D_diag, determinant in *.
  cbn [m00 m01 m02 m10 m11 m12 m20 m21 m22] in *.
  split; f_equal; unfold double in *; field; exact Hdet.
Qed.

(** ** The distance in an orthogonal cell *)

Lemma translate_distance2_swap (L : CrystalLattice) (lhs rhs : Vector3D) (i j k : Z) :
  translate_distance2 L rhs lhs i j k
  = translate_distance2 L lhs rhs (- i) (- j) (- k).
Proof.
  unfold translate_distance2, norm2, fractional_to_orthogonal, Matrix3D_mul_vec,
    Vector3D_add, Vector3D_sub, Vector3D_of_ints.
  cbn [v_x v_y v_z]. rewrite !of_int_opp. unfold double. ring.
Qed.

(** X6.  In an orthogonal cell, with an [adjust_for_translations] that moves
    by integers, [shortest_distance2] does return the minimum-image
    distance: from some amount of fuel on it returns the smallest
    squared length among all the translates of [rhs - lhs] by integer
    vectors, which one of them has, and it returns the same number when
    the two positions are exchanged. *)
Theorem orthogonal_cell_shortest_distance (adjust : Vector3D -> Vector3D)
    (L : CrystalLattice) (lhs rhs : Vector3D) :
  integer_shift adjust ->
  orthogonal L ->
  exists (n : nat) (s : double),
    (forall k, shortest_distance2 adjust (n + k) L lhs rhs = Some s) /\
    (forall k, shortest_distance2 adjust (n + k) L rhs lhs = Some s) /\
    (exists i j k, s = translate_distance2 L lhs rhs i j k) /\
    (forall i j k, s <= translate_distance2 L lhs rhs i j k).
Proof.
  intros Hadjust Horth.
  destruct (descend_terminates L (adjust (Vector3D_sub rhs lhs)))
    as (n1 & [s1 d1] & H1).
  destruct (descend_terminates L (adjust (Vector3D_sub lhs rhs)))
    as (n2 & [s2 d2] & H2).
  assert (Hrun1 : forall k,
            shortest_distance2 adjust (Nat.max n1 n2 + k) L lhs rhs = Some s1).
  { intros k. eapply shortest_distance2_descend, H1. lia. }
  assert (Hrun2 : forall k,
            shortest_distance2 adjust (Nat.max n1 n2 + k) L rhs lhs = Some s2).
  { intros k. eapply shortest_distance2_descend, H2. lia. }
  destruct (orthogonal_cell_minimum_image adjust _ L lhs rhs s1 Hadjust Horth
              (Hrun1 0%nat)) as ((i1 & j1 & k1 & Hs1) & Hmin1).
  destruct (orthogonal_cell_minimum_image adjust _ L rhs lhs s2 Hadjust Horth
              (Hrun2 0%nat)) as ((i2 & j2 & k2 & Hs2) & Hmin2).
  assert (Heq : s2 = s1).
  { apply Qcle_antisym.
    - rewrite Hs1.
      replace i1 with (- - i1)%Z by lia. replace j1 with (- - j1)%Z by lia.
      replace k1 with (- - k1)%Z by lia.
      rewrite <- translate_distance2_swap. apply Hmin2.
    - rewrite Hs2, translate_distance2_swap. apply Hmin1. }
  exists (Nat.max n1 n2), s1. rewrite Heq in Hrun2.
  split; [exact Hrun1 |]. split; [exact Hrun2 |].
  split; [exists i1, j1, k1; exact Hs1 | exact Hmin1].
Qed.

(** ** The decomposition of a space group *)

Lemma fold_result_app {A S : Type} (body : S -> A -> result S) (u v : list A) (s : S) :
  fold_result body (u ++ v) s
  = bind (fold_result body u s) (fold_result body v).
Proof.
  revert s. induction u as [| a u IH]; intros s; simpl; [reflexivity |].
  destruct (body s a) as [s' | e]; simpl; [apply IH | reflexivity].
Qed.

Lemma fold_result_ext_in {A S : Type} (f g : S -> A -> result S) (l : list A) (s : S) :
  (forall s x, In x l -> f s x = g s x) ->
  fold_result f l s = fold_result g l s.
Proof.
  revert s. induction l as [| a l IH]; intros s Hfg; simpl; [reflexivity |].
  rewrite (Hfg s a (or_introl eq_refl)).
  destruct (g s a) as [s' | e]; simpl; [| reflexivity].
  apply IH. intros s0 x Hx. apply Hfg. right. exact Hx.
Qed.

(** A loop that keeps an invariant and whose body returns under it
    returns, with the invariant. *)
Lemma fold_result_invariant {A S : Type} (P : S -> Prop) (body : S -> A -> result S)
    (l : list A) (s : S) :
  P s ->
  (forall s x, In x l -> P s -> exists s', body s x = Return s' /\ P s') ->
  exists s', fold_result body l s = Return s' /\ P s'.
Proof.
  revert s. induction l as [| a l IH]; intros s Hs Hbody; simpl; [eauto |].
  destruct (Hbody s a (or_introl eq_refl) Hs) as (s1 & -> & Hs1). simpl.
  apply IH; [exact Hs1 |]. intros s0 x Hx. apply Hbody. right. exact Hx.
Qed.


Section DecomposeProperties.

Context `{SymmetryLibrary}.

Lemma classify_expected (c : classification) (op : SymmetryOperator) :
  expected_determinant op = true ->
  classify c op
  = Return (mkClassification
      (centring_vectors c
       ++ (if pure_translation op then [translation op] else []))
      (inversion_translation_vectors c
       ++ (if inversion_centre op then [translation op] else []))
      (has_inversion c || inversion_centre op)
      (if proper op then S (nproper c) else nproper c)
      (if proper op then nimproper c else S (nimproper c))).
Proof.
  unfold expected_determinant, classify, pure_translation, inversion_centre, proper.
  destruct c as [cv iv hi np ni]. cbn [centring_vectors inversion_translation_vectors
    has_inversion nproper nimproper].
  destruct (nearly_equal_double (determinant (rotation op)) 1); cbn.
  - intros _. destruct (nearly_equal_Matrix3D (rotation op) identity_matrix);
      rewrite ?app_nil_r, ?orb_false_r; reflexivity.
  - intros ->.
    destruct (nearly_equal_Matrix3D (rotation op) (Matrix3D_diag (- 1)));
      rewrite ?app_nil_r, ?orb_false_r, ?orb_true_r; reflexivity.
Qed.

Lemma classify_unexpected (c : classification) (op : SymmetryOperator) :
  expected_determinant op = false ->
  classify c op
  = Throw (runtime_error "SpaceGroup::decompose(): unexpected determinant").
Proof.
  unfold expected_determinant, classify, proper.
  destruct (nearly_equal_double (determinant (rotation op)) 1); [discriminate |].
  cbn. intros ->. reflexivity.
Qed.

(** The first loop of [decompose] on a list of operators. *)
Lemma classify_all (v : list SymmetryOperator) (c : classification) :
  forallb expected_determinant v = true ->
  exists c',
    fold_result classify v c = Return c' /\
    centring_vectors c'
    = centring_vectors c ++ map translation (List.filter pure_translation v) /\
    inversion_translation_vectors c'
    = inversion_translation_vectors c
      ++ map translation (List.filter inversion_centre v) /\
    has_inversion c' = has_inversion c || existsb inversion_centre v.
Proof.
  revert c. induction v as [| op v IH]; intros c; simpl.
  - intros _. exists c. rewrite !app_nil_r, orb_false_r. auto.
  - intros Hv. apply andb_prop in Hv as [Hop Hv].
    rewrite (classify_expected c op Hop). simpl.
    match goal with
    | |- context [fold_result classify v ?c1] =>
        destruct (IH c1 Hv) as (c' & Hc' & Hcv & Hiv & Hhi)
    end.
    exists c'. split; [exact Hc' |].
    cbn [centring_vectors inversion_translation_vectors has_inversion] in *.
    rewrite Hcv, Hiv, Hhi.
    destruct (pure_translation op), (inversion_centre op); simpl;
      rewrite <- ?app_assoc, ?app_nil_r, ?orb_false_r, ?orb_true_r, ?orb_assoc;
      auto.
Qed.

Lemma classify_some_unexpected (v : list SymmetryOperator) (c : classification) :
  forallb expected_determinant v = false ->
  fold_result classify v c
  = Throw (runtime_error "SpaceGroup::decompose(): unexpected determinant").
Proof.
  revert c. induction v as [| op v IH]; intros c; simpl; [discriminate |].
  destruct (expected_determinant op) eqn:Hop; simpl.
  - intros Hv. rewrite (classify_expected c op Hop). simpl. apply IH, Hv.
  - intros _. rewrite (classify_unexpected c op Hop). reflexivity.
Qed.

(** The loop of lines 265-271 as a test and a filter. *)
Lemma remove_zero_vector_filter (l : list Vector3D) :
  remove_zero_vector l
  = (existsb (fun v => nearly_equal_Vector3D v zero_vector) l,
     List.filter (fun v => negb (nearly_equal_Vector3D v zero_vector)) l).
Proof.
  unfold remove_zero_vector.
  assert (Hgen : forall (found : bool) (kept : list Vector3D),
            fold_left (fun '(identity_found, kept) v =>
               if nearly_equal_Vector3D v zero_vector
               then (true, kept) else (identity_found, kept ++ [v])) l (found, kept)
            = (found || existsb (fun v => nearly_equal_Vector3D v zero_vector) l,
               kept ++ List.filter
                         (fun v => negb (nearly_equal_Vector3D v zero_vector)) l)).
  { induction l as [| v l IH]; intros found kept; simpl.
    - rewrite orb_false_r, app_nil_r. reflexivity.
    - destruct (nearly_equal_Vector3D v zero_vector); simpl; rewrite IH.
      + rewrite orb_true_r. reflexivity.
      + rewrite <- app_assoc. reflexivity. }
  apply Hgen.
Qed.

Lemma existsb_map_filter {A B : Type} (f : A -> B) (p : A -> bool) (q : B -> bool)
    (l : list A) :
  existsb q (map f (List.filter p l)) = existsb (fun a => p a && q (f a)) l.
Proof.
  induction l as [| a l IH]; simpl; [reflexivity |].
  destruct (p a); simpl; rewrite IH; reflexivity.
Qed.

Lemma filter_nil_existsb {A : Type} (p : A -> bool) (l : list A) :
  List.filter p l = [] <-> existsb p l = false.
Proof.
  induction l as [| a l IH]; simpl; [tauto |].
  destruct (p a); simpl; [split; discriminate | exact IH].
Qed.

(** X7.  The errors of [decompose], in the order in which the code meets
    them: an operator whose determinant is neither nearly 1 nor nearly
    -1 gives "unexpected determinant"; with no pure translation among
    the operators, [reserve( centring_vectors.size() - 1 )] is called
    with the largest [size_t] and throws [std::length_error]; with pure
    translations but none of them nearly zero, "identity not found";
    in every other case [decompose] returns. *)
Theorem decompose_errors (G : SpaceGroup) :
  let ops := symmetry_operators_ G in
  (forallb expected_determinant ops = false ->
   decompose G
   = Throw (runtime_error "SpaceGroup::decompose(): unexpected determinant")) /\
  (forallb expected_determinant ops = true ->
   existsb pure_translation ops = false ->
   decompose G = Throw length_error) /\
  (forallb expected_determinant ops = true ->
   existsb pure_translation ops = true ->
   existsb proper_identity ops = false ->
   decompose G
   = Throw (runtime_error "SpaceGroup::decompose(): identity not found.")) /\
  (forallb expected_determinant ops = true ->
   existsb proper_identity ops = true ->
   exists G', decompose G = Return G').
Proof.
  intros ops. unfold decompose. fold ops.
  split; [| split; [| split]].
  - intros Hdet. rewrite (classify_some_unexpected _ _ Hdet). reflexivity.
  - intros Hdet Hnone.
    destruct (classify_all ops (mkClassification [] [] false 0 0) Hdet)
      as (c & -> & Hcv & _ & _).
    simpl in *. rewrite Hcv.
    apply filter_nil_existsb in Hnone. rewrite Hnone. reflexivity.
  - intros Hdet Hsome Hnone.
    destruct (classify_all ops (mkClassification [] [] false 0 0) Hdet)
      as (c & -> & Hcv & _ & _).
    simpl in *. rewrite Hcv.
    destruct (map translation (List.filter pure_translation ops)) as [| t l] eqn:Hl.
    + apply map_eq_nil, filter_nil_existsb in Hl. congruence.
    + rewrite <- Hl, remove_zero_vector_filter, existsb_map_filter.
      unfold proper_identity in Hnone. rewrite Hnone. reflexivity.
  - intros Hdet Hsome.
    destruct (classify_all ops (mkClassification [] [] false 0 0) Hdet)
      as (c & -> & Hcv & _ & _).
    simpl in *. rewrite Hcv.
    assert (Hex : existsb (fun v => nearly_equal_Vector3D v zero_vector)
                    (map translation (List.filter pure_translation ops)) = true).
    { rewrite existsb_map_filter. exact Hsome. }
    destruct (map translation (List.filter pure_translation ops)) as [| t l] eqn:Hl;
      [discriminate |].
    rewrite <- Hl in *. rewrite remove_zero_vector_filter, Hex. simpl.
    destruct (smallest_inversion _ _). eauto.
Qed.

(** X8.  What a returning [decompose] leaves in the group: the operators and
    the name as they were; the representatives of the rotations; as
    centring vectors the translations of the pure translations that are
    not nearly zero; the inversion flag set exactly when some operator
    is an inversion; an inversion at the origin only with the inversion
    flag; and the old position of the inversion when there is none. *)
Theorem decompose_result (G G' : SpaceGroup) :
  decompose G = Return G' ->
  let ops := symmetry_operators_ G in
  symmetry_operators_ G' = ops /\
  name_ G' = name_ G /\
  representative_symmetry_operators_ G' = representatives ops /\
  centring_vectors_ G'
  = List.filter (fun v => negb (nearly_equal_Vector3D v zero_vector))
      (map translation (List.filter pure_translation ops)) /\
  has_inversion_ G' = existsb inversion_centre ops /\
  (has_inversion_at_origin_ G' = true -> has_inversion_ G' = true) /\
  (has_inversion_ G' = false ->
   position_of_inversion_ G' = position_of_inversion_ G).
Proof.
  intros HG' ops. unfold decompose in HG'. fold ops in HG'.
  destruct (forallb expected_determinant ops) eqn:Hdet.
  2: { rewrite (classify_some_unexpected _ _ Hdet) in HG'. discriminate. }
  destruct (classify_all ops (mkClassification [] [] false 0 0) Hdet)
    as (c & Hc & Hcv & Hiv & Hhi).
  rewrite Hc in HG'. simpl in *. rewrite Hcv in HG'.
  destruct (map translation (List.filter pure_translation ops)) as [| t l] eqn:Hl;
    [discriminate |].
  rewrite <- Hl in *. rewrite remove_zero_vector_filter in HG'.
  destruct (existsb _ (map translation _)); simpl in HG'; [| discriminate].
  destruct (smallest_inversion _ _) as [smallest_value position].
  injection HG' as <-. cbn. rewrite Hhi.
  repeat split.
  - intros Horigin. apply andb_prop in Horigin as [Hinv _]. exact Hinv.
  - intros ->. reflexivity.
Qed.

(** The loop of lines 278-287 started from another position: the
    smallest value is the same, and so is the position unless the loop
    never assigns it. *)
Lemma smallest_inversion_start (l : list Vector3D) (p p' : Vector3D) :
  (smallest_inversion l p).1 = (smallest_inversion l p').1 /\
  (((smallest_inversion l p).2 = p /\ (smallest_inversion l p').2 = p') \/
   (smallest_inversion l p).2 = (smallest_inversion l p').2).
Proof.
  unfold smallest_inversion. generalize (dbl 4 1). intros s0.
  revert s0 p p'. induction l as [| v l IH]; intros s0 p p'; simpl.
  - auto.
  - destruct (double_lt (v_x v + v_y v + v_z v) s0).
    + split; [reflexivity | right; reflexivity].
    + apply IH.
Qed.

Lemma smallest_inversion_again (l : list Vector3D) (p : Vector3D) :
  smallest_inversion l (smallest_inversion l p).2 = smallest_inversion l p.
Proof.
  destruct (smallest_inversion_start l p (smallest_inversion l p).2)
    as (Hvalue & [(Hp & Hq) | Heq]).
  - apply injective_projections; [symmetry; exact Hvalue | exact Hq].
  - apply injective_projections; [symmetry; exact Hvalue | symmetry; exact Heq].
Qed.

(** The second run of [decompose] reads the operators, and the position
    of the inversion, that the first run left. *)
Lemma decompose_twice (G G' : SpaceGroup) :
  decompose G = Return G' -> decompose G' = Return G'.
Proof.
  unfold decompose.
  destruct (fold_result classify (symmetry_operators_ G) _) as [c | e] eqn:Hc;
    simpl; [| discriminate].
  destruct (centring_vectors c) as [| t l] eqn:Hcv; [discriminate |].
  destruct (remove_zero_vector (t :: l)) as [identity_found kept] eqn:Hrz.
  destruct identity_found; simpl; [| discriminate].
  destruct (smallest_inversion (inversion_translation_vectors c)
              (position_of_inversion_ G)) as [smallest_value position] eqn:Hsm.
  intros [= <-]. cbn [symmetry_operators_ name_ position_of_inversion_].
  rewrite Hc. simpl. rewrite Hcv, Hrz. simpl.
  destruct (has_inversion c).
  - replace position
      with (smallest_inversion (inversion_translation_vectors c)
              (position_of_inversion_ G)).2 by (rewrite Hsm; reflexivity).
    rewrite smallest_inversion_again, Hsm. reflexivity.
  - rewrite Hsm. reflexivity.
Qed.

(** X9.  [decompose] run again on a group that it returned changes nothing. *)
Theorem decompose_idempotent (G G' : SpaceGroup) :
  decompose G = Return G' -> decompose G' = Return G'.
Proof. exact (decompose_twice G G'). Qed.

End DecomposeProperties.

(** ** Operations on the operator list *)

Lemma flat_map_pair_lookup {A : Type} (f : A -> A) (l : list A) (i : nat) (a : A) :
  l !! i = Some a ->
  flat_map (fun x => [x; f x]) l !! (2 * i)%nat = Some a /\
  flat_map (fun x => [x; f x]) l !! (2 * i + 1)%nat = Some (f a).
Proof.
  revert i. induction l as [| x l IH]; intros i; [discriminate |].
  destruct i as [| i]; simpl.
  - intros [= ->]. auto.
  - intros Hi. destruct (IH i Hi) as [Heven Hodd].
    replace (i + S (i + 0))%nat with (S (2 * i)) by lia. simpl.
    replace (i + (i + 0) + 1)%nat with (2 * i + 1)%nat by lia.
    replace (i + (i + 0))%nat with (2 * i)%nat by lia. auto.
Qed.

Lemma flat_map_pair_length {A : Type} (f : A -> A) (l : list A) :
  length (flat_map (fun x => [x; f x]) l) = (2 * length l)%nat.
Proof. induction l as [| x l IH]; simpl; [reflexivity | rewrite IH; lia]. Qed.

Section OperatorListProperties.

Context `{SymmetryLibrary}.

(** X10.  [add_inversion_at_origin] does nothing to a group that has its
    inversion at the origin.  On any other group from which it
    returns, also one with an inversion elsewhere, the list of
    operators is twice as long: operator [i] is found at [2 i] and its
    product with the inversion, on the left, at [2 i + 1]. *)
Theorem add_inversion_at_origin_doubles (G : SpaceGroup) :
  (has_inversion_at_origin_ G = true -> add_inversion_at_origin G = Return G) /\
  (forall G', has_inversion_at_origin_ G = false ->
     add_inversion_at_origin G = Return G' ->
     length (symmetry_operators_ G') = (2 * length (symmetry_operators_ G))%nat /\
     forall i op, symmetry_operators_ G !! i = Some op ->
       symmetry_operators_ G' !! (2 * i)%nat = Some op /\
       symmetry_operators_ G' !! (2 * i + 1)%nat
       = Some (compose inversion_operator op)).
Proof.
  unfold add_inversion_at_origin. split.
  - intros ->. reflexivity.
  - intros G' -> HG'. apply decompose_symmetry_operators in HG'.
    rewrite HG'. unfold set_symmetry_operators. cbn [symmetry_operators_].
    split.
    + apply (flat_map_pair_length (compose inversion_operator)).
    + intros i op Hop.
      apply (flat_map_pair_lookup (compose inversion_operator)), Hop.
Qed.

(** The loop of lines 137-150 from any list kept so far. *)
Lemma fold_duplicates (rest kept : list SymmetryOperator) :
  let step := fun new_symmetry_operators op =>
                if found_operator op new_symmetry_operators
                then new_symmetry_operators
                else new_symmetry_operators ++ [op] in
  no_duplicates kept ->
  exists added,
    fold_left step rest kept = kept ++ added /\
    sublist added rest /\
    no_duplicates (kept ++ added) /\
    (forall op, In op rest ->
       In op (kept ++ added) \/
       exists c, In c (kept ++ added) /\ nearly_equal_SymmetryOperator op c = true).
Proof.
  intros step. revert kept. induction rest as [| op rest IH]; intros kept Hkept.
  - exists []. rewrite app_nil_r. simpl.
    split; [reflexivity |]. split; [constructor |]. split; [exact Hkept |].
    intros op [].
  - simpl. unfold step at 2. destruct (found_operator op kept) eqn:Hfound.
    + destruct (IH kept Hkept) as (added & Hfold & Hsub & Hnodup & Hcover).
      exists added. split; [exact Hfold |]. split; [constructor; exact Hsub |].
      split; [exact Hnodup |].
      intros op' [<- | Hin]; [| apply Hcover, Hin].
      right. apply found_operator_true in Hfound as (c & Hc & Heq).
      exists c. split; [apply in_or_app; left; exact Hc | exact Heq].
    + assert (Hkept' : no_duplicates (kept ++ [op])).
      { intros i j a b Hij Ha Hb.
        assert (Hj : (j < length (kept ++ [op]))%nat)
          by (eapply lookup_lt_Some; eassumption).
        rewrite length_app in Hj. simpl in Hj.
        rewrite lookup_app_l in Ha by lia.
        destruct (decide (j < length kept)%nat) as [Hjk | Hjk].
        - rewrite lookup_app_l in Hb by lia. exact (Hkept i j a b Hij Ha Hb).
        - rewrite lookup_app_r in Hb by lia.
          replace (j - length kept)%nat with 0%nat in Hb by lia.
          injection Hb as <-.
          destruct (nearly_equal_SymmetryOperator op a) eqn:Heq; [| reflexivity].
          assert (found_operator op kept = true); [| congruence].
          apply found_operator_true. exists a. split; [| exact Heq].
          apply list_elem_of_In, list_elem_of_lookup. eauto. }
      destruct (IH (kept ++ [op]) Hkept') as (added & Hfold & Hsub & Hnodup & Hcover).
      exists (op :: added).
      replace (kept ++ op :: added) with ((kept ++ [op]) ++ added)
        by (rewrite <- app_assoc; reflexivity).
      split; [exact Hfold |]. split; [constructor; exact Hsub |].
      split; [exact Hnodup |].
      intros op' [<- | Hin]; [| apply Hcover, Hin].
      left. apply in_or_app. left. apply in_or_app. right. left. reflexivity.
Qed.

Lemma no_duplicates_one (op : SymmetryOperator) : no_duplicates [op].
Proof.
  intros i j a b Hij Ha Hb. apply lookup_lt_Some in Hb. simpl in Hb. lia.
Qed.

Lemma remove_duplicates_no_duplicates (G G' : SpaceGroup) :
  remove_duplicate_symmetry_operators G = Return G' ->
  no_duplicates (symmetry_operators_ G').
Proof.
  unfold remove_duplicate_symmetry_operators.
  destruct (symmetry_operators_ G) as [| op_0 rest]; [discriminate |].
  intros HG'. apply decompose_symmetry_operators in HG'.
  rewrite HG'. unfold set_symmetry_operators, without_duplicates.
  cbn [symmetry_operators_].
  destruct (fold_duplicates rest [op_0] (no_duplicates_one op_0))
    as (added & -> & _ & Hnodup & _).
  exact Hnodup.
Qed.

(** X11.  The group that [remove_duplicate_symmetry_operators] returns keeps
    a sublist of the operators, with the first one; no operator that it
    keeps is [nearly_equal] to one kept before it; and every operator
    of the group is kept or is [nearly_equal] to one that is. *)
Theorem remove_duplicates_result (G G' : SpaceGroup) :
  remove_duplicate_symmetry_operators G = Return G' ->
  sublist (symmetry_operators_ G') (symmetry_operators_ G) /\
  no_duplicates (symmetry_operators_ G') /\
  (forall op, In op (symmetry_operators_ G) ->
     In op (symmetry_operators_ G') \/
     exists c, In c (symmetry_operators_ G') /\
       nearly_equal_SymmetryOperator op c = true).
Proof.
  unfold remove_duplicate_symmetry_operators.
  destruct (symmetry_operators_ G) as [| op_0 rest]; [discriminate |].
  intros HG'. apply decompose_symmetry_operators in HG'.
  rewrite HG'. unfold set_symmetry_operators, without_duplicates.
  cbn [symmetry_operators_].
  destruct (fold_duplicates rest [op_0] (no_duplicates_one op_0))
    as (added & -> & Hsub & Hnodup & Hcover).
  split; [simpl; constructor; exact Hsub |].
  split; [exact Hnodup |].
  intros op [<- | Hin]; [left; left; reflexivity | apply Hcover, Hin].
Qed.

Lemma fold_no_duplicates (rest kept : list SymmetryOperator) :
  no_duplicates (kept ++ rest) ->
  fold_left (fun new_symmetry_operators op =>
               if found_operator op new_symmetry_operators
               then new_symmetry_operators
               else new_symmetry_operators ++ [op]) rest kept
  = kept ++ rest.
Proof.
  revert kept. induction rest as [| op rest IH]; intros kept Hnodup; simpl.
  - rewrite app_nil_r. reflexivity.
  - destruct (found_operator op kept) eqn:Hfound.
    + apply found_operator_true in Hfound as (c & Hc & Heq).
      apply list_elem_of_In, list_elem_of_lookup in Hc as [i Hi].
      assert (Hlen : (i < length kept)%nat) by (eapply lookup_lt_Some; eassumption).
      rewrite (Hnodup i (length kept) c op) in Heq; [discriminate | exact Hlen | |].
      * rewrite lookup_app_l by lia. exact Hi.
      * rewrite lookup_app_r by lia. rewrite Nat.sub_diag. reflexivity.
    + rewrite IH; rewrite <- app_assoc; [reflexivity | exact Hnodup].
Qed.

(** X12.  [remove_duplicate_symmetry_operators] run again on a group that it
    returned changes nothing. *)
Theorem remove_duplicates_idempotent (G G' : SpaceGroup) :
  remove_duplicate_symmetry_operators G = Return G' ->
  remove_duplicate_symmetry_operators G' = Return G'.
Proof.
  intros HG'. pose proof (remove_duplicates_no_duplicates G G' HG') as Hnodup.
  unfold remove_duplicate_symmetry_operators in *.
  destruct (symmetry_operators_ G) as [| op_0 rest]; [discriminate |].
  pose proof (decompose_symmetry_operators _ _ HG') as Hops.
  apply decompose_twice in HG'.
  destruct (symmetry_operators_ G') as [| op_0' rest'] eqn:Hops'.
  - unfold set_symmetry_operators in Hops. cbn [symmetry_operators_] in Hops.
    pose proof (without_duplicates_head op_0 rest) as Hhead.
    rewrite <- Hops in Hhead. discriminate.
  - unfold without_duplicates.
    rewrite (fold_no_duplicates rest' [op_0'] Hnodup). simpl.
    replace (set_symmetry_operators G' (op_0' :: rest')) with G'; [exact HG' |].
    rewrite <- Hops'. destruct G'. reflexivity.
Qed.

(** The swap of two elements is a permutation. *)
Lemma swap_Permutation {A : Type} (l : list A) (i : nat) (a b : A) :
  l !! 0%nat = Some a -> l !! i = Some b ->
  Permutation (<[0%nat := b]> (<[i := a]> l)) l.
Proof.
  destruct l as [| x l]; [discriminate |]. intros [= ->] Hi.
  destruct i as [| i]; simpl in *.
  - injection Hi as ->. reflexivity.
  - rewrite insert_take_drop by (eapply lookup_lt_Some; eassumption).
    rewrite <- (take_drop_middle l i b Hi) at 3.
    rewrite <- !Permutation_middle. apply perm_swap.
Qed.

Lemma identity_first_Permutation (v v' : list SymmetryOperator) :
  identity_first v = Return v' -> Permutation v' v.
Proof.
  unfold identity_first. destruct v as [| op_0 rest]; [discriminate |].
  destruct (is_identity op_0); [intros [= <-]; reflexivity |].
  destruct (find_identity rest 1) as [i |]; [| intros [= <-]; reflexivity].
  destruct ((op_0 :: rest) !! i) as [op_i |] eqn:Hi; [| discriminate].
  intros [= <-]. apply swap_Permutation; [reflexivity | exact Hi].
Qed.

(** X13.  The constructor does not reject an empty vector of operators:
    [check_if_closed] has nothing to test, and line 57 reads
    [symmetry_operators_[0]] of the empty vector.  A group that the
    constructor returns holds the operators it was given, each as often
    as it was given, in an order that differs at most by the swap of
    lines 65, and has the name it was given. *)
Theorem constructor_keeps_operators (name : string) :
  SpaceGroup_of_operators [] name = Throw undefined_behaviour /\
  forall v G, SpaceGroup_of_operators v name = Return G ->
    Permutation (symmetry_operators_ G) v /\ name_ G = name.
Proof.
  split; [reflexivity |].
  intros v G. unfold SpaceGroup_of_operators.
  destruct (check_if_closed v) as [[] | e]; simpl; [| discriminate].
  destruct (identity_first v) as [v' | e] eqn:Hv'; simpl; [| discriminate].
  destruct (decompose _) as [G' | e] eqn:HG'; simpl; [| discriminate].
  intros [= <-]. cbn [symmetry_operators_ name_].
  split; [| reflexivity].
  rewrite (decompose_symmetry_operators _ _ HG'). cbn [symmetry_operators_].
  apply identity_first_Permutation, Hv'.
Qed.

(** X14.  [same_symmetry_operators] returns true exactly when the two groups
    have as many operators and every operator of [lhs] is
    [nearly_equal] to one of [rhs].  So the order of the operators does
    not matter: it returns true when the operators of [rhs] are those
    of [lhs] in another order, provided each of them is [nearly_equal]
    to itself. *)
Theorem same_symmetry_operators_spec (lhs rhs : SpaceGroup) :
  (same_symmetry_operators lhs rhs = true <->
   length (symmetry_operators_ lhs) = length (symmetry_operators_ rhs) /\
   forall op, In op (symmetry_operators_ lhs) ->
     exists c, In c (symmetry_operators_ rhs) /\
       nearly_equal_SymmetryOperator op c = true) /\
  ((forall op, In op (symmetry_operators_ lhs) ->
      nearly_equal_SymmetryOperator op op = true) ->
   Permutation (symmetry_operators_ lhs) (symmetry_operators_ rhs) ->
   same_symmetry_operators lhs rhs = true).
Proof.
  assert (Hiff : same_symmetry_operators lhs rhs = true <->
            length (symmetry_operators_ lhs) = length (symmetry_operators_ rhs) /\
            forall op, In op (symmetry_operators_ lhs) ->
              exists c, In c (symmetry_operators_ rhs) /\
                nearly_equal_SymmetryOperator op c = true).
  { unfold same_symmetry_operators.
    destruct (Nat.eqb_spec (length (symmetry_operators_ lhs))
                (length (symmetry_operators_ rhs))) as [Hlen | Hlen]; simpl.
    - rewrite forallb_forall. split.
      + intros Hall. split; [exact Hlen |].
        intros op Hop. apply found_operator_true, Hall, Hop.
      + intros [_ Hall] op Hop. apply found_operator_true, Hall, Hop.
    - split; [discriminate | intros [Hlen' _]; contradiction]. }
  split; [exact Hiff |].
  intros Hrefl Hperm. apply Hiff. split.
  - apply Permutation_length, Hperm.
  - intros op Hop. exists op. split; [| apply Hrefl, Hop].
    eapply Permutation_in; eassumption.
Qed.

End OperatorListProperties.

(** ** Atoms and labels *)



Section StructureProperties.

Context `{SymmetryLibrary} `{StructureLibrary}.



(** X16.  [set_atom] followed by [atom]: with [i] below the number of atoms,
    [set_atom] returns, [atom( i )] then returns the new atom, every
    other index gives what it gave before, and the number of atoms, the
    lattice and the space group are unchanged. *)
Theorem set_atom_then_atom (S : CrystalStructure) (i : nat) (new_atom : Atom) :
  (i < natoms S)%nat ->
  exists S',
    set_atom S i new_atom = Return S' /\
    atom S' i = Return new_atom /\
    (forall j, j <> i -> atom S' j = atom S j) /\
    natoms S' = natoms S /\
    crystal_lattice_ S' = crystal_lattice_ S /\
    space_group_ S' = space_group_ S.
Proof.
  unfold set_atom, natoms. intros Hi.
  destruct (Nat.leb_spec (length (atoms_ S)) i) as [Hle | _]; [lia |].
  eexists. split; [reflexivity |].
  unfold atom. cbn [atoms_ crystal_lattice_ space_group_].
  rewrite length_insert.
  split; [| split; [| auto]].
  - destruct (Nat.leb_spec (length (atoms_ S)) i) as [Hle | _]; [lia |].
    rewrite list_lookup_insert_eq by lia. reflexivity.
  - intros j Hj. rewrite list_lookup_insert_ne by congruence. reflexivity.
Qed.

Lemma first_with_label_Some (atoms : list Atom) (wanted : string) (i k : nat) :
  first_with_label atoms wanted i = Some k ->
  (i <= k)%nat /\
  exists a, atoms !! (k - i)%nat = Some a /\ label a = wanted /\
    forall j b, (j < k - i)%nat -> atoms !! j = Some b -> label b <> wanted.
Proof.
  revert i. induction atoms as [| a atoms IH]; intros i; simpl; [discriminate |].
  destruct (String.eqb_spec (label a) wanted) as [Ha | Ha].
  - intros [= <-]. split; [lia |]. exists a. rewrite Nat.sub_diag.
    split; [reflexivity |]. split; [exact Ha |]. intros j b Hj. lia.
  - intros Hk. destruct (IH _ Hk) as (Hle & b & Hb & Hlabel & Hfirst).
    split; [lia |]. exists b.
    replace (k - i)%nat with (S (k - S i)) by lia.
    split; [exact Hb |]. split; [exact Hlabel |].
    intros j c Hj. destruct j as [| j]; simpl.
    + intros [= <-]. exact Ha.
    + apply Hfirst. lia.
Qed.

Lemma first_with_label_None (atoms : list Atom) (wanted : string) (i : nat) :
  first_with_label atoms wanted i = None ->
  forall a, In a atoms -> label a <> wanted.
Proof.
  revert i. induction atoms as [| a atoms IH]; intros i; simpl; [intros _ b [] |].
  destruct (String.eqb_spec (label a) wanted) as [Ha | Ha]; [discriminate |].
  intros Hnone b [<- | Hb]; [exact Ha | eapply IH; eassumption].
Qed.

(** X17.  [find_label] returns the index of the first atom with the label, and
    the number of atoms exactly when no atom has it; [atom] with a label
    returns the same index, and throws exactly when [find_label] returns
    the number of atoms; [atom] with the index that is found returns an
    atom with the label. *)
Theorem find_label_first (S : CrystalStructure) (wanted : string) :
  let i := find_label S wanted in
  (i <= natoms S)%nat /\
  ((i < natoms S)%nat <-> exists a, In a (atoms_ S) /\ label a = wanted) /\
  ((i < natoms S)%nat ->
   atom_of_label S wanted = Return i /\
   exists a, atom S i = Return a /\ label a = wanted /\
     forall j b, (j < i)%nat -> atom S j = Return b -> label b <> wanted) /\
  (i = natoms S ->
   atom_of_label S wanted
   = Throw (runtime_error
       (String.append "CrystalStructure::atom( const std::string & label ): label >"
          (String.append wanted "< not found.")))).
Proof.
  unfold find_label, atom_of_label, natoms.
  destruct (first_with_label (atoms_ S) wanted 0) as [k |] eqn:Hfind; cbn zeta.
  - destruct (first_with_label_Some _ _ _ _ Hfind) as (_ & a & Ha & Hlabel & Hfirst).
    rewrite Nat.sub_0_r in Ha, Hfirst.
    assert (Hk : (k < length (atoms_ S))%nat) by (eapply lookup_lt_Some; eassumption).
    split; [lia |]. split; [| split].
    + split; [| intros _; exact Hk]. intros _. exists a. split; [| exact Hlabel].
      apply list_elem_of_In, list_elem_of_lookup. eauto.
    + intros _. split; [reflexivity |]. exists a. unfold atom.
      destruct (Nat.leb_spec (length (atoms_ S)) k) as [Hle | _]; [lia |].
      rewrite Ha. split; [reflexivity |]. split; [exact Hlabel |].
      intros j b Hj.
      destruct (Nat.leb_spec (length (atoms_ S)) j) as [Hle | _]; [discriminate |].
      destruct (atoms_ S !! j) as [c |] eqn:Hc; [| discriminate].
      intros [= <-]. eapply Hfirst; eassumption.
    + intros Heq. lia.
  - pose proof (first_with_label_None _ _ _ Hfind) as Hnone.
    split; [lia |]. split; [| split].
    + split; [lia |]. intros (a & Ha & Hlabel). exfalso. eapply Hnone; eassumption.
    + lia.
    + intros _. reflexivity.
Qed.

(** A name without digits followed by a number: the two parts can be
    read back. *)
Lemma append_digits_injective (s1 s2 d1 d2 : string) :
  all_chars (fun c => negb (is_digit c)) s1 = true ->
  all_chars (fun c => negb (is_digit c)) s2 = true ->
  all_chars is_digit d1 = true ->
  all_chars is_digit d2 = true ->
  String.append s1 d1 = String.append s2 d2 ->
  s1 = s2 /\ d1 = d2.
Proof.
  revert s2. induction s1 as [| c s1 IH]; intros s2 Hs1 Hs2 Hd1 Hd2.
  - destruct s2 as [| c s2]; simpl; [auto |].
    intros ->. simpl in Hs2, Hd1.
    apply andb_prop in Hs2 as [Hc _]. apply andb_prop in Hd1 as [Hc' _].
    rewrite Hc' in Hc. discriminate.
  - destruct s2 as [| c' s2]; simpl.
    + intros <-. simpl in Hs1, Hd2.
      apply andb_prop in Hs1 as [Hc _]. apply andb_prop in Hd2 as [Hc' _].
      rewrite Hc' in Hc. discriminate.
    + intros [= <- Heq]. simpl in Hs1, Hs2.
      apply andb_prop in Hs1 as [_ Hs1]. apply andb_prop in Hs2 as [_ Hs2].
      destruct (IH s2 Hs1 Hs2 Hd1 Hd2 Heq) as [-> ->]. auto.
Qed.

Section Labels.

Variable symbol : Element -> string.
Variable size_t2string : nat -> string.

(** X18.  After [make_atom_labels_unique] the labels are unique, and
    [find_label] with the label of an atom returns its index, whenever
    the symbols of the elements of the atoms hold no digit and
    [size_t2string] writes different numbers as different strings of
    digits. *)
Theorem make_atom_labels_unique_unique (S : CrystalStructure) :
  (forall a, In a (atoms_ S) ->
     all_chars (fun c => negb (is_digit c)) (symbol (element a)) = true) ->
  (forall n, all_chars is_digit (size_t2string n) = true) ->
  (forall m n, size_t2string m = size_t2string n -> m = n) ->
  let S' := make_atom_labels_unique symbol size_t2string S in
  natoms S' = natoms S /\
  (forall i j a b, atoms_ S' !! i = Some a -> atoms_ S' !! j = Some b ->
     label a = label b -> i = j) /\
  (forall i a, atoms_ S' !! i = Some a -> find_label S' (label a) = i).
Proof.
  intros Hsymbol Hdigits Hinj S'.
  assert (Hlookup : forall i a, atoms_ S' !! i = Some a ->
            exists a0, atoms_ S !! i = Some a0 /\
              label a = String.append (symbol (element a0)) (size_t2string i)).
  { intros i a. unfold S', make_atom_labels_unique. cbn [atoms_].
    rewrite list_lookup_imap. destruct (atoms_ S !! i) as [a0 |]; [| discriminate].
    intros [= <-]. exists a0. auto. }
  assert (Hunique : forall i j a b, atoms_ S' !! i = Some a ->
            atoms_ S' !! j = Some b -> label a = label b -> i = j).
  { intros i j a b Ha Hb Heq.
    destruct (Hlookup i a Ha) as (a0 & Ha0 & Hla).
    destruct (Hlookup j b Hb) as (b0 & Hb0 & Hlb).
    rewrite Hla, Hlb in Heq. apply Hinj.
    apply (append_digits_injective (symbol (element a0)) (symbol (element b0)));
      auto.
    - apply Hsymbol, list_elem_of_In, list_elem_of_lookup. eauto.
    - apply Hsymbol, list_elem_of_In, list_elem_of_lookup. eauto. }
  split; [| split; [exact Hunique |]].
  - unfold S', make_atom_labels_unique, natoms. cbn [atoms_]. apply length_imap.
  - intros i a Ha. unfold find_label.
    destruct (first_with_label (atoms_ S') (label a) 0) as [k |] eqn:Hfind.
    + destruct (first_with_label_Some _ _ _ _ Hfind) as (_ & b & Hb & Hlabel & _).
      rewrite Nat.sub_0_r in Hb. eapply Hunique; eassumption.
    + exfalso. eapply (first_with_label_None _ _ _ Hfind a); [| reflexivity].
      apply list_elem_of_In, list_elem_of_lookup. eauto.
Qed.

End Labels.

(** ** The displacement of two structures *)

Lemma atom_Return (S : CrystalStructure) (i : nat) :
  (i < natoms S)%nat -> exists a, atom S i = Return a /\ atoms_ S !! i = Some a.
Proof.
  unfold atom, natoms. intros Hi.
  destruct (Nat.leb_spec (length (atoms_ S)) i) as [Hle | _]; [lia |].
  destruct (lookup_lt_is_Some_2 (atoms_ S) i Hi) as [a Ha].
  rewrite Ha. eauto.
Qed.

Lemma Vector3D_length_sub_swap (u v : Vector3D) :
  Vector3D_length (Vector3D_sub u v) = Vector3D_length (Vector3D_sub v u).
Proof.
  unfold Vector3D_length. f_equal.
  unfold norm2, Vector3D_sub. cbn [v_x v_y v_z]. unfold double. ring.
Qed.

Lemma mean_displacement_swap (lhs rhs : CrystalStructure) (p q : Vector3D) :
  mean_displacement lhs rhs p q = mean_displacement rhs lhs q p.
Proof.
  unfold mean_displacement.
  rewrite (Vector3D_length_sub_swap (fractional_to_orthogonal (crystal_lattice_ lhs) p)),
    (Vector3D_length_sub_swap (fractional_to_orthogonal (crystal_lattice_ rhs) p)).
  f_equal. apply Qcplus_comm.
Qed.

(** X19.  [root_mean_square_Cartesian_displacement] does not depend on the
    order of the two structures, whenever the comparison of two elements
    does not depend on their order: it returns the same number or
    throws the same exception. *)
Theorem rmscd_symmetric (lhs rhs : CrystalStructure) :
  (forall x y : Element, Element_eq x y = Element_eq y x) ->
  root_mean_square_Cartesian_displacement lhs rhs
  = root_mean_square_Cartesian_displacement rhs lhs.
Proof.
  intros Hsym. unfold root_mean_square_Cartesian_displacement.
  rewrite (Nat.eqb_sym (natoms rhs) (natoms lhs)).
  destruct (Nat.eqb_spec (natoms lhs) (natoms rhs)) as [Hn | Hn]; simpl;
    [| reflexivity].
  rewrite <- Hn. f_equal.
  apply fold_result_ext_in. intros [result nnon_H_atoms] i Hi.
  apply in_seq in Hi.
  destruct (atom_Return lhs i) as (a & -> & _); [lia |].
  destruct (atom_Return rhs i) as (b & -> & _); [lia |].
  simpl. rewrite (Hsym (element b) (element a)).
  rewrite (mean_displacement_swap rhs lhs).
  destruct (Element_eq (element a) (Element_of_symbol "H")
            || Element_eq (element a) (Element_of_symbol "D")),
           (Element_eq (element b) (Element_of_symbol "H")
            || Element_eq (element b) (Element_of_symbol "D")); reflexivity.
Qed.

Lemma mean_displacement_same (lhs rhs : CrystalStructure) (p : Vector3D) :
  sqrt 0 = 0 -> mean_displacement lhs rhs p p = 0.
Proof.
  intros Hsqrt. unfold mean_displacement, Vector3D_length.
  assert (Hzero : forall v : Vector3D, norm2 (Vector3D_sub v v) = 0).
  { intros v. unfold norm2, Vector3D_sub. cbn [v_x v_y v_z]. unfold double. ring. }
  rewrite !Hzero, Hsqrt. apply Qc_is_canon. reflexivity.
Qed.

(** X20.  The displacement of a structure from itself is 0, whatever its
    atoms are, whenever an element equals itself, [sqrt( 0 )] is 0 and
    0 is [nearly_equal] to 0, so that line 1352 returns when no atom
    was counted and line 1354 never divides by 0. *)
Theorem rmscd_of_same_structure (S : CrystalStructure) :
  (forall x : Element, Element_eq x x = true) ->
  nearly_equal_double 0 0 = true ->
  sqrt 0 = 0 ->
  root_mean_square_Cartesian_displacement S S = Return 0.
Proof.
  intros Hrefl Hzero Hsqrt. unfold root_mean_square_Cartesian_displacement.
  rewrite Nat.eqb_refl. cbn [negb].
  match goal with
  | |- context [fold_result ?body ?l ?s] =>
      assert (Hfold : exists st, fold_result body l s = Return st /\ st.1 = 0)
  end.
  { apply (fold_result_invariant (fun st : double * double => st.1 = 0));
      [reflexivity |].
    intros [result nnon_H_atoms] i Hi Hresult. simpl in Hresult. subst result.
    apply in_seq in Hi.
    destruct (atom_Return S i) as (a & -> & _); [lia |]. cbn [bind].
    rewrite Hrefl. cbn [negb].
    destruct ((Element_eq (element a) (Element_of_symbol "H")
               || Element_eq (element a) (Element_of_symbol "D"))
              && (Element_eq (element a) (Element_of_symbol "H")
                  || Element_eq (element a) (Element_of_symbol "D"))).
    - eexists. split; reflexivity.
    - eexists. split; [reflexivity |]. cbn [fst].
      rewrite (mean_displacement_same S S _ Hsqrt).
      apply Qc_is_canon. reflexivity. }
  destruct Hfold as ([result nnon_H_atoms] & -> & Hresult).
  simpl in Hresult. subst result. cbn [bind].
  destruct (nearly_equal_double nnon_H_atoms 0) eqn:Hcounted; [reflexivity |].
  assert (Hnonzero : nnon_H_atoms <> 0) by (intros ->; congruence).
  replace (0 / nnon_H_atoms) with (0 : Qc) by (unfold double in *; field; exact Hnonzero).
  rewrite Hsqrt. reflexivity.
Qed.

End StructureProperties.

Lemma double_lt_true (a b : double) : a < b -> double_lt a b = true.
Proof. apply double_lt_spec. Qed.

Lemma double_lt_false (a b : double) : b <= a -> double_lt a b = false.
Proof.
  intros Hle. destruct (double_lt a b) eqn:Hlt; [| reflexivity].
  apply double_lt_spec in Hlt. exfalso. apply (Qclt_not_le _ _ Hlt), Hle.
Qed.

Lemma double_abs_opp (x : double) : double_abs (- x) = double_abs x.
Proof.
  unfold double_abs. destruct (Qc_dec x 0) as [[Hneg | Hpos] | ->].
  - rewrite (double_lt_true x 0 Hneg), (double_lt_false (- x) 0); [reflexivity |].
    apply Qclt_le_weak, (proj2 (Qclt_minus_iff 0 (- x))).
    replace (- x + - 0) with (0 + - x) by (unfold double; ring).
    apply (proj1 (Qclt_minus_iff x 0)), Hneg.
  - rewrite (double_lt_false x 0 (Qclt_le_weak _ _ Hpos)), (double_lt_true (- x) 0).
    + unfold double. ring.
    + apply (proj2 (Qclt_minus_iff (- x) 0)).
      replace (0 + - - x) with (x + - 0) by (unfold double; ring).
      apply (proj1 (Qclt_minus_iff 0 x)), Hpos.
  - replace (- 0) with (0 : Qc) by ring. reflexivity.
Qed.

(** X21.  [absolute_relative_difference] does not depend on the order of its
    two arguments. *)
Theorem absolute_relative_difference_symmetric (lhs rhs : double) :
  absolute_relative_difference lhs rhs = absolute_relative_difference rhs lhs.
Proof.
  unfold absolute_relative_difference.
  replace (rhs - lhs) with (- (lhs - rhs)) by (unfold double; ring).
  rewrite double_abs_opp.
  replace (rhs + lhs) with (lhs + rhs) by (unfold double; ring).
  reflexivity.
Qed.

(** ** Atoms without a match *)


Section MatcherProperties.

Context `{SymmetryLibrary} `{StructureLibrary}.
Variable save_cif : CrystalStructure -> string -> result unit.






End MatcherProperties.

(** ** The distance in a structure *)

Lemma descend_more_fuel (fuel k : nat) (L : CrystalLattice) (d : Vector3D)
    (s : double) (r : double * Vector3D) :
  descend fuel L d s = Some r -> descend (fuel + k) L d s = Some r.
Proof.
  revert d s. induction fuel as [| fuel IH]; intros d s; [discriminate |].
  change (S fuel + k)%nat with (S (fuel + k)). rewrite !descend_S.
  destruct (shortest_distance_changed (scan L (mkScan d s false))); [apply IH | auto].
Qed.

Section Distances.

Variable adjust : Vector3D -> Vector3D.
Variable L : CrystalLattice.
Variable lhs : Vector3D.

Lemma returns_from_more (n m : nat) (rhs : Vector3D) (d : double) :
  (n <= m)%nat -> returns_from adjust L lhs n rhs d -> returns_from adjust L lhs m rhs d.
Proof.
  intros Hnm Hn k. replace (m + k)%nat with (n + (m - n + k))%nat by lia. apply Hn.
Qed.

Lemma shortest_distance2_total (rhs : Vector3D) :
  exists n d, returns_from adjust L lhs n rhs d.
Proof.
  destruct (descend_terminates L (adjust (Vector3D_sub rhs lhs))) as (n & [s d] & Hn).
  exists n, s. intros k. eapply shortest_distance2_descend, Hn. lia.
Qed.

Lemma distances_total (positions : list Vector3D) :
  exists n ds, Forall2 (returns_from adjust L lhs n) positions ds.
Proof.
  induction positions as [| p positions IH].
  - exists 0%nat, []. constructor.
  - destruct IH as (n1 & ds & Hds).
    destruct (shortest_distance2_total p) as (n2 & d & Hd).
    exists (Nat.max n1 n2), (d :: ds). constructor.
    + eapply returns_from_more; [| exact Hd]. lia.
    + eapply Forall2_impl; [| exact Hds].
      intros q e Hq. eapply returns_from_more; [| exact Hq]. lia.
Qed.

End Distances.

Lemma fold_double_min (ds : list double) (s : double) :
  fold_left double_min ds s <= s /\
  (forall d, In d ds -> fold_left double_min ds s <= d) /\
  In (fold_left double_min ds s) (s :: ds).
Proof.
  revert s. induction ds as [| d ds IH]; intros s; simpl.
  - split; [apply Qcle_refl |]. split; [intros d [] | auto].
  - destruct (IH (double_min s d)) as (Hle & Hall & Hin).
    split; [eapply Qcle_trans; [exact Hle | apply double_min_le_l] |].
    split.
    + intros e [<- | He]; [| apply Hall, He].
      eapply Qcle_trans; [exact Hle | apply double_min_le_r].
    + destruct Hin as [Hin | Hin]; [| auto].
      rewrite <- Hin. destruct (double_min_cases s d) as [-> | ->]; auto.
Qed.

Section StructureDistance.

Context `{SymmetryLibrary} `{StructureLibrary}.

(** The loop of lines 889-897 when each call of
    [CrystalLattice::shortest_distance2] returns. *)
Lemma structure_distance_fold (fuel : nat) (S : CrystalStructure)
    (lhs rhs : Vector3D) (ops : list SymmetryOperator) (ds : list double)
    (shortest : double) :
  Forall2 (fun p d =>
             shortest_distance2 adjust_for_translations fuel (crystal_lattice_ S) lhs p
             = Some d)
    (map (fun op => image op rhs) ops) ds ->
  fold_result (fun shortest op =>
    let current_position := image op rhs in
    match shortest_distance2 adjust_for_translations fuel (crystal_lattice_ S)
            lhs current_position with
    | None => Throw out_of_fuel
    | Some distance2 =>
        Return (if double_lt distance2 shortest then distance2 else shortest)
    end) ops shortest
  = Return (fold_left double_min ds shortest).
Proof.
  revert ds shortest. induction ops as [| op ops IH]; intros ds shortest Hds.
  - apply Forall2_nil_inv_l in Hds as ->. reflexivity.
  - cbn [map] in Hds. apply Forall2_cons_inv_l in Hds as (d & ds' & Hd & Hds' & ->).
    cbn [fold_result]. rewrite Hd. cbn [bind fold_left]. apply IH, Hds'.
Qed.

(** X25.  [CrystalStructure::shortest_distance2] returns, from some amount of
    fuel on, whenever the space group holds an operator: the number it
    returns is the smallest of the distances that
    [CrystalLattice::shortest_distance2] gives from [lhs] to [rhs] and
    to the images of [rhs] under the operators after the first one,
    which is not applied. *)
Theorem CrystalStructure_shortest_distance2_smallest (S : CrystalStructure)
    (lhs rhs : Vector3D) (op_0 : SymmetryOperator) (ops : list SymmetryOperator) :
  symmetry_operators_ (space_group_ S) = op_0 :: ops ->
  let positions := rhs :: map (fun op => image op rhs) ops in
  let distance := returns_from adjust_for_translations (crystal_lattice_ S) lhs in
  exists (n : nat) (r : double),
    (forall k, CrystalStructure_shortest_distance2 (n + k) S lhs rhs = Return r) /\
    (exists p, In p positions /\ distance n p r) /\
    (forall p, In p positions -> exists d, distance n p d /\ r <= d).
Proof.
  intros Hops positions distance.
  destruct (distances_total adjust_for_translations (crystal_lattice_ S) lhs positions)
    as (n & ds & Hds).
  unfold positions in Hds.
  apply Forall2_cons_inv_l in Hds as (d0 & ds' & Hd0 & Hds' & ->).
  destruct (fold_double_min ds' d0) as (Hle & Hall & Hin).
  exists n, (fold_left double_min ds' d0).
  split; [| split].
  - intros k. unfold CrystalStructure_shortest_distance2.
    rewrite (Hd0 k), Hops. apply structure_distance_fold.
    eapply Forall2_impl; [| exact Hds']. intros p d Hp. apply Hp.
  - destruct Hin as [Hin | Hin].
    + exists rhs. split; [left; reflexivity |]. unfold distance. rewrite <- Hin.
      exact Hd0.
    + apply list_elem_of_In, list_elem_of_lookup in Hin as [i Hi].
      destruct (Forall2_lookup_r _ _ _ _ _ Hds' Hi) as (p & Hp & Hdist).
      exists p. split; [| exact Hdist].
      right. apply list_elem_of_In, list_elem_of_lookup. eauto.
  - intros p [<- | Hp].
    + exists d0. split; [exact Hd0 | exact Hle].
    + apply list_elem_of_In, list_elem_of_lookup in Hp as [i Hi].
      destruct (Forall2_lookup_l _ _ _ _ _ Hds' Hi) as (d & Hd & Hdist).
      exists d. split; [exact Hdist |].
      apply Hall, list_elem_of_In, list_elem_of_lookup. eauto.
Qed.

End StructureDistance.

(** ** The asymmetric unit *)

Section Reduction.

Context `{SymmetryLibrary} `{StructureLibrary}.

Lemma atom_lookup (S : CrystalStructure) (i : nat) (a : Atom) :
  atom S i = Return a -> atoms_ S !! i = Some a.
Proof.
  unfold atom. destruct (length (atoms_ S) <=? i)%nat; [discriminate |].
  destruct (atoms_ S !! i); [intros [= ->]; reflexivity | discriminate].
Qed.

Lemma structure_distance_total (S : CrystalStructure) (lhs rhs : Vector3D)
    (op_0 : SymmetryOperator) (ops : list SymmetryOperator) :
  symmetry_operators_ (space_group_ S) = op_0 :: ops ->
  exists n r, forall k,
    CrystalStructure_shortest_distance2 (n + k) S lhs rhs = Return r.
Proof.
  intros Hops.
  destruct (distances_total adjust_for_translations (crystal_lattice_ S) lhs
              (rhs :: map (fun op => image op rhs) ops)) as (n & ds & Hds).
  apply Forall2_cons_inv_l in Hds as (d0 & ds' & Hd0 & Hds' & ->).
  exists n, (fold_left double_min ds' d0). intros k.
  unfold CrystalStructure_shortest_distance2.
  rewrite (Hd0 k), Hops. apply structure_distance_fold.
  eapply Forall2_impl; [| exact Hds']. intros p d Hp. apply Hp.
Qed.

Lemma structure_distances_total (S : CrystalStructure)
    (op_0 : SymmetryOperator) (ops : list SymmetryOperator)
    (pairs : list (Vector3D * Vector3D)) :
  symmetry_operators_ (space_group_ S) = op_0 :: ops ->
  exists n, forall p, In p pairs ->
    exists r, forall k,
      CrystalStructure_shortest_distance2 (n + k) S p.1 p.2 = Return r.
Proof.
  intros Hops. induction pairs as [| p pairs (n1 & IH)].
  - exists 0%nat. intros p [].
  - destruct (structure_distance_total S p.1 p.2 _ _ Hops) as (n2 & r & Hr).
    exists (Nat.max n1 n2). intros q [<- | Hq].
    + exists r. intros k.
      replace (Nat.max n1 n2 + k)%nat with (n2 + (Nat.max n1 n2 - n2 + k))%nat by lia.
      apply Hr.
    + destruct (IH q Hq) as (r' & Hr'). exists r'. intros k.
      replace (Nat.max n1 n2 + k)%nat with (n1 + (Nat.max n1 n2 - n1 + k))%nat by lia.
      apply Hr'.
Qed.

(** [reduce_to_asymmetric_unit] depends on the fuel through the
    distances between the atoms only. *)
Lemma reduce_same_distances (S : CrystalStructure) (f1 f2 : nat) :
  (forall i j a b, atoms_ S !! i = Some a -> atoms_ S !! j = Some b ->
     CrystalStructure_shortest_distance2 f1 S (position a) (position b)
     = CrystalStructure_shortest_distance2 f2 S (position a) (position b)) ->
  reduce_to_asymmetric_unit f1 S = reduce_to_asymmetric_unit f2 S.
Proof.
  intros Hsame.
  assert (Hmark : forall i fl, mark_duplicates f1 S i fl = mark_duplicates f2 S i fl).
  { intros i fl. unfold mark_duplicates. apply fold_result_ext_in.
    intros fl' j _. destruct (fl' !! j) as [[|] |]; try reflexivity.
    destruct (atom S i) as [a |] eqn:Ha; [| reflexivity].
    destruct (atom S j) as [b |] eqn:Hb; [| reflexivity].
    cbn [bind]. destruct (negb _); [reflexivity |].
    rewrite (Hsame i j a b (atom_lookup _ _ _ Ha) (atom_lookup _ _ _ Hb)).
    reflexivity. }
  unfold reduce_to_asymmetric_unit.
  match goal with
  | |- bind (fold_result ?B1 ?l ?s) _ = bind (fold_result ?B2 _ _) _ =>
      rewrite (fold_result_ext_in B1 B2 l s); [reflexivity |]
  end.
  intros [fl new] i _. destruct (fl !! i) as [[|] |]; try reflexivity.
  rewrite Hmark. reflexivity.
Qed.

Section Loops.

Variable S : CrystalStructure.
Variable fuel : nat.
Hypothesis distances : forall i j a b,
  atoms_ S !! i = Some a -> atoms_ S !! j = Some b ->
  exists d, CrystalStructure_shortest_distance2 fuel S (position a) (position b)
            = Return d.

(** The inner loop from the index [s] on. *)
Lemma mark_duplicates_from (i : nat) (a_i : Atom) (c s : nat) (fl : list bool) :
  atoms_ S !! i = Some a_i ->
  (s + c = natoms S)%nat -> length fl = natoms S ->
  exists fl',
    fold_result (fun is_duplicate j =>
      match is_duplicate !! j with
      | None => Throw undefined_behaviour
      | Some true => Return is_duplicate
      | Some false =>
          do atom_i <- atom S i;
          do atom_j <- atom S j;
          if negb (Element_eq (element atom_i) (element atom_j))
          then Return is_duplicate
          else
            do distance2 <- CrystalStructure_shortest_distance2 fuel S
                              (position atom_i) (position atom_j);
            if double_lt distance2 (square (dbl 1 1000))
            then Return (<[j := true]> is_duplicate)
            else Return is_duplicate
      end) (seq s c) fl = Return fl' /\
    length fl' = natoms S /\
    forall j, fl' !! j
              = (fun b => b || ((s <=? j)%nat && is_duplicate_of fuel S i j)) <$> fl !! j.
Proof.
  intros Hi.
  match goal with |- context [fold_result ?B _ _] => set (body := B) end.
  revert s fl. induction c as [| c IH]; intros s fl Hsc Hlen.
  - exists fl. split; [reflexivity |]. split; [exact Hlen |].
    intros j. destruct (fl !! j) as [b |] eqn:Hj; [| reflexivity].
    apply lookup_lt_Some in Hj. cbn.
    replace (s <=? j)%nat with false by (symmetry; apply Nat.leb_gt; lia).
    rewrite orb_false_r. reflexivity.
  - cbn [seq fold_result].
    assert (Hs : (s < natoms S)%nat) by lia.
    destruct (atom_Return S s Hs) as (a_s & Has & Hs').
    destruct (atom_Return S i (lookup_lt_Some _ _ _ Hi)) as (a_i' & Hai & Hi').
    assert (a_i' = a_i) by congruence. subst a_i'.
    destruct (lookup_lt_is_Some_2 fl s ltac:(lia)) as [b Hb].
    assert (Hstep : forall fl1, length fl1 = natoms S ->
              (forall j, fl1 !! j
                 = (fun b => b || (Nat.eqb s j && is_duplicate_of fuel S i j)) <$> fl !! j) ->
              exists fl', fold_result body (seq (Datatypes.S s) c) fl1 = Return fl' /\
                length fl' = natoms S /\
                forall j, fl' !! j
                  = (fun b => b || ((s <=? j)%nat && is_duplicate_of fuel S i j))
                    <$> fl !! j).
    { intros fl1 Hlen1 Hfl1.
      destruct (IH (Datatypes.S s) fl1 ltac:(lia) Hlen1) as (fl' & Hfold & Hlen' & Hfl').
      exists fl'. split; [exact Hfold |]. split; [exact Hlen' |].
      intros j. rewrite Hfl', Hfl1. destruct (fl !! j) as [bj |]; [| reflexivity].
      cbn [fmap option_fmap option_map]. f_equal. rewrite <- orb_assoc. f_equal.
      destruct (Nat.eqb_spec s j) as [<- | Hne].
      - rewrite Nat.leb_refl.
        replace (Datatypes.S s <=? s)%nat with false
          by (symmetry; apply Nat.leb_gt; lia).
        destruct (is_duplicate_of fuel S i s); reflexivity.
      - destruct (Nat.leb_spec (Datatypes.S s) j), (Nat.leb_spec s j);
          try reflexivity; lia. }
    unfold body at 1. rewrite Hb. destruct b.
    + cbn [bind]. apply Hstep; [exact Hlen |].
      intros j. destruct (Nat.eqb_spec s j) as [<- | Hne].
      * rewrite Hb. reflexivity.
      * destruct (fl !! j); cbn; rewrite ?orb_false_r; reflexivity.
    + rewrite Hai, Has. cbn [bind].
      assert (Hdup : is_duplicate_of fuel S i s
                     = Element_eq (element a_i) (element a_s)
                       && match CrystalStructure_shortest_distance2 fuel S
                                  (position a_i) (position a_s) with
                          | Return distance2 => double_lt distance2 (square (dbl 1 1000))
                          | Throw _ => false
                          end)
        by (unfold is_duplicate_of; rewrite Hi, Hs'; reflexivity).
      destruct (Element_eq (element a_i) (element a_s)) eqn:Helement; cbn [negb].
      * destruct (distances i s a_i a_s Hi Hs') as (d & Hd).
        rewrite Hd in *. cbn [bind]. rewrite andb_true_l in Hdup.
        destruct (double_lt d (square (dbl 1 1000))) eqn:Hclose.
        -- cbn [bind]. apply Hstep; [rewrite length_insert; exact Hlen |].
           intros j. destruct (Nat.eqb_spec s j) as [<- | Hne].
           ++ rewrite list_lookup_insert_eq by lia. rewrite Hb, Hdup. reflexivity.
           ++ rewrite list_lookup_insert_ne by exact Hne.
              destruct (fl !! j); cbn; rewrite ?orb_false_r; reflexivity.
        -- cbn [bind]. apply Hstep; [exact Hlen |].
           intros j. destruct (Nat.eqb_spec s j) as [<- | Hne].
           ++ rewrite Hb, Hdup. reflexivity.
           ++ destruct (fl !! j); cbn; rewrite ?orb_false_r; reflexivity.
      * cbn [bind]. apply Hstep; [exact Hlen |].
        intros j. destruct (Nat.eqb_spec s j) as [<- | Hne].
        -- rewrite Hb, Hdup. reflexivity.
        -- destruct (fl !! j); cbn; rewrite ?orb_false_r; reflexivity.
Qed.

Lemma flagged_snoc (kept : list nat) (m j : nat) :
  flagged fuel S (kept ++ [m]) j
  = flagged fuel S kept j || ((m <? j)%nat && is_duplicate_of fuel S m j).
Proof.
  unfold flagged. rewrite existsb_app. cbn [existsb]. rewrite orb_false_r.
  reflexivity.
Qed.

(** The outer loop over the atoms before [m]. *)
Lemma reduce_loop (m : nat) :
  (m <= natoms S)%nat ->
  exists fl new kept,
    fold_result (fun '(is_duplicate, new_atoms) i =>
      match is_duplicate !! i with
      | None => Throw undefined_behaviour
      | Some true => Return (is_duplicate, new_atoms)
      | Some false =>
          do is_duplicate <- mark_duplicates fuel S i is_duplicate;
          do atom_i <- atom S i;
          Return (is_duplicate, new_atoms ++ [atom_i])
      end)
      (seq 0 m) (replicate (natoms S) false, []) = Return (fl, new) /\
    length fl = natoms S /\
    Forall2 (fun i a => atoms_ S !! i = Some a) kept new /\
    Forall (fun i => (i < m)%nat) kept /\
    sublist new (take m (atoms_ S)) /\
    ((0 < m)%nat -> kept !! 0%nat = Some 0%nat) /\
    (forall j, (j < natoms S)%nat -> fl !! j = Some (flagged fuel S kept j)) /\
    (forall j, (j < m)%nat -> In j kept <-> flagged fuel S kept j = false).
Proof.
  match goal with |- context [fold_result ?B _ _] => set (body := B) end.
  induction m as [| m IH]; intros Hm.
  - exists (replicate (natoms S) false), [], [].
    split; [reflexivity |]. split; [apply length_replicate |].
    split; [constructor |]. split; [constructor |]. split; [constructor |].
    split; [lia |]. split; [| lia].
    intros j Hj. apply lookup_replicate_2, Hj.
  - destruct (IH ltac:(lia))
      as (fl & new & kept & Hfold & Hlen & Hnew & Hbelow & Hsub & Hhead & Hfl & Hkept).
    rewrite seq_S, fold_result_app, Hfold. cbn [bind Nat.add fold_result].
    destruct (atom_Return S m ltac:(lia)) as (a_m & Ham & Hm').
    assert (Htake : take (Datatypes.S m) (atoms_ S) = take m (atoms_ S) ++ [a_m])
      by (apply take_S_r, Hm').
    assert (Hnot : ~ In m kept).
    { intros Hin. rewrite Forall_forall in Hbelow. specialize (Hbelow m Hin). lia. }
    unfold body at 1. rewrite (Hfl m ltac:(lia)).
    destruct (flagged fuel S kept m) eqn:Hflag.
    + exists fl, new, kept. cbn [bind].
      split; [reflexivity |]. split; [exact Hlen |]. split; [exact Hnew |].
      split; [eapply Forall_impl; [| exact Hbelow]; intros i Hi; cbn in *; lia |].
      split; [rewrite Htake; apply sublist_inserts_r, Hsub |].
      split.
      { intros _. destruct m as [| m]; [| apply Hhead; lia].
        destruct kept as [| i kept]; [discriminate Hflag |].
        inversion Hbelow; lia. }
      split; [exact Hfl |].
      intros j Hj. destruct (decide (j = m)) as [-> | Hne]; [| apply Hkept; lia].
      rewrite Hflag. split; [intros Hin; contradiction | discriminate].
    + unfold mark_duplicates.
      destruct (mark_duplicates_from m a_m (natoms S - (m + 1)) (m + 1) fl Hm'
                  ltac:(lia) Hlen) as (fl' & -> & Hlen' & Hfl').
      cbn [bind]. rewrite Ham. cbn [bind].
      exists fl', (new ++ [a_m]), (kept ++ [m]).
      split; [reflexivity |]. split; [exact Hlen' |].
      split; [apply Forall2_app; [exact Hnew | constructor; [exact Hm' | constructor]] |].
      split.
      { apply Forall_app. split; [| constructor; [lia | constructor]].
        eapply Forall_impl; [| exact Hbelow]; intros i Hi; cbn in *; lia. }
      split; [rewrite Htake; apply sublist_app; [exact Hsub | reflexivity] |].
      split.
      { intros _. destruct m as [| m].
        - destruct kept as [| i kept]; [reflexivity |].
          inversion Hbelow; lia.
        - apply lookup_app_l_Some, Hhead. lia. }
      assert (Hlt : forall j, (m + 1 <=? j)%nat = (m <? j)%nat)
        by (intros j; rewrite Nat.add_1_r; reflexivity).
      split.
      { intros j Hj. rewrite Hfl', (Hfl j Hj), flagged_snoc, Hlt. reflexivity. }
      intros j Hj. rewrite flagged_snoc, in_app_iff.
      destruct (decide (j = m)) as [-> | Hne].
      * rewrite Hflag, Nat.ltb_irrefl. cbn. tauto.
      * replace (m <? j)%nat with false by (symmetry; apply Nat.ltb_ge; lia).
        cbn [andb]. rewrite orb_false_r, <- (Hkept j ltac:(lia)).
        cbn. intuition lia.
Qed.

End Loops.

Lemma is_duplicate_of_spec (n : nat) (S : CrystalStructure) (i j : nat) :
  (forall a b, atoms_ S !! i = Some a -> atoms_ S !! j = Some b ->
     exists d, forall k,
       CrystalStructure_shortest_distance2 (n + k) S (position a) (position b)
       = Return d) ->
  is_duplicate_of n S i j = true <-> duplicate_atoms n S i j.
Proof.
  intros Hd. unfold is_duplicate_of, duplicate_atoms. split.
  - destruct (atoms_ S !! i) as [a |] eqn:Ha; [| discriminate].
    destruct (atoms_ S !! j) as [b |] eqn:Hb; [| discriminate].
    destruct (Hd a b eq_refl eq_refl) as (d & Hk).
    pose proof (Hk 0%nat) as Hzero. rewrite Nat.add_0_r in Hzero. rewrite Hzero.
    intros Hdup. apply andb_prop in Hdup as [Helement Hclose].
    exists a, b, d. repeat split; trivial. apply double_lt_spec, Hclose.
  - intros (a & b & d & -> & -> & -> & Hk & Hclose).
    pose proof (Hk 0%nat) as Hzero. rewrite Nat.add_0_r in Hzero. rewrite Hzero.
    apply double_lt_spec in Hclose. rewrite Hclose. reflexivity.
Qed.

(** X26.  [reduce_to_asymmetric_unit] returns, from some amount of fuel on,
    whenever the space group holds an operator.  It keeps the lattice
    and the space group; the atoms it keeps are atoms of the structure
    in their order, the first atom among them; every atom that is
    dropped has the element of an atom kept before it and is closer to
    it than 0.001; and no two atoms that are kept are so. *)
Theorem reduce_to_asymmetric_unit_result (S : CrystalStructure)
    (op_0 : SymmetryOperator) (ops : list SymmetryOperator) :
  symmetry_operators_ (space_group_ S) = op_0 :: ops ->
  exists (n : nat) (S' : CrystalStructure) (kept : list nat),
    (forall k, reduce_to_asymmetric_unit (n + k) S = Return S') /\
    crystal_lattice_ S' = crystal_lattice_ S /\
    space_group_ S' = space_group_ S /\
    sublist (atoms_ S') (atoms_ S) /\
    Forall2 (fun i a => atoms_ S !! i = Some a) kept (atoms_ S') /\
    (natoms S <> 0%nat -> kept !! 0%nat = Some 0%nat) /\
    (forall j, (j < natoms S)%nat -> ~ In j kept ->
       exists i, In i kept /\ (i < j)%nat /\ duplicate_atoms n S i j) /\
    (forall i j, In i kept -> In j kept -> (i < j)%nat -> ~ duplicate_atoms n S i j).
Proof.
  intros Hops.
  destruct (structure_distances_total S op_0 ops
              (list_prod (map position (atoms_ S)) (map position (atoms_ S))) Hops)
    as (n & Hn).
  assert (Hpairs : forall i j a b,
            atoms_ S !! i = Some a -> atoms_ S !! j = Some b ->
            exists d, forall k,
              CrystalStructure_shortest_distance2 (n + k) S (position a) (position b)
              = Return d).
  { intros i j a b Ha Hb. apply (Hn (position a, position b)).
    apply in_prod; apply in_map, list_elem_of_In, list_elem_of_lookup; eauto. }
  assert (Hdistances : forall i j a b,
            atoms_ S !! i = Some a -> atoms_ S !! j = Some b ->
            exists d, CrystalStructure_shortest_distance2 n S (position a) (position b)
                      = Return d).
  { intros i j a b Ha Hb. destruct (Hpairs i j a b Ha Hb) as (d & Hd).
    exists d. rewrite <- (Hd 0%nat), Nat.add_0_r. reflexivity. }
  destruct (reduce_loop S n Hdistances (natoms S) (Nat.le_refl _))
    as (fl & new & kept & Hfold & Hlen & Hnew & Hbelow & Hsub & Hhead & Hfl & Hkept).
  assert (Hdup : forall i j, is_duplicate_of n S i j = true <-> duplicate_atoms n S i j).
  { intros i j. apply is_duplicate_of_spec. intros a b. apply Hpairs. }
  exists n, (mkCrystalStructure (crystal_lattice_ S) (space_group_ S) new), kept.
  split.
  { intros k. rewrite (reduce_same_distances S (n + k) n).
    - unfold reduce_to_asymmetric_unit. rewrite Hfold. reflexivity.
    - intros i j a b Ha Hb. destruct (Hpairs i j a b Ha Hb) as (d & Hd).
      rewrite (Hd k), <- (Hd 0%nat), Nat.add_0_r. reflexivity. }
  split; [reflexivity |]. split; [reflexivity |].
  cbn [atoms_].
  split; [rewrite take_ge in Hsub by (unfold natoms; lia); exact Hsub |].
  split; [exact Hnew |].
  split; [intros Hatoms; apply Hhead; lia |].
  split.
  - intros j Hj Hnot.
    destruct (flagged n S kept j) eqn:Hflag.
    + unfold flagged in Hflag. apply existsb_exists in Hflag as (i & Hi & Hij).
      apply andb_prop in Hij as [Hlt Hij]. exists i.
      split; [exact Hi |]. split; [apply Nat.ltb_lt, Hlt | apply Hdup, Hij].
    + exfalso. apply Hnot, (Hkept j Hj), Hflag.
  - intros i j Hi Hj Hij Hduplicate.
    apply (Hkept j) in Hj; [| rewrite Forall_forall in Hbelow; apply Hbelow, Hj].
    assert (Htrue : flagged n S kept j = true); [| congruence].
    unfold flagged. apply existsb_exists. exists i. split; [exact Hi |].
    apply andb_true_intro. split; [apply Nat.ltb_lt, Hij | apply Hdup, Hduplicate].
Qed.

End Reduction.

(** ** Atoms moved into the unit cell *)


Section UnitCell.

Context `{SymmetryLibrary} `{StructureLibrary}.


End UnitCell.

(** ** Examples *)

#[local] Existing Instance example_symmetry.
#[local] Existing Instance example_structure.

(** The cell of C2 and C3 is the one that the constructor builds from
    a = 2, b = 5, c = 1, alpha = beta = 90 degrees and cos gamma = -4/5,
    whenever [sqrt 1 = 1]. *)
Lemma obtuse_cell_constructed (sqrt : double -> double) :
  sqrt 1 = 1 ->
  CrystalLattice_of_cell sqrt (dbl 2 1) (dbl 5 1) 1
    angle_90_degrees angle_90_degrees obtuse_gamma
  = obtuse_cell.
Proof.
  intros Hsqrt. unfold CrystalLattice_of_cell, obtuse_cell.
  cbn [v_x v_y v_z cosine sine angle_90_degrees obtuse_gamma].
  assert (Hbx : dbl 5 1 * dbl (-4) 5 = dbl (-4) 1)
    by (apply Qc_is_canon; vm_compute; reflexivity).
  assert (Hby : dbl 5 1 * dbl 3 5 = dbl 3 1)
    by (apply Qc_is_canon; vm_compute; reflexivity).
  assert (Hx : 1 * 0 = 0) by (apply Qc_is_canon; vm_compute; reflexivity).
  rewrite Hbx, Hby, Hx.
  assert (Hy : (dbl 5 1 * 1 * 0 - dbl (-4) 1 * 0) / dbl 3 1 = 0)
    by (apply Qc_is_canon; vm_compute; reflexivity).
  rewrite Hy.
  assert (Hz : square 1 - square 0 - square 0 = 1)
    by (apply Qc_is_canon; vm_compute; reflexivity).
  rewrite Hz, Hsqrt. reflexivity.
Qed.

(** With the composition and the inverse of the instance, in exact
    arithmetic, the conjugate of the identity operator by an operator
    with an invertible rotation is the identity operator. *)
Lemma conjugate_of_identity (S : SymmetryOperator) :
  determinant (rotation S) <> 0 ->
  composition (composition S identity_operator) (inversion_of S) = identity_operator.
Proof.
  destruct S as [[r00 r01 r02 r10 r11 r12 r20 r21 r22] [tx ty tz]].
  unfold composition, inversion_of, identity_operator, Matrix3D_inverse, determinant,
    Matrix3D_mul, Matrix3D_mul_vec, Matrix3D_scale, Vector3D_add, Vector3D_scale,
    identity_matrix, Matrix3D_diag, zero_vector.
  cbn [rotation translation m00 m01 m02 m10 m11 m12 m20 m21 m22 v_x v_y v_z].
  intros Hdet.
  f_equal; f_equal; unfold double; field; exact Hdet.
Qed.

(** The default constructor builds P1, which is triclinic. *)
Example default_group_is_P1 :
  SpaceGroup_default = Return group_P1 /\
  crystal_system group_P1 = Return "triclinic"%string.
Proof. split; vm_compute; reflexivity. Qed.

Lemma constructor_checks_closure_witness :
  (~ closed [half_translation] /\
   SpaceGroup_of_operators [half_translation] "P1"
   = Throw (runtime_error
       "check_if_closed( std::vector< SymmetryOperator > ): operator not found."))
  /\
  (SpaceGroup_of_operators [twofold_operator; identity_operator] "P2"
   = Return group_P2 /\
   closed [twofold_operator; identity_operator] /\
   closed (symmetry_operators_ group_P2)).
Proof.
  assert (Hnot : ~ closed [half_translation]).
  { intros Hclosed. apply check_if_closed_Return in Hclosed.
    vm_compute in Hclosed. discriminate. }
  assert (HP2 : SpaceGroup_of_operators [twofold_operator; identity_operator] "P2"
                = Return group_P2) by (vm_compute; reflexivity).
  split.
  - split; [exact Hnot |].
    exact (proj1 (constructor_checks_closure [half_translation] "P1") Hnot).
  - split; [exact HP2 |].
    exact (proj2 (constructor_checks_closure [twofold_operator; identity_operator] "P2")
             group_P2 HP2).
Defined.

Lemma crystal_system_classification_witness :
  (length (representative_symmetry_operators_ group_P2) <> 1%nat /\
   count_order 3 (representative_symmetry_operators_ group_P2) <> 8%nat /\
   count_order 6 (representative_symmetry_operators_ group_P2) <> 2%nat /\
   count_order 3 (representative_symmetry_operators_ group_P2) <> 2%nat /\
   count_order 4 (representative_symmetry_operators_ group_P2) <> 2%nat /\
   count_order 2 (representative_symmetry_operators_ group_P2) <> 3%nat /\
   count_order 2 (representative_symmetry_operators_ group_P2) = 1%nat) /\
  crystal_system group_P2 = Return "monoclinic"%string /\
  (crystal_system group_P1 = Return "triclinic"%string <->
   length (representative_symmetry_operators_ group_P1) = 1%nat).
Proof.
  assert (H : length (representative_symmetry_operators_ group_P2) <> 1%nat /\
   count_order 3 (representative_symmetry_operators_ group_P2) <> 8%nat /\
   count_order 6 (representative_symmetry_operators_ group_P2) <> 2%nat /\
   count_order 3 (representative_symmetry_operators_ group_P2) <> 2%nat /\
   count_order 4 (representative_symmetry_operators_ group_P2) <> 2%nat /\
   count_order 2 (representative_symmetry_operators_ group_P2) <> 3%nat /\
   count_order 2 (representative_symmetry_operators_ group_P2) = 1%nat).
  { vm_compute. repeat split; discriminate. }
  split; [exact H |].
  destruct H as (H1 & H38 & H62 & H32 & H42 & H23 & H21).
  split.
  - pose proof (crystal_system_classification group_P2) as Hcs. cbv zeta in Hcs.
    destruct Hcs as [_ Hcs].
    destruct (Hcs H1) as (_ & _ & _ & _ & _ & Hmono & _).
    exact (Hmono H38 H62 H32 H42 H23 H21).
  - exact (proj1 (crystal_system_classification group_P1)).
Defined.

Lemma identity_is_first_operator_witness :
  SpaceGroup_of_operators [twofold_operator; identity_operator] "P2"
  = Return group_P2 /\
  first_is_identity group_P2 /\
  remove_duplicate_symmetry_operators group_P2 = Return group_P2 /\
  (exists G', add_inversion_at_origin group_P2 = Return G' /\
     symmetry_operators_ G' = operators_P2m /\ first_is_identity G') /\
  apply_similarity_transformation group_P2 twofold_operator = Return group_P2 /\
  is_identity (compose (compose twofold_operator identity_operator)
                 (inverse twofold_operator)) = true.
Proof.
  destruct identity_is_first_operator
    as (Hconstructor & _ & _ & Hinversion & _ & Hsimilarity).
  assert (HP2 : SpaceGroup_of_operators [twofold_operator; identity_operator] "P2"
                = Return group_P2) by (vm_compute; reflexivity).
  assert (Hturned : apply_similarity_transformation group_P2 twofold_operator
                    = Return group_P2) by (vm_compute; reflexivity).
  pose proof (Hconstructor _ _ _ HP2) as Hfirst.
  split; [exact HP2 |]. split; [exact Hfirst |].
  split; [vm_compute; reflexivity |].
  split.
  - exists (mkSpaceGroup operators_P2m "P2" [identity_operator; twofold_operator] []
              true true zero_vector).
    assert (Hadded : add_inversion_at_origin group_P2
                     = Return (mkSpaceGroup operators_P2m "P2"
                                 [identity_operator; twofold_operator] []
                                 true true zero_vector))
      by (vm_compute; reflexivity).
    split; [exact Hadded |]. split; [reflexivity |].
    exact (proj2 (Hinversion _ _ Hadded) Hfirst).
  - split; [exact Hturned |].
    exact (proj1 (proj2 (Hsimilarity group_P2 twofold_operator group_P2
                           identity_operator eq_refl Hturned)) Hfirst).
Defined.

(** C6 does not extend to [apply_similarity_transformation]: the
    constructor accepts the two operators
    [shear 6e-7] and the identity, and leaves the first, which passes the
    identity test, at index 0; after a similarity transformation by
    [stretch] the operator at index 0 has 6e-4 off the diagonal and fails
    the identity test. *)
Lemma similarity_transformation_moves_identity :
  SpaceGroup_of_operators [shear (dbl 6 10000000); identity_operator] "P1"
  = Return sheared_P1 /\
  first_is_identity sheared_P1 /\
  exists G' op,
    apply_similarity_transformation sheared_P1 stretch = Return G' /\
    symmetry_operators_ G' !! 0%nat = Some op /\
    m01 (rotation op) = dbl 6 10000 /\
    is_identity op = false /\
    ~ first_is_identity G'.
Proof.
  assert (Hconstructed :
            SpaceGroup_of_operators [shear (dbl 6 10000000); identity_operator] "P1"
            = Return sheared_P1) by (vm_compute; reflexivity).
  split; [exact Hconstructed |].
  split; [exists (shear (dbl 6 10000000)); split; vm_compute; reflexivity |].
  destruct (apply_similarity_transformation sheared_P1 stretch) as [G' | e]
    eqn:HG'; [| vm_compute in HG'; discriminate].
  pose proof (apply_similarity_transformation_head sheared_P1 G' stretch
                (shear (dbl 6 10000000)) eq_refl HG') as Hhead.
  assert (Hfails : is_identity (compose (compose stretch (shear (dbl 6 10000000)))
                                  (inverse stretch)) = false)
    by (vm_compute; reflexivity).
  exists G', (compose (compose stretch (shear (dbl 6 10000000))) (inverse stretch)).
  split; [reflexivity |]. split; [exact Hhead |].
  split; [apply Qc_is_canon; vm_compute; reflexivity |].
  split; [exact Hfails |].
  intros (op & Hop & Hid). rewrite Hhead in Hop. congruence.
Qed.

Lemma decompose_keeps_first_of_each_rotation_witness :
  rotation_classes operators_P2m = true /\
  decompose undecomposed_P2m = Return group_P2m /\
  sublist (representative_symmetry_operators_ group_P2m)
    (symmetry_operators_ group_P2m) /\
  (forall op, In op (symmetry_operators_ group_P2m) ->
     one_representative (representative_symmetry_operators_ group_P2m) op) /\
  (forall r, In r (representative_symmetry_operators_ group_P2m) ->
     first_of_its_rotation (symmetry_operators_ group_P2m) r).
Proof.
  assert (Hclasses : rotation_classes operators_P2m = true)
    by (vm_compute; reflexivity).
  assert (Hdec : decompose undecomposed_P2m = Return group_P2m)
    by (vm_compute; reflexivity).
  split; [exact Hclasses |]. split; [exact Hdec |].
  exact (decompose_keeps_first_of_each_rotation undecomposed_P2m group_P2m
           Hclasses Hdec).
Defined.

(** C7 needs the classes: the constructor accepts the operators
    [shear (-6e-7)], [shear 6e-7] and the identity; the two shears are not
    within the tolerance of each other, so that both are representatives,
    and the identity has the rotation of both of them. *)
Lemma representatives_can_overlap :
  SpaceGroup_of_operators
    [shear (dbl (-6) 10000000); shear (dbl 6 10000000); identity_operator] "P1"
  = Return doubly_sheared_P1 /\
  decompose doubly_sheared_P1 = Return doubly_sheared_P1 /\
  representative_symmetry_operators_ doubly_sheared_P1
  = [shear (dbl (-6) 10000000); shear (dbl 6 10000000)] /\
  In identity_operator (symmetry_operators_ doubly_sheared_P1) /\
  same_rotation identity_operator (shear (dbl (-6) 10000000)) = true /\
  same_rotation identity_operator (shear (dbl 6 10000000)) = true /\
  same_rotation (shear (dbl 6 10000000)) (shear (dbl (-6) 10000000)) = false /\
  rotation_classes (symmetry_operators_ doubly_sheared_P1) = false /\
  ~ one_representative (representative_symmetry_operators_ doubly_sheared_P1)
      identity_operator.
Proof.
  assert (Hfirst : same_rotation identity_operator (shear (dbl (-6) 10000000)) = true)
    by (vm_compute; reflexivity).
  assert (Hsecond : same_rotation identity_operator (shear (dbl 6 10000000)) = true)
    by (vm_compute; reflexivity).
  split; [vm_compute; reflexivity |]. split; [vm_compute; reflexivity |].
  split; [reflexivity |]. split; [simpl; tauto |].
  split; [exact Hfirst |]. split; [exact Hsecond |].
  split; [vm_compute; reflexivity |]. split; [vm_compute; reflexivity |].
  intros (k & r & _ & _ & Honly).
  pose proof (Honly 0%nat _ eq_refl Hfirst) as H0.
  pose proof (Honly 1%nat _ eq_refl Hsecond) as H1.
  congruence.
Qed.

Lemma atom_total_witness :
  ((natoms one_atom_structure <= 1)%nat /\
   atom one_atom_structure 1
   = Throw (runtime_error "CrystalStructure::atom( size_t ): i >= atoms_.size()"))
  /\
  ((0 < natoms one_atom_structure)%nat /\
   exists a, atoms_ one_atom_structure !! 0%nat = Some a /\
             atom one_atom_structure 0 = Return a).
Proof.
  assert (H1 : (natoms one_atom_structure <= 1)%nat) by (vm_compute; lia).
  assert (H0 : (0 < natoms one_atom_structure)%nat) by (vm_compute; lia).
  split; (split; [assumption |]).
  - exact (proj1 (atom_total one_atom_structure 1) H1).
  - exact (proj2 (atom_total one_atom_structure 0) H0).
Defined.

Lemma comparisons_check_atom_counts_witness :
  natoms one_atom_structure <> natoms empty_structure /\
  root_mean_square_Cartesian_displacement one_atom_structure empty_structure
  = Throw (runtime_error
      "root_mean_square_Cartesian_displacement(): number of atoms is not the same.")
  /\
  (forall fuel add_shifts,
     RMSCD_with_matching save_cif_succeeds fuel one_atom_structure empty_structure
       add_shifts
     = Throw (runtime_error
         "RMSCD_with_matching(): numbers of atoms are not the same."))
  /\
  (forall fuel shift_steps integer_shifts add_inversion correct_floating_axes,
     find_match fuel one_atom_structure empty_structure shift_steps integer_shifts
       add_inversion correct_floating_axes
     = Throw (runtime_error "find_match(): numbers of atoms are not the same.")).
Proof.
  assert (H : natoms one_atom_structure <> natoms empty_structure)
    by (vm_compute; lia).
  split; [exact H |].
  exact (comparisons_check_atom_counts save_cif_succeeds _ _ H).
Defined.

Lemma find_match_without_atoms_witness :
  natoms empty_structure = 0%nat /\
  find_match 0 empty_structure empty_structure 2 [7; 8; 9]%Z true true
  = Return (identity_operator, [7; 8; 9]%Z).
Proof.
  assert (H : natoms empty_structure = 0%nat) by reflexivity.
  split; [exact H |].
  exact (find_match_without_atoms 0 empty_structure empty_structure 2 [7; 8; 9]%Z
           true true H H).
Defined.

(** ** Examples for the other functions *)

(** Closed equalities and inequalities of doubles, by evaluation. *)
Ltac evaluate_double :=
  lazymatch goal with
  | |- @eq _ _ _ => apply Qc_is_canon; vm_compute; reflexivity
  | |- _ <> _ =>
      let H := fresh in
      intros H; apply (f_equal this) in H; vm_compute in H; discriminate
  end.

Lemma constructor_basis_has_cell_metric_witness :
  let L := CrystalLattice_of_cell rational_sqrt (dbl 2 1) (dbl 5 1) 1
             angle_90_degrees angle_90_degrees obtuse_gamma in
  (cosine obtuse_gamma * cosine obtuse_gamma + sine obtuse_gamma * sine obtuse_gamma = 1 /\
   dbl 5 1 * sine obtuse_gamma <> 0 /\
   square (v_z (c_vector_ L))
   = square 1 - square (v_x (c_vector_ L)) - square (v_y (c_vector_ L))) /\
  Matrix3D_mul (Matrix3D_transpose (Downs_D L)) (Downs_D L) = metric_matrix L /\
  Downs_G L = metric_matrix L /\
  Downs_D L = fractional_to_orthogonal_matrix_ L.
Proof.
  intros L.
  assert (H1 : cosine obtuse_gamma * cosine obtuse_gamma
               + sine obtuse_gamma * sine obtuse_gamma = 1) by evaluate_double.
  assert (H2 : dbl 5 1 * sine obtuse_gamma <> 0) by evaluate_double.
  assert (H3 : square (v_z (c_vector_ L))
               = square 1 - square (v_x (c_vector_ L)) - square (v_y (c_vector_ L)))
    by evaluate_double.
  split; [auto |].
  exact (constructor_basis_has_cell_metric rational_sqrt (dbl 2 1) (dbl 5 1) 1
           angle_90_degrees angle_90_degrees obtuse_gamma H1 H2 H3).
Defined.

Lemma for_CASTEP_has_cell_metric_witness :
  let M := for_CASTEP rational_sqrt obtuse_cell in
  (cosine (alpha_ obtuse_cell) * cosine (alpha_ obtuse_cell)
   + sine (alpha_ obtuse_cell) * sine (alpha_ obtuse_cell) = 1 /\
   b_ obtuse_cell * sine (alpha_ obtuse_cell) <> 0 /\
   square (m00 M) = square (a_ obtuse_cell) - square (m02 M) - square (m01 M)) /\
  M = mkMatrix3D (dbl 6 5) (dbl (-8) 5) 0
                 0 (dbl 5 1) 0
                 0 0 1 /\
  Matrix3D_mul M (Matrix3D_transpose M) = metric_matrix obtuse_cell.
Proof.
  intros M.
  assert (H1 : cosine (alpha_ obtuse_cell) * cosine (alpha_ obtuse_cell)
               + sine (alpha_ obtuse_cell) * sine (alpha_ obtuse_cell) = 1)
    by evaluate_double.
  assert (H2 : b_ obtuse_cell * sine (alpha_ obtuse_cell) <> 0) by evaluate_double.
  assert (H3 : square (m00 M) = square (a_ obtuse_cell) - square (m02 M)
                                - square (m01 M)) by evaluate_double.
  split; [auto |]. split.
  - unfold M, for_CASTEP. f_equal; evaluate_double.
  - exact (for_CASTEP_has_cell_metric rational_sqrt obtuse_cell H1 H2 H3).
Defined.

Lemma coordinates_round_trip_witness :
  let M := fractional_to_orthogonal_matrix_ obtuse_cell in
  let v := mkVector3D (dbl 1 2) (dbl 1 3) (dbl 1 4) in
  (Matrix3D_mul (Matrix3D_inverse M) M = identity_matrix /\
   Matrix3D_mul M (Matrix3D_inverse M) = identity_matrix) /\
  orthogonal_to_fractional Matrix3D_inverse obtuse_cell
    (fractional_to_orthogonal obtuse_cell v) = v /\
  fractional_to_orthogonal obtuse_cell
    (orthogonal_to_fractional Matrix3D_inverse obtuse_cell v) = v.
Proof.
  intros M v.
  assert (Hdet : determinant M <> 0) by evaluate_double.
  pose proof (Matrix3D_inverse_both_sides M Hdet) as [Hleft Hright].
  split; [auto |].
  exact (coordinates_round_trip Matrix3D_inverse obtuse_cell v Hleft Hright).
Defined.

Lemma orthogonal_cell_shortest_distance_witness :
  integer_shift adjust_for_translations_floor /\
  orthogonal cubic_cell /\
  exists (n : nat) (s : double),
    (forall k, shortest_distance2 adjust_for_translations_floor (n + k) cubic_cell
                 zero_vector (mkVector3D 0 (dbl 2 5) 0) = Some s) /\
    (forall k, shortest_distance2 adjust_for_translations_floor (n + k) cubic_cell
                 (mkVector3D 0 (dbl 2 5) 0) zero_vector = Some s) /\
    (exists i j k, s = translate_distance2 cubic_cell
                         zero_vector (mkVector3D 0 (dbl 2 5) 0) i j k) /\
    (forall i j k, s <= translate_distance2 cubic_cell
                          zero_vector (mkVector3D 0 (dbl 2 5) 0) i j k).
Proof.
  split; [exact adjust_for_translations_floor_integer_shift |].
  split; [exact cubic_cell_orthogonal |].
  exact (orthogonal_cell_shortest_distance adjust_for_translations_floor cubic_cell
           zero_vector (mkVector3D 0 (dbl 2 5) 0)
           adjust_for_translations_floor_integer_shift cubic_cell_orthogonal).
Defined.

Lemma decompose_result_witness :
  decompose undecomposed_P2m = Return group_P2m /\
  symmetry_operators_ group_P2m = operators_P2m /\
  name_ group_P2m = name_ undecomposed_P2m /\
  representative_symmetry_operators_ group_P2m = representatives operators_P2m /\
  centring_vectors_ group_P2m
  = List.filter (fun v => negb (nearly_equal_Vector3D v zero_vector))
      (map translation (List.filter pure_translation operators_P2m)) /\
  has_inversion_ group_P2m = existsb inversion_centre operators_P2m /\
  (has_inversion_at_origin_ group_P2m = true -> has_inversion_ group_P2m = true) /\
  (has_inversion_ group_P2m = false ->
   position_of_inversion_ group_P2m = position_of_inversion_ undecomposed_P2m).
Proof.
  assert (Hdec : decompose undecomposed_P2m = Return group_P2m)
    by (vm_compute; reflexivity).
  split; [exact Hdec |].
  exact (decompose_result undecomposed_P2m group_P2m Hdec).
Defined.

Lemma decompose_idempotent_witness :
  decompose undecomposed_P2m = Return group_P2m /\
  decompose group_P2m = Return group_P2m.
Proof.
  assert (Hdec : decompose undecomposed_P2m = Return group_P2m)
    by (vm_compute; reflexivity).
  split; [exact Hdec |].
  exact (decompose_idempotent undecomposed_P2m group_P2m Hdec).
Defined.

Lemma remove_duplicates_result_witness :
  remove_duplicate_symmetry_operators doubled_P2 = Return group_P2 /\
  sublist (symmetry_operators_ group_P2) (symmetry_operators_ doubled_P2) /\
  no_duplicates (symmetry_operators_ group_P2) /\
  (forall op, In op (symmetry_operators_ doubled_P2) ->
     In op (symmetry_operators_ group_P2) \/
     exists c, In c (symmetry_operators_ group_P2) /\
       nearly_equal_SymmetryOperator op c = true).
Proof.
  assert (Hrun : remove_duplicate_symmetry_operators doubled_P2 = Return group_P2)
    by (vm_compute; reflexivity).
  split; [exact Hrun |].
  exact (remove_duplicates_result doubled_P2 group_P2 Hrun).
Defined.

Lemma remove_duplicates_idempotent_witness :
  remove_duplicate_symmetry_operators doubled_P2 = Return group_P2 /\
  remove_duplicate_symmetry_operators group_P2 = Return group_P2.
Proof.
  assert (Hrun : remove_duplicate_symmetry_operators doubled_P2 = Return group_P2)
    by (vm_compute; reflexivity).
  split; [exact Hrun |].
  exact (remove_duplicates_idempotent doubled_P2 group_P2 Hrun).
Defined.

Lemma set_atom_then_atom_witness :
  (0 < natoms one_atom_structure)%nat /\
  exists S',
    set_atom one_atom_structure 0 (nitrogen zero_vector) = Return S' /\
    atom S' 0 = Return (nitrogen zero_vector) /\
    (forall j, j <> 0%nat -> atom S' j = atom one_atom_structure j) /\
    natoms S' = natoms one_atom_structure /\
    crystal_lattice_ S' = crystal_lattice_ one_atom_structure /\
    space_group_ S' = space_group_ one_atom_structure.
Proof.
  assert (H0 : (0 < natoms one_atom_structure)%nat) by (vm_compute; lia).
  split; [exact H0 |].
  exact (set_atom_then_atom one_atom_structure 0 (nitrogen zero_vector) H0).
Defined.

Lemma decimal_digits (n : nat) : all_chars is_digit (decimal n) = true.
Proof.
  unfold decimal. induction (Nat.to_uint n) as [| d IH | d IH | d IH | d IH | d IH
    | d IH | d IH | d IH | d IH | d IH]; simpl; [reflexivity | exact IH ..].
Qed.

Lemma decimal_injective (m n : nat) : decimal m = decimal n -> m = n.
Proof.
  unfold decimal. intros Heq. apply DecimalNat.Unsigned.to_uint_inj.
  apply (f_equal DecimalString.NilEmpty.uint_of_string) in Heq.
  rewrite !DecimalString.NilEmpty.usu in Heq. congruence.
Qed.

Lemma make_atom_labels_unique_unique_witness :
  let symbol := fun e : string => e in
  let S' := make_atom_labels_unique symbol decimal two_carbons in
  ((forall a, In a (atoms_ two_carbons) ->
      all_chars (fun c => negb (is_digit c)) (symbol (element a)) = true) /\
   (forall n, all_chars is_digit (decimal n) = true) /\
   (forall m n, decimal m = decimal n -> m = n)) /\
  map label (atoms_ S') = ["C0"; "C1"]%string /\
  natoms S' = natoms two_carbons /\
  (forall i j a b, atoms_ S' !! i = Some a -> atoms_ S' !! j = Some b ->
     label a = label b -> i = j) /\
  (forall i a, atoms_ S' !! i = Some a -> find_label S' (label a) = i).
Proof.
  intros symbol S'.
  assert (H1 : forall a, In a (atoms_ two_carbons) ->
                 all_chars (fun c => negb (is_digit c)) (symbol (element a)) = true).
  { intros a [<- | [<- | []]]; reflexivity. }
  split; [split; [exact H1 | split; [exact decimal_digits | exact decimal_injective]] |].
  split; [reflexivity |].
  exact (make_atom_labels_unique_unique symbol decimal two_carbons H1
           decimal_digits decimal_injective).
Defined.

Lemma rmscd_symmetric_witness :
  (forall x y : string, String.eqb x y = String.eqb y x) /\
  root_mean_square_Cartesian_displacement one_atom_structure nitrogen_structure
  = root_mean_square_Cartesian_displacement nitrogen_structure one_atom_structure.
Proof.
  split; [exact String.eqb_sym |].
  exact (rmscd_symmetric one_atom_structure nitrogen_structure String.eqb_sym).
Defined.

Lemma rmscd_of_same_structure_witness :
  ((forall x : string, String.eqb x x = true) /\ nearly_equal 0 0 = true /\
   rational_sqrt 0 = 0) /\
  root_mean_square_Cartesian_displacement two_carbons two_carbons = Return 0.
Proof.
  assert (Hzero : nearly_equal 0 0 = true) by (vm_compute; reflexivity).
  assert (Hsqrt : rational_sqrt 0 = 0) by evaluate_double.
  split; [split; [exact String.eqb_refl | split; [exact Hzero | exact Hsqrt]] |].
  exact (rmscd_of_same_structure two_carbons String.eqb_refl Hzero Hsqrt).
Defined.




Lemma CrystalStructure_shortest_distance2_smallest_witness :
  let S := mkCrystalStructure obtuse_cell group_P2 [carbon zero_vector] in
  let lhs := zero_vector in
  let rhs := mkVector3D 0 (dbl 2 5) 0 in
  let positions := rhs :: map (fun op => image op rhs) [twofold_operator] in
  let distance := returns_from adjust_for_translations obtuse_cell lhs in
  symmetry_operators_ (space_group_ S) = [identity_operator; twofold_operator] /\
  exists (n : nat) (r : double),
    (forall k, CrystalStructure_shortest_distance2 (n + k) S lhs rhs = Return r) /\
    (exists p, In p positions /\ distance n p r) /\
    (forall p, In p positions -> exists d, distance n p d /\ r <= d).
Proof.
  intros S lhs rhs positions distance.
  split; [reflexivity |].
  exact (CrystalStructure_shortest_distance2_smallest S lhs rhs identity_operator
           [twofold_operator] eq_refl).
Defined.

Lemma reduce_to_asymmetric_unit_result_witness :
  symmetry_operators_ (space_group_ two_carbons) = [identity_operator] /\
  exists (n : nat) (S' : CrystalStructure) (kept : list nat),
    (forall k, reduce_to_asymmetric_unit (n + k) two_carbons = Return S') /\
    crystal_lattice_ S' = crystal_lattice_ two_carbons /\
    space_group_ S' = space_group_ two_carbons /\
    sublist (atoms_ S') (atoms_ two_carbons) /\
    Forall2 (fun i a => atoms_ two_carbons !! i = Some a) kept (atoms_ S') /\
    (natoms two_carbons <> 0%nat -> kept !! 0%nat = Some 0%nat) /\
    (forall j, (j < natoms two_carbons)%nat -> ~ In j kept ->
       exists i, In i kept /\ (i < j)%nat /\ duplicate_atoms n two_carbons i j) /\
    (forall i j, In i kept -> In j kept -> (i < j)%nat ->
       ~ duplicate_atoms n two_carbons i j).
Proof.
  split; [reflexivity |].
  exact (reduce_to_asymmetric_unit_result two_carbons identity_operator [] eq_refl).
Defined.



